(** * Snapshot codec of the image gallery: tree model, ingestion,
      transcoder, serializer and deserializer

    Shallow embedding of [src/utils/fileUtils.ts] together with the two
    callers that drive it ([handleGenerateSnapshot] of the share modal and
    [handleImport] of the application shell), and the properties of the
    specification settled against it. *)

From Stdlib Require Import String Ascii List ZArith QArith Qround Qpower Lia Lqa Bool Arith.
From Stdlib Require Import Permutation.
Import ListNotations.

Set Warnings "-register-all".

Local Close Scope Q_scope.
Local Open Scope string_scope.
Local Open Scope list_scope.

(* ================================================================== *)
(** * Strings as JavaScript uses them *)
(* ================================================================== *)

Module JsString.

(** [s.startsWith(p)] *)
Definition startsWith (s p : string) : bool := String.prefix p s.

(** A string is falsy exactly when it is empty. *)
Definition truthy (s : string) : bool :=
  match s with EmptyString => false | String _ _ => true end.

(** [s.split(sep)] for a one-character separator: always at least one
    piece, empty pieces kept. *)
Fixpoint split (sep : ascii) (s : string) : list string :=
  match s with
  | EmptyString => [EmptyString]
  | String c rest =>
      if Ascii.eqb c sep then EmptyString :: split sep rest
      else match split sep rest with
           | [] => [String c EmptyString]
           | piece :: pieces => String c piece :: pieces
           end
  end.

End JsString.

(* ================================================================== *)
(** * Data model ([types.ts]) *)
(* ================================================================== *)

(** A browser [File]: the three attributes the code reads, and its bytes. *)
Record File : Type := mkFile {
  file_name : string;
  webkitRelativePath : string;
  file_type : string;
  file_bytes : string
}.

(** [type: 'file' | 'folder'] *)
Inductive NodeType : Type := file | folder.

Definition NodeType_eqb (a b : NodeType) : bool :=
  match a, b with
  | file, file | folder, folder => true
  | _, _ => false
  end.

(** A [Blob]: its bytes and its [type]. *)
Record Blob : Type := mkBlob {
  blob_bytes : string;
  blob_type : string
}.

(** Every character of [s] passes [p]. *)
Fixpoint allChars (p : ascii -> bool) (s : string) : bool :=
  match s with
  | EmptyString => true
  | String c rest => p c && allChars p rest
  end.

(** The characters U+0020 to U+007E. *)
Definition printable (c : ascii) : bool :=
  (32 <=? nat_of_ascii c)%nat && (nat_of_ascii c <=? 126)%nat.

(** A letter [A] to [Z] as the lower-case letter, any other character as
    it is. *)
Definition toLowerCase (c : ascii) : ascii :=
  if (65 <=? nat_of_ascii c)%nat && (nat_of_ascii c <=? 90)%nat
  then ascii_of_nat (nat_of_ascii c + 32)
  else c.

Fixpoint lowerCased (s : string) : string :=
  match s with
  | EmptyString => EmptyString
  | String c rest => String (toLowerCase c) (lowerCased rest)
  end.

(** The [type] of the blob that [new Blob(parts, { type })] makes: the
    given type in lower case, or the empty text when the given type holds
    a character outside U+0020 to U+007E. *)
Definition Blob_type (type : string) : string :=
  if allChars printable type then lowerCased type else "".

(** [new Blob([bytes], { type })]; a [type] that is [undefined] is the
    empty text. *)
Definition new_Blob (bytes : string) (type : option string) : Blob :=
  mkBlob bytes (match type with Some t => Blob_type t | None => "" end).

(** What a blob URL made by [URL.createObjectURL] resolves to.  The text of
    the URL is chosen by the browser and never inspected by the code, so a
    handle is identified with its source. *)
Inductive ObjectURL : Type :=
| UrlOfFile (f : File)
| UrlOfBlob (b : Blob).

(** [interface FileNode].  Optional members are options; [None] is the
    JavaScript [undefined].  The [parent] back-reference is not stored: it
    is the position of the node in the tree, and none of the functions
    below reads it. *)
Inductive FileNode : Type := mkFileNode {
  id : string;
  name : string;
  path : string;
  type : NodeType;
  children : list FileNode;
  node_file : option File;
  url : option ObjectURL;
  isDeleted : option bool
}.

(** [interface SerializedNode] *)
Inductive SerializedNode : Type := mkSerializedNode {
  s_id : string;
  s_name : string;
  s_path : string;
  s_type : NodeType;
  s_children : list SerializedNode;
  thumbnailData : option string;
  s_isDeleted : option bool
}.

(** Induction over trees whose children are a list of trees. *)
Section FileNode_induction.
Variable P : FileNode -> Prop.
Hypothesis step : forall i n p t cs f u d,
    Forall P cs -> P (mkFileNode i n p t cs f u d).

Fixpoint FileNode_tree_ind (node : FileNode) : P node :=
  match node with
  | mkFileNode i n p t cs f u d =>
      step i n p t cs f u d
        ((fix all (l : list FileNode) : Forall P l :=
            match l with
            | [] => Forall_nil P
            | c :: l' => Forall_cons c (FileNode_tree_ind c) (all l')
            end) cs)
  end.
End FileNode_induction.

Section SerializedNode_induction.
Variable P : SerializedNode -> Prop.
Hypothesis step : forall i n p t cs th d,
    Forall P cs -> P (mkSerializedNode i n p t cs th d).

Fixpoint SerializedNode_tree_ind (node : SerializedNode) : P node :=
  match node with
  | mkSerializedNode i n p t cs th d =>
      step i n p t cs th d
        ((fix all (l : list SerializedNode) : Forall P l :=
            match l with
            | [] => Forall_nil P
            | c :: l' => Forall_cons c (SerializedNode_tree_ind c) (all l')
            end) cs)
  end.
End SerializedNode_induction.

(** The nodes of a tree in depth-first order, a node before its children. *)
Fixpoint nodes (node : FileNode) : list FileNode :=
  node :: flat_map nodes (children node).

(** [currentNode.children.push(child)] *)
Definition push_child (node child : FileNode) : FileNode :=
  mkFileNode (id node) (name node) (path node) (type node)
             (children node ++ [child])
             (node_file node) (url node) (isDeleted node).

Definition set_children (node : FileNode) (cs : list FileNode) : FileNode :=
  mkFileNode (id node) (name node) (path node) (type node) cs
             (node_file node) (url node) (isDeleted node).

(* ================================================================== *)
(** * Ingestion Builder ([parseFilesToTree]) *)
(* ================================================================== *)

Module Ingestion.

(** The literal the function starts from. *)
Definition root : FileNode :=
  mkFileNode "root" "Root" "" folder [] None None None.

(** [child => child.name === part && child.type === 'folder'] *)
Definition isFolderNamed (part : string) (child : FileNode) : bool :=
  String.eqb (name child) part && NodeType_eqb (type child) folder.

(** The [fileNode] literal of the last path segment. *)
Definition fileNode (currentNode : FileNode) (part : string) (f : File)
  : FileNode :=
  mkFileNode (path currentNode ++ "/" ++ part) part (webkitRelativePath f)
             file [] (Some f) (Some (UrlOfFile f)) (Some false).

(** The [folderNode] literal of a segment met for the first time. *)
Definition folderNode (currentNode : FileNode) (part : string) : FileNode :=
  mkFileNode (path currentNode ++ "/" ++ part) part
             (if JsString.truthy (path currentNode)
              then path currentNode ++ "/" ++ part else part)
             folder [] None None None.

(** The code keeps a cursor into the tree and mutates the node under it.
    Here the same walk rebuilds the spine it went down: [descend] replaces
    the first child that [Array.prototype.find] would return by what the
    rest of the walk makes of it, and reports the file nodes the rest of
    the walk pushed onto [allImages]. *)
Fixpoint descend (found : FileNode -> bool)
         (rest : FileNode -> FileNode * list FileNode)
         (cs : list FileNode) : option (list FileNode * list FileNode) :=
  match cs with
  | [] => None
  | c :: cs' =>
      if found c then
        let (c', pushed) := rest c in Some (c' :: cs', pushed)
      else
        match descend found rest cs' with
        | Some (cs'', pushed) => Some (c :: cs'', pushed)
        | None => None
        end
  end.

(** [pathParts.forEach((part, index) => ...)] from [currentNode] on:
    the node as the walk leaves it, and what it pushed on [allImages]. *)
Fixpoint walk (f : File) (pathParts : list string) (currentNode : FileNode)
  : FileNode * list FileNode :=
  match pathParts with
  | [] => (currentNode, [])
  | [part] =>
      (* index === pathParts.length - 1 *)
      let fn := fileNode currentNode part f in
      (push_child currentNode fn, [fn])
  | part :: (_ :: _) as rest =>
      match descend (isFolderNamed part) (walk f rest)
                    (children currentNode) with
      | Some (cs, pushed) => (set_children currentNode cs, pushed)
      | None =>
          let (sub, pushed) := walk f rest (folderNode currentNode part) in
          (push_child currentNode sub, pushed)
      end
  end.

(** [webkitRelativePath ? webkitRelativePath.split('/') : [file.name]] *)
Definition pathParts (f : File) : list string :=
  if JsString.truthy (webkitRelativePath f)
  then JsString.split "/" (webkitRelativePath f)
  else [file_name f].

(** The two early [return]s of the loop body. *)
Definition skipped (f : File) : bool :=
  JsString.startsWith (file_name f) "."
  || negb (JsString.startsWith (file_type f) "image/").

(** One turn of [Array.from(files).forEach]. *)
Definition ingest (st : FileNode * list FileNode) (f : File)
  : FileNode * list FileNode :=
  if skipped f then st
  else let (root', pushed) := walk f (pathParts f) (fst st) in
       (root', snd st ++ pushed).

(** [parseFilesToTree(files)]: the pair [{ root, allImages }]. *)
Definition parseFilesToTree (files : list File) : FileNode * list FileNode :=
  fold_left ingest files (root, []).

End Ingestion.

(* ================================================================== *)
(** * JSON documents *)
(* ================================================================== *)

Module Json.

(** A JSON document as the value its text denotes; the members of an
    object are kept in the order they are written. *)
Inductive value : Type :=
| JNull
| JBool (b : bool)
| JNumber (q : Q)
| JString (s : string)
| JArray (items : list value)
| JObject (members : list (string * value)).

(** The value of the member [key] of an object, as a parser that keeps the
    last of several members of one name, which is what [JSON.parse]
    does, sees it. *)
Fixpoint member (key : string) (members : list (string * value))
  : option value :=
  match members with
  | [] => None
  | (k, v) :: members' =>
      match member key members' with
      | Some later => Some later
      | None => if String.eqb k key then Some v else None
      end
  end.

(** Member [key] of a document that is an object. *)
Definition field (doc : value) (key : string) : option value :=
  match doc with
  | JObject members => member key members
  | _ => None
  end.

(** A member that [JSON.stringify] writes only when the property is not
    [undefined]. *)
Definition optional {A} (key : string) (inj : A -> value) (v : option A)
  : list (string * value) :=
  match v with
  | Some a => [(key, inj a)]
  | None => []
  end.

Definition of_NodeType (t : NodeType) : value :=
  match t with
  | file => JString "file"
  | folder => JString "folder"
  end.

(** [JSON.stringify(serializedRoot)], as the document written.  The
    properties come in creation order: the six of the literal in
    [serializeTree], then [thumbnailData]; those that are [undefined] are
    left out. *)
Fixpoint JSON_stringify (s : SerializedNode) : value :=
  JObject
    ([("id", JString (s_id s));
      ("name", JString (s_name s));
      ("path", JString (s_path s));
      ("type", of_NodeType (s_type s));
      ("children", JArray (map JSON_stringify (s_children s)))]
     ++ optional "isDeleted" JBool (s_isDeleted s)
     ++ optional "thumbnailData" JString (thumbnailData s)).

End Json.

(* ================================================================== *)
(** * Completions, the browser, and JavaScript numbers *)
(* ================================================================== *)

(** What a JavaScript error is, as far as the code tells errors apart: it
    never does, every [catch] takes them all. *)
Inductive Exn : Type :=
| TypeError
| SyntaxError
| InvalidCharacterError
| NotReadableError.

(** The outcome of a call that may throw, and of a promise once settled:
    [await] turns a rejection into a throw at the waiting site. *)
Inductive Completion (A : Type) : Type :=
| Returns (a : A)
| Throws (e : Exn).
Arguments Returns {A} a.
Arguments Throws {A} e.

(** How [FileReader.readAsDataURL] ends for a file: the call itself raises
    (the executor of the promise throws, so the promise rejects), the reader
    fires [onerror], or it fires [onload] with the data URL. *)
Inductive ReadOutcome : Type :=
| ReaderThrows (e : Exn)
| ReaderError
| ReaderLoaded (dataURL : string).

(** The browser services the codec calls.  They are the environment of the
    program: every theorem below holds for each browser, and examples pick
    one. *)
Record Browser : Type := mkBrowser {
  (** [reader.readAsDataURL(file)] *)
  readAsDataURL : File -> ReadOutcome;
  (** [img.src = dataURL]: [onerror], or [onload] with [img.width] and
      [img.height], which are unsigned 32-bit integers *)
  decodeImage : string -> option (Z * Z);
  (** whether [canvas.getContext('2d')] of a canvas of that size is non-null *)
  getContext2d : Z -> Z -> bool;
  (** [ctx.drawImage(img, 0, 0, width, height)] followed by
      [canvas.toDataURL('image/jpeg', 0.85)] *)
  toDataURL : string -> Z -> Z -> string;
  (** [atob(s)]; [None] when it throws *)
  atob : string -> option string;
  (** [JSON.parse(text)]; [None] when it throws *)
  JSON_parse : string -> option Json.value
}.

(** JavaScript numbers are IEEE 754 doubles.  A finite double is a
    rational [m * 2^e] with a significand [m] of 53 bits, and every
    arithmetic operation returns the double nearest to the exact result,
    the one with the even significand when two are equally near.  The
    exponent is taken as unbounded: overflow and underflow, which start at
    [2^1024] and below [2^-1022], are out of reach of the sizes of images
    and the counts of files computed here. *)
Module JsNumber.

(** [2^k] for an integer [k] of either sign. *)
Definition pow2 (k : Z) : Q := Qpower (2 # 1) k.

(** The binary exponent of a positive rational: the [k] with
    [2^k <= x < 2^(k+1)]. *)
Definition exponent (x : Q) : Z :=
  let k := (Z.log2 (Qnum x) - Z.log2 (Zpos (Qden x)))%Z in
  if Qle_bool (pow2 k) x then k else (k - 1)%Z.

(** An integer nearest to [y], the even one of the two at a half. *)
Definition nearest_even (y : Q) : Z :=
  let f := Qfloor y in
  match Qcompare (y - inject_Z f) (1 # 2) with
  | Lt => f
  | Gt => (f + 1)%Z
  | Eq => if Z.even f then f else (f + 1)%Z
  end.

(** The 53-bit significand of the double nearest to a positive [x]. *)
Definition significand (x : Q) : Z :=
  nearest_even (x / pow2 (exponent x - 52))%Q.

(** The double nearest to [x]. *)
Definition fl (x : Q) : Q :=
  match Qcompare x 0 with
  | Eq => 0%Q
  | Gt => (inject_Z (significand x) * pow2 (exponent x - 52))%Q
  | Lt => (- (inject_Z (significand (- x)) * pow2 (exponent (- x) - 52)))%Q
  end.

(** [a / b] and [a * b] on doubles. *)
Definition div (a b : Q) : Q := fl (a / b)%Q.
Definition mul (a b : Q) : Q := fl (a * b)%Q.

(** [Math.round(x)]: the integer nearest to [x], the upper one at a half. *)
Definition Math_round (x : Q) : Z := Qfloor (x + (1 # 2))%Q.

(** The relative error of one operation: [2^-53]. *)
Definition ulp : Q := 1 # 9007199254740992.

End JsNumber.

(* ================================================================== *)
(** * Image Transcoder ([processImageForExport]) *)
(* ================================================================== *)

Module Transcoder.

Definition SHORT_EDGE_TARGET : Z := 1024.

(** The body of [img.onload] up to the creation of the canvas: the canvas
    size for an image of [img.width] by [img.height]. *)
Definition canvasSize (img_width img_height : Z) : Z * Z :=
  let shortEdge := Z.min img_width img_height in
  if (shortEdge >? SHORT_EDGE_TARGET)%Z then
    let scale : Q :=
      JsNumber.div (inject_Z SHORT_EDGE_TARGET) (inject_Z shortEdge) in
    (JsNumber.Math_round (JsNumber.mul (inject_Z img_width) scale),
     JsNumber.Math_round (JsNumber.mul (inject_Z img_height) scale))
  else (img_width, img_height).

(** [processImageForExport(file)], as the promise settles. *)
Definition processImageForExport (B : Browser) (f : File)
  : Completion string :=
  match readAsDataURL B f with
  | ReaderThrows e => Throws e
  | ReaderError => Returns ""
  | ReaderLoaded src =>
      match decodeImage B src with
      | None => Returns ""
      | Some (img_width, img_height) =>
          let (width, height) := canvasSize img_width img_height in
          if getContext2d B width height
          then Returns (toDataURL B src width height)
          else Returns ""
      end
  end.

(** The factor [SHORT_EDGE_TARGET / shortEdge] on its own. *)
Definition scale (shortEdge : Z) : Q :=
  JsNumber.div (inject_Z SHORT_EDGE_TARGET) (inject_Z shortEdge).

End Transcoder.

(* ================================================================== *)
(** * Snapshot Serializer ([serializeTree]) *)
(* ================================================================== *)

(** What an observer of a serialization sees, in the order it happens:
    a call of [processImageForExport] starts a transcode, the [await] on
    its promise resumes with the result or the failure, the callback is
    called. *)
Inductive Event : Type :=
| TranscodeStarted (f : File)
| TranscodeSettled (f : File) (r : Completion string)
| ProgressReported.

Module Async.

(** The promise a call of [processImageForExport] returns: the file it
    works on and how it settles. *)
Record Promise : Type := mkPromise {
  subject : File;
  outcome : Completion string
}.

Section WithCaller.
(** The state the progress callback closes over. *)
Context {S : Type}.

Record World : Type := mkWorld {
  events : list Event;
  caller : S
}.

(** An [async] computation: runs from a world, ends in a completion. *)
Definition t (A : Type) : Type := World -> Completion A * World.

Definition ret {A} (a : A) : t A := fun w => (Returns a, w).

Definition bind {A B} (m : t A) (k : A -> t B) : t B :=
  fun w => match m w with
           | (Returns a, w') => k a w'
           | (Throws e, w') => (Throws e, w')
           end.

Definition emit (e : Event) : t unit :=
  fun w => (Returns tt, mkWorld (events w ++ [e]) (caller w)).

(** The call [processImageForExport(f)] of a transcode that will settle as
    [r]: the executor of the promise runs at once and starts the reader,
    and the caller goes on with the pending promise in hand. *)
Definition start (f : File) (r : Completion string) : t Promise :=
  fun w => (Returns (mkPromise f r),
            mkWorld (events w ++ [TranscodeStarted f]) (caller w)).

(** [await p]: the caller is suspended until [p] has settled and resumes
    with its result; a rejection is thrown at the waiting site. *)
Definition await (p : Promise) : t string :=
  fun w => (outcome p,
            mkWorld (events w ++ [TranscodeSettled (subject p) (outcome p)])
                    (caller w)).

(** [try { body } catch (e) { handler }] *)
Definition try_catch {A} (body : t A) (handler : Exn -> t A) : t A :=
  fun w => match body w with
           | (Returns a, w') => (Returns a, w')
           | (Throws e, w') => handler e w'
           end.

(** Calling a callback that updates the state it closes over and returns,
    as the one the share modal passes does. *)
Definition call (cb : S -> S) : t unit :=
  fun w => (Returns tt, mkWorld (events w) (cb (caller w))).

End WithCaller.
Arguments World S : clear implicits.
Arguments t S A : clear implicits.

End Async.

Declare Scope async_scope.
Delimit Scope async_scope with async.
Notation "x <- m ;; k" := (Async.bind m (fun x => k))
  (at level 100, m at next level, right associativity) : async_scope.
Notation "m ;;; k" := (Async.bind m (fun _ => k))
  (at level 100, right associativity) : async_scope.

Module Serializer.

Section WithCaller.
Context {S : Type}.
Variable B : Browser.
(** [onProgress?: () => void] *)
Variable onProgress : option (S -> S).

Local Open Scope async_scope.

(** [serialized.thumbnailData = v] *)
Definition set_thumbnailData (s : SerializedNode) (v : string)
  : SerializedNode :=
  mkSerializedNode (s_id s) (s_name s) (s_path s) (s_type s)
                   (s_children s) (Some v) (s_isDeleted s).

(** The state of [serialized.children] after the pushes of the loop. *)
Definition set_s_children (s : SerializedNode) (cs : list SerializedNode)
  : SerializedNode :=
  mkSerializedNode (s_id s) (s_name s) (s_path s) (s_type s)
                   cs (thumbnailData s) (s_isDeleted s).

(** [await processImageForExport(file)]: the call, then the wait on the
    promise it returned. *)
Definition transcode (f : File) : Async.t S string :=
  p <- Async.start f (Transcoder.processImageForExport B f) ;;
  Async.await p.

(** The first [if] of [serializeTree]. *)
Definition transcodeStep (node : FileNode) (serialized : SerializedNode)
  : Async.t S SerializedNode :=
  match type node, node_file node with
  | file, Some f =>
      s <- Async.try_catch
             (v <- transcode f ;; Async.ret (set_thumbnailData serialized v))
             (fun _ => Async.ret serialized) ;;
      match onProgress with
      | Some cb => Async.call cb ;;; Async.emit ProgressReported
      | None => Async.ret tt
      end ;;;
      Async.ret s
  | _, _ => Async.ret serialized
  end.

(** [serializeTree(node, onProgress)].  In the loop each call
    [serializeTree(child, onProgress)] is awaited where it is made, so the
    loop goes on when the callee has returned. *)
Fixpoint serializeTree (node : FileNode) : Async.t S SerializedNode :=
  let serialized :=
    mkSerializedNode (id node) (name node) (path node) (type node)
                     [] None (isDeleted node) in
  serialized <- transcodeStep node serialized ;;
  cs <- (fix for_of (cs : list FileNode) (pushed : list SerializedNode)
           : Async.t S (list SerializedNode) :=
           match cs with
           | [] => Async.ret pushed
           | child :: cs' =>
               c <- serializeTree child ;;
               for_of cs' (pushed ++ [c])
           end) (children node) (s_children serialized) ;;
  Async.ret (set_s_children serialized cs).

End WithCaller.

End Serializer.

(* ================================================================== *)
(** * The export trigger ([handleGenerateSnapshot] of the share modal) *)
(* ================================================================== *)

Module ShareModal.

Inductive Step : Type := idle | processing | ready.

(** The state of the modal, with the local [processedCount] the progress
    callback closes over.  [progress] is [None] when the percentage is not
    a finite number ([stats.files] is zero). *)
Record State : Type := mkState {
  step : Step;
  progress : option Z;
  downloadUrl : option Json.value;
  alerts : list string;
  processedCount : Z
}.

(** [Math.round((processedCount / totalFiles) * 100)] *)
Definition percentage (processed totalFiles : Z) : option Z :=
  if (totalFiles =? 0)%Z then None
  else Some (JsNumber.Math_round
               (JsNumber.mul
                  (JsNumber.div (inject_Z processed) (inject_Z totalFiles))
                  100%Q)).

(** The arrow function handed to [serializeTree]:
    [processedCount++; setProgress(...)]. *)
Definition onProgress (totalFiles : Z) (st : State) : State :=
  let processedCount' := (processedCount st + 1)%Z in
  mkState (step st) (percentage processedCount' totalFiles)
          (downloadUrl st) (alerts st) processedCount'.

Definition export_failed : string :=
  "Export failed due to memory limits or file issues. Try exporting fewer folders.".

(** [handleGenerateSnapshot], once its timer has fired: the state of the
    modal afterwards and what happened on the way. *)
Definition handleGenerateSnapshot (B : Browser) (rootNode : option FileNode)
           (totalFiles : Z) (st : State) : State * list Event :=
  match rootNode with
  | None => (st, [])
  | Some root =>
      let st0 := mkState processing (progress st) (downloadUrl st)
                         (alerts st) 0 in
      match Serializer.serializeTree B (Some (onProgress totalFiles)) root
              (Async.mkWorld [] st0) with
      | (Returns serializedRoot, w) =>
          let st1 := Async.caller w in
          (mkState ready (progress st1)
                   (Some (Json.JSON_stringify serializedRoot))
                   (alerts st1) (processedCount st1),
           Async.events w)
      | (Throws _, w) =>
          let st1 := Async.caller w in
          (mkState idle (progress st1) (downloadUrl st1)
                   (alerts st1 ++ [export_failed]) (processedCount st1),
           Async.events w)
      end
  end.

End ShareModal.

(* ================================================================== *)
(** * Snapshot Deserializer ([base64ToBlob], [deserializeTree]) *)
(* ================================================================== *)

Module Sync.

(** Sequencing of calls that may throw. *)
Definition bind {A B} (m : Completion A) (k : A -> Completion B)
  : Completion B :=
  match m with
  | Returns a => k a
  | Throws e => Throws e
  end.

End Sync.

Declare Scope sync_scope.
Delimit Scope sync_scope with sync.
Notation "x <- m ;; k" := (Sync.bind m (fun x => k))
  (at level 100, m at next level, right associativity) : sync_scope.
Notation "' pat <- m ;; k" := (Sync.bind m (fun x => match x with pat => k end))
  (at level 100, pat pattern, m at next level, right associativity)
  : sync_scope.

Module Deserializer.

Local Open Scope sync_scope.

(** The characters the [.] of a regular expression does not match, among
    those a one-byte character can be. *)
Definition isLineTerminator (c : ascii) : bool :=
  Ascii.eqb c "010" || Ascii.eqb c "013".

(** [(.*?);] from the start of [s]: the text before the first [;], unless a
    line end comes first. *)
Fixpoint upToSemicolon (s : string) : option string :=
  match s with
  | EmptyString => None
  | String c rest =>
      if Ascii.eqb c ";" then Some EmptyString
      else if isLineTerminator c then None
      else option_map (String c) (upToSemicolon rest)
  end.

(** [s.match(/:(.*?);/)?.[1]]: the capture of the leftmost match. *)
Fixpoint matchMime (s : string) : option string :=
  match s with
  | EmptyString => None
  | String c rest =>
      if Ascii.eqb c ":" then
        match upToSemicolon rest with
        | Some mime => Some mime
        | None => matchMime rest
        end
      else matchMime rest
  end.

(** [base64ToBlob(base64)].  A payload without a comma leaves [arr[1]]
    undefined, which [atob] receives as the text ["undefined"]. *)
Definition base64ToBlob (B : Browser) (base64 : string) : Completion Blob :=
  let arr := JsString.split "," base64 in
  let mime := matchMime (nth 0 arr "") in
  match atob B (nth 1 arr "undefined") with
  | None => Throws InvalidCharacterError
  | Some bstr => Returns (new_Blob bstr mime)
  end.

(** [node.isDeleted || false] *)
Definition orFalse (d : option bool) : bool :=
  match d with
  | Some b => b
  | None => false
  end.

(** [node.type === 'file' && node.thumbnailData] *)
Definition hasThumbnail (node : SerializedNode) : option string :=
  match s_type node, thumbnailData node with
  | file, Some data => if JsString.truthy data then Some data else None
  | _, _ => None
  end.

(** [deserializeTree(node, allImagesAccumulator, parent)]: the restored
    node and the nodes pushed onto the accumulator, in the order of the
    pushes.  The accumulator holds the node object itself, so what it
    shows in the end is the node with its children attached.  The [File]
    is given the [type] of the blob, which is in the form the constructor
    of [File] keeps as it is. *)
Fixpoint deserializeTree (B : Browser) (node : SerializedNode)
  : Completion (FileNode * list FileNode) :=
  let restoredNode :=
    mkFileNode (s_id node) (s_name node) (s_path node) (s_type node)
               [] None None (Some (orFalse (s_isDeleted node))) in
  '(restoredNode, viewable) <-
     match hasThumbnail node with
     | Some data =>
         blob <- base64ToBlob B data ;;
         Returns
           (mkFileNode (id restoredNode) (name restoredNode)
                       (path restoredNode) (type restoredNode)
                       (children restoredNode)
                       (Some (mkFile (s_name node) "" (blob_type blob)
                                     (blob_bytes blob)))
                       (Some (UrlOfBlob blob))
                       (isDeleted restoredNode),
            true)
     | None => Returns (restoredNode, false)
     end ;;
  '(cs, pushedBelow) <-
     (fix forEach (cs : list SerializedNode)
          (restored pushed : list FileNode)
        : Completion (list FileNode * list FileNode) :=
        match cs with
        | [] => Returns (restored, pushed)
        | child :: cs' =>
            '(c, pushedByChild) <- deserializeTree B child ;;
            forEach cs' (restored ++ [c]) (pushed ++ pushedByChild)
        end) (s_children node) (children restoredNode) [] ;;
  let restoredNode := set_children restoredNode cs in
  Returns (restoredNode,
           (if viewable : bool then [restoredNode] else []) ++ pushedBelow).

End Deserializer.

(* ================================================================== *)
(** * The import trigger ([handleImport] of the application shell) *)
(* ================================================================== *)

(** [handleImport] hands [deserializeTree] whatever [JSON.parse] returned;
    the annotation [SerializedNode] on it is not checked when the program
    runs.  This module is [deserializeTree] as it runs on an arbitrary
    parsed document. *)
Module Importer.

Import Json.
Local Open Scope sync_scope.

(** A value the code reads out of the document: a JSON value, or
    [undefined], which is [None]. *)
Definition truthy (v : option value) : bool :=
  match v with
  | None | Some JNull => false
  | Some (JBool b) => b
  | Some (JNumber q) => negb (Qeq_bool q 0)
  | Some (JString s) => JsString.truthy s
  | Some (JArray _) | Some (JObject _) => true
  end.

(** [node.key], for the keys [deserializeTree] reads ([id], [name],
    [path], [type], [isDeleted], [thumbnailData], [children]): none of
    them is a property that strings, numbers, booleans or arrays have of
    their own. *)
Definition get (node : value) (key : string) : Completion (option value) :=
  match node with
  | JNull => Throws TypeError
  | JObject members => Returns (member key members)
  | _ => Returns None
  end.

(** The [File] made by [new File([blob], node.name, { type: blob.type })];
    the constructor turns whatever [node.name] is into text. *)
Record RestoredFile : Type := mkRestoredFile {
  rf_blob : Blob;
  rf_name : option value
}.

(** The object [deserializeTree] builds, with whatever the document held
    in its members. *)
Inductive Restored : Type := mkRestored {
  r_id : option value;
  r_name : option value;
  r_path : option value;
  r_type : option value;
  r_children : list Restored;
  r_file : option RestoredFile;
  r_url : option ObjectURL;
  r_isDeleted : value
}.

(** [v === 'file'], [v === 'folder'] *)
Definition is_string (v : option value) (s : string) : bool :=
  match v with
  | Some (JString s') => String.eqb s' s
  | _ => false
  end.

(** [v || false] *)
Definition orFalse (v : option value) : value :=
  match v with
  | Some v' => if truthy v then v' else JBool false
  | None => JBool false
  end.

Definition set_r_children (r : Restored) (cs : list Restored) : Restored :=
  mkRestored (r_id r) (r_name r) (r_path r) (r_type r) cs
             (r_file r) (r_url r) (r_isDeleted r).

(** [deserializeTree(node, allImagesAccumulator, parent)] on a parsed
    document.  [node.children] is looked up by a walk over the members
    that the recursion can follow; [ImporterFacts.deserializeTree_reads]
    shows it is the read [get node "children"]. *)
Fixpoint deserializeTree (B : Browser) (node : value)
  : Completion (Restored * list Restored) :=
  id_ <- get node "id" ;;
  name_ <- get node "name" ;;
  path_ <- get node "path" ;;
  type_ <- get node "type" ;;
  isDeleted_ <- get node "isDeleted" ;;
  let restoredNode :=
    mkRestored id_ name_ path_ type_ [] None None (orFalse isDeleted_) in
  thumbnailData_ <- get node "thumbnailData" ;;
  '(restoredNode, viewable) <-
     (if is_string type_ "file" && truthy thumbnailData_ then
        match thumbnailData_ with
        | Some (JString data) =>
            blob <- Deserializer.base64ToBlob B data ;;
            Returns
              (mkRestored id_ name_ path_ type_ []
                          (Some (mkRestoredFile blob name_))
                          (Some (UrlOfBlob blob)) (orFalse isDeleted_),
               true)
        | _ => Throws TypeError
        end
      else Returns (restoredNode, false)) ;;
  '(cs, pushedBelow) <-
     match
       match node with
       | JObject members =>
           (fix last (ms : list (string * value))
              : option (Completion (list Restored * list Restored)) :=
              match ms with
              | [] => None
              | (k, v) :: ms' =>
                  match last ms' with
                  | Some later => Some later
                  | None =>
                      if String.eqb k "children" then
                        Some
                          match v with
                          | JArray items =>
                              (fix forEach (cs : list value)
                                   (restored pushed : list Restored)
                                 : Completion (list Restored * list Restored) :=
                                 match cs with
                                 | [] => Returns (restored, pushed)
                                 | child :: cs' =>
                                     '(c, pushedByChild) <-
                                        deserializeTree B child ;;
                                     forEach cs' (restored ++ [c])
                                             (pushed ++ pushedByChild)
                                 end) items [] []
                          | other =>
                              if truthy (Some other) then Throws TypeError
                              else Returns ([], [])
                          end
                      else None
                  end
              end) members
       | _ => None
       end
     with
     | Some loop => loop
     | None => Returns ([], [])
     end ;;
  let restoredNode := set_r_children restoredNode cs in
  Returns (restoredNode,
           (if viewable : bool then [restoredNode] else []) ++ pushedBelow).

(** [countFolders] *)
Fixpoint countFolders (node : Restored) : Z :=
  if is_string (r_type node) "folder" then
    (1 + fold_left (fun n c => n + countFolders c) (r_children node) 0)%Z
  else 0%Z.

(** [interface GalleryStats] *)
Record GalleryStats : Type := mkGalleryStats {
  totalFiles : Z;
  totalFolders : Z;
  totalSize : Z
}.

(** The part of the state of [App] that an import touches. *)
Record AppState : Type := mkAppState {
  rootNode : option Restored;
  currentNode : option Restored;
  allImages : list Restored;
  stats : GalleryStats;
  isImporting : bool;
  alerts : list string
}.

(** [reader.onload] of [handleImport], for a file whose text is [json]. *)
Definition handleImport (B : Browser) (json : string) (st : AppState)
  : AppState :=
  match
    match JSON_parse B json with
    | None => Throws SyntaxError
    | Some serializedRoot => deserializeTree B serializedRoot
    end
  with
  | Returns (restoredRoot, allImagesList) =>
      mkAppState (Some restoredRoot) (Some restoredRoot) allImagesList
                 (mkGalleryStats (Z.of_nat (List.length allImagesList))
                                 (countFolders restoredRoot - 1) 0)
                 false (alerts st)
  | Throws _ =>
      mkAppState (rootNode st) (currentNode st) (allImages st) (stats st)
                 false (alerts st ++ ["Invalid snapshot file."])
  end.

End Importer.

(* ================================================================== *)
(** * The properties, as predicates on the model *)
(* ================================================================== *)

(** The names of the folder-type entries of a children sequence. *)
Definition folderNames (cs : list FileNode) : list string :=
  map name (filter (fun c => NodeType_eqb (type c) folder) cs).

(** No children sequence anywhere in the tree holds two folder-type entries
    of one name. *)
Inductive FoldersDistinct : FileNode -> Prop :=
| FoldersDistinct_node node :
    NoDup (folderNames (children node)) ->
    Forall FoldersDistinct (children node) ->
    FoldersDistinct node.

(** The file-type nodes of a tree, in depth-first order. *)
Definition fileNodes (node : FileNode) : list FileNode :=
  filter (fun n => NodeType_eqb (type n) file) (nodes node).

(** [n] is [x] rounded as [Math.round] does: the integer nearest to [x],
    the upper one when [x] lies halfway between two. *)
Definition rounds_half_up (x : Q) (n : Z) : Prop :=
  (x - (1 # 2) < inject_Z n /\ inject_Z n <= x + (1 # 2))%Q.

(** [n] is an integer nearest to [x]: no integer is nearer, and halfway
    between two either is. *)
Definition nearest_integer (x : Q) (n : Z) : Prop :=
  (x - (1 # 2) <= inject_Z n /\ inject_Z n <= x + (1 # 2))%Q.

(** A width or height a browser reports for an image. *)
Definition dimension (n : Z) : Prop := (0 <= n < 2 ^ 32)%Z.

(** The file a node is transcoded from: [node.type === 'file' && node.file]. *)
Definition transcodable (node : FileNode) : option File :=
  match type node, node_file node with
  | file, Some f => Some f
  | _, _ => None
  end.

(** The files of the nodes that carry one, in depth-first order. *)
Definition exported (node : FileNode) : list File :=
  flat_map (fun n => match transcodable n with Some f => [f] | None => [] end)
           (nodes node).

(** The payload a node ends up with: that of its own file, when the node
    has one and the transcoder did not throw. *)
Definition payload (B : Browser) (node : FileNode) : option string :=
  match transcodable node with
  | Some f =>
      match Transcoder.processImageForExport B f with
      | Returns v => Some v
      | Throws _ => None
      end
  | None => None
  end.

(** The serialized form of a tree, node for node. *)
Fixpoint snapshot (B : Browser) (node : FileNode) : SerializedNode :=
  mkSerializedNode (id node) (name node) (path node) (type node)
                   (map (snapshot B) (children node))
                   (payload B node) (isDeleted node).

(** The nodes of a serialized tree in depth-first order. *)
Fixpoint s_nodes (node : SerializedNode) : list SerializedNode :=
  node :: flat_map s_nodes (s_children node).

(** What is observed while one file is handled. *)
Definition observed {S} (B : Browser) (onProgress : option (S -> S)) (f : File)
  : list Event :=
  [TranscodeStarted f;
   TranscodeSettled f (Transcoder.processImageForExport B f)]
  ++ match onProgress with Some _ => [ProgressReported] | None => [] end.

(** The state of the caller after [n] calls of the callback. *)
Definition called {S} (onProgress : option (S -> S)) (n : nat) (s : S) : S :=
  match onProgress with
  | Some cb => Nat.iter n cb s
  | None => s
  end.

(** The loop over the children in [serializeTree], on its own. *)
Definition serializeChildren {S} (B : Browser) (onProgress : option (S -> S))
  : list FileNode -> list SerializedNode -> Async.t S (list SerializedNode) :=
  fix for_of (cs : list FileNode) (pushed : list SerializedNode) :=
    match cs with
    | [] => Async.ret pushed
    | child :: cs' =>
        Async.bind (Serializer.serializeTree B onProgress child)
                   (fun c => for_of cs' (pushed ++ [c]))
    end.

(** The ways a transcode fails without throwing: the file cannot be read,
    its bytes are not an image, the canvas has no rendering context. *)
Inductive TranscodeFailure (B : Browser) (f : File) : Prop :=
| read_error :
    readAsDataURL B f = ReaderError -> TranscodeFailure B f
| decode_error src :
    readAsDataURL B f = ReaderLoaded src ->
    decodeImage B src = None -> TranscodeFailure B f
| no_context src w h :
    readAsDataURL B f = ReaderLoaded src ->
    decodeImage B src = Some (w, h) ->
    getContext2d B (fst (Transcoder.canvasSize w h))
                 (snd (Transcoder.canvasSize w h)) = false ->
    TranscodeFailure B f.

(** What [canvas.toDataURL] returns when the canvas cannot be encoded. *)
Definition nothing_encoded : string := "data:,".

(** The remaining way a transcode fails: the image was read, decoded and
    drawn, and the encoder could not encode the canvas. *)
Inductive EncodeFailure (B : Browser) (f : File) : Prop :=
| encode_error src w h :
    readAsDataURL B f = ReaderLoaded src ->
    decodeImage B src = Some (w, h) ->
    getContext2d B (fst (Transcoder.canvasSize w h))
                 (snd (Transcoder.canvasSize w h)) = true ->
    toDataURL B src (fst (Transcoder.canvasSize w h))
              (snd (Transcoder.canvasSize w h)) = nothing_encoded ->
    EncodeFailure B f.

(** The image was read, decoded and drawn, and [payload] is what the
    encoder wrote. *)
Inductive TranscodeSuccess (B : Browser) (f : File) (data : string) : Prop :=
| encoded src w h :
    readAsDataURL B f = ReaderLoaded src ->
    decodeImage B src = Some (w, h) ->
    getContext2d B (fst (Transcoder.canvasSize w h))
                 (snd (Transcoder.canvasSize w h)) = true ->
    data = toDataURL B src (fst (Transcoder.canvasSize w h))
                     (snd (Transcoder.canvasSize w h)) ->
    TranscodeSuccess B f data.

(** The number of transcodes started and not yet settled after [es], when
    [n] were before. *)
Fixpoint inFlight (n : nat) (es : list Event) : nat :=
  match es with
  | [] => n
  | TranscodeStarted _ :: es' => inFlight (S n) es'
  | TranscodeSettled _ _ :: es' => inFlight (Nat.pred n) es'
  | ProgressReported :: es' => inFlight n es'
  end.

(** The number of calls of the progress callback among [es]. *)
Definition progressCalls (es : list Event) : nat :=
  List.length
    (filter (fun e => match e with ProgressReported => true | _ => false end)
            es).

(** Every file-type node of the tree carries a file and an [isDeleted] of
    [false], as the [fileNode] literal of the builder has them. *)
Inductive Ingested : FileNode -> Prop :=
| Ingested_node node :
    (type node = file ->
     (exists f, node_file node = Some f) /\ isDeleted node = Some false) ->
    Forall Ingested (children node) ->
    Ingested node.

(** The scenarios the properties are tried on. *)
Module Scenario.

(** A browser for which [a.png] cannot be read and the bytes named
    [corrupt] are not an image; every other file is an image of 2000 by
    1500 whose canvas has a context and is encoded as a three-byte
    JPEG.  [atob] knows that one payload, [JSON.parse] the empty
    object. *)
Definition browser : Browser :=
  mkBrowser
    (fun f => if String.eqb (file_name f) "a.png" then ReaderError
              else ReaderLoaded (file_bytes f))
    (fun src => if String.eqb src "corrupt" then None
                else Some (2000, 1500)%Z)
    (fun _ _ => true)
    (fun _ _ _ => "data:image/jpeg;base64,QUJD")
    (fun s => if String.eqb s "QUJD" then Some "ABC" else None)
    (fun text => if String.eqb text "{}" then Some (Json.JObject [])
                 else None).

(** The same browser with an encoder that fails on every canvas. *)
Definition failing_encoder : Browser :=
  mkBrowser (readAsDataURL browser) (decodeImage browser)
            (getContext2d browser) (fun _ _ _ => nothing_encoded)
            (atob browser) (JSON_parse browser).

(** The entries of the concrete scenario of the specification. *)
Definition photos_a : File :=
  mkFile "a.png" "photos/a.png" "image/png" "bytes of a".
Definition photos_sub_b : File :=
  mkFile "b.png" "photos/sub/b.png" "image/png" "bytes of b".

(** The two entries of the folder de-duplication scenario. *)
Definition entry_A_x (bytes : string) : File :=
  mkFile "x.png" "A/x.png" "image/png" bytes.
Definition entry_A_y (bytes : string) : File :=
  mkFile "y.png" "A/y.png" "image/png" bytes.

(** An entry that is not an image, with a base name that is not hidden. *)
Definition entry_notes : File :=
  mkFile "notes.txt" "docs/notes.txt" "text/plain" "".

(** An image inside a hidden directory. *)
Definition entry_hidden_dir : File :=
  mkFile "c.png" ".thumbs/c.png" "image/png" "".

(** The state of the share modal when an export starts. *)
Definition exporting : ShareModal.State :=
  ShareModal.mkState ShareModal.processing (Some 0%Z) None [] 0.

End Scenario.

(** The serialized tree carries the [isDeleted] of the live tree, node for
    node. *)
Inductive FlagMirrored : FileNode -> SerializedNode -> Prop :=
| FlagMirrored_node node s :
    s_isDeleted s = isDeleted node ->
    Forall2 FlagMirrored (children node) (s_children s) ->
    FlagMirrored node s.

(** The document carries the [isDeleted] of the live tree where the live
    node has one, and no such member where it has none, node for node. *)
Inductive DocFlagMirrored : FileNode -> Json.value -> Prop :=
| DocFlagMirrored_node node doc items :
    Json.field doc "isDeleted" = option_map Json.JBool (isDeleted node) ->
    Json.field doc "children" = Some (Json.JArray items) ->
    Forall2 DocFlagMirrored (children node) items ->
    DocFlagMirrored node doc.

(** If every node of the document had an [isDeleted] member, folders
    too. *)
Inductive DocFlagPresent : Json.value -> Prop :=
| DocFlagPresent_node doc b items :
    Json.field doc "isDeleted" = Some (Json.JBool b) ->
    Json.field doc "children" = Some (Json.JArray items) ->
    Forall DocFlagPresent items ->
    DocFlagPresent doc.

(** [b] has the [id], [name], [path] and [type] of [a], node for node with
    the children in the same order; [flag] is what is asked of the two
    [isDeleted]. *)
Inductive Mirrors (flag : FileNode -> FileNode -> Prop)
  : FileNode -> FileNode -> Prop :=
| Mirrors_node a b :
    id b = id a -> name b = name a -> path b = path a -> type b = type a ->
    flag a b ->
    Forall2 (Mirrors flag) (children a) (children b) ->
    Mirrors flag a b.

(** The same [isDeleted] value. *)
Definition sameFlag (a b : FileNode) : Prop := isDeleted b = isDeleted a.

(** The [isDeleted] of [a] with [false] for none; the same value where [a]
    is a file node. *)
Definition restoredFlag (a b : FileNode) : Prop :=
  isDeleted b = Some (Deserializer.orFalse (isDeleted a)) /\
  (type a = file -> isDeleted b = isDeleted a).

(** Serializing a tree and deserializing the result. *)
Definition roundTrip {S} (B : Browser) (onProgress : option (S -> S))
           (node : FileNode) (w : Async.World S)
  : Completion (FileNode * list FileNode) :=
  Sync.bind (fst (Serializer.serializeTree B onProgress node w))
            (Deserializer.deserializeTree B).

(** [atob] decodes what the canvas encoder of the same browser writes
    after the comma of its data URL. *)
Definition DecodesOwnPayloads (B : Browser) : Prop :=
  forall src width height,
    atob B (nth 1 (JsString.split "," (toDataURL B src width height))
                "undefined") <> None.

(** The loop over the children in [deserializeTree], on its own. *)
Definition deserializeChildren (B : Browser)
  : list SerializedNode -> list FileNode -> list FileNode ->
    Completion (list FileNode * list FileNode) :=
  fix forEach (cs : list SerializedNode) (restored pushed : list FileNode) :=
    match cs with
    | [] => Returns (restored, pushed)
    | child :: cs' =>
        Sync.bind (Deserializer.deserializeTree B child)
                  (fun x => match x with
                            | (c, pushedByChild) =>
                                forEach cs' (restored ++ [c])
                                        (pushed ++ pushedByChild)
                            end)
    end.

(** The state of [App] before anything was loaded, an import under way. *)
Definition importing : Importer.AppState :=
  Importer.mkAppState None None [] (Importer.mkGalleryStats 0 0 0) true [].

(** The import failed as a whole: one alert, and the tree, the current
    node, the flat list and the statistics left as they were. *)
Definition ImportRefused (before after : Importer.AppState) : Prop :=
  Importer.alerts after
  = Importer.alerts before ++ ["Invalid snapshot file."] /\
  Importer.rootNode after = Importer.rootNode before /\
  Importer.currentNode after = Importer.currentNode before /\
  Importer.allImages after = Importer.allImages before /\
  Importer.stats after = Importer.stats before.

(** The document has the members a [SerializedNode] must have, with values
    of the right kind, at every node. *)
Inductive WellShaped : Json.value -> Prop :=
| WellShaped_node doc i n p t items :
    Json.field doc "id" = Some (Json.JString i) ->
    Json.field doc "name" = Some (Json.JString n) ->
    Json.field doc "path" = Some (Json.JString p) ->
    Json.field doc "type" = Some (Json.of_NodeType t) ->
    Json.field doc "children" = Some (Json.JArray items) ->
    Forall WellShaped items ->
    WellShaped doc.

(** [Importer.deserializeTree] in the terms of the source text, and the
    restored nodes of [Deserializer.deserializeTree] as the values they are
    when the program runs. *)
Module ImporterView.
Import Json Importer.

(** The loop [node.children.forEach(...)] over an array, on its own. *)
Definition forEach (B : Browser)
  : list value -> list Restored -> list Restored ->
    Completion (list Restored * list Restored) :=
  fix forEach (cs : list value) (restored pushed : list Restored) :=
    match cs with
    | [] => Returns (restored, pushed)
    | child :: cs' =>
        Sync.bind (deserializeTree B child)
                  (fun x => match x with
                            | (c, pushedByChild) =>
                                forEach cs' (restored ++ [c])
                                        (pushed ++ pushedByChild)
                            end)
    end.

(** [if (node.children) { node.children.forEach(...) }] for what
    [node.children] was read as. *)
Definition children_loop (B : Browser) (v : option value)
  : Completion (list Restored * list Restored) :=
  match v with
  | Some (JArray items) => forEach B items [] []
  | other => if truthy other then Throws TypeError else Returns ([], [])
  end.

(** The [File] of a restored node, as [new File] left it. *)
Definition of_File (f : File) : RestoredFile :=
  mkRestoredFile (mkBlob (file_bytes f) (file_type f))
                 (Some (JString (file_name f))).

(** A node restored from a well-typed serialized node, as a value. *)
Fixpoint of_FileNode (node : FileNode) : Restored :=
  mkRestored (Some (JString (id node))) (Some (JString (name node)))
             (Some (JString (path node))) (Some (of_NodeType (type node)))
             (map of_FileNode (children node))
             (option_map of_File (node_file node))
             (url node)
             (JBool (Deserializer.orFalse (isDeleted node))).

Definition of_result (r : FileNode * list FileNode)
  : Restored * list Restored :=
  (of_FileNode (fst r), map of_FileNode (snd r)).

(** A completion of the typed deserializer, as the values it returns
    are when the program runs. *)
Definition lift (r : Completion (FileNode * list FileNode))
  : Completion (Restored * list Restored) :=
  match r with
  | Returns x => Returns (of_result x)
  | Throws e => Throws e
  end.

End ImporterView.

(* ================================================================== *)
(** * The application shell ([App]), the gallery and the sidebar *)
(* ================================================================== *)

Module App.

(** [file.size]: the number of bytes of the file. *)
Definition size (f : File) : Z := Z.of_nat (String.length (file_bytes f)).

(** [enum ViewMode] *)
Inductive ViewMode : Type := HIERARCHY | ALL_PHOTOS.

(** The local function [countFolders] of [handleUpload] and [handleImport],
    with the counter [folders] it increments passed along. *)
Fixpoint countFolders (node : FileNode) (folders : Z) : Z :=
  match type node with
  | folder =>
      fold_left (fun folders child => countFolders child folders)
                (children node) (folders + 1)%Z
  | file => folders
  end.

(** The part of the state of [App] that uploads and navigation touch. *)
Record State : Type := mkState {
  rootNode : option FileNode;
  currentNode : option FileNode;
  allImages : list FileNode;
  viewMode : ViewMode;
  lightboxNode : option FileNode;
  stats : Importer.GalleryStats
}.

(** [handleUpload], for the [FileList] of the input, [None] when the input
    has none. *)
Definition handleUpload (files : option (list File)) (st : State) : State :=
  match files with
  | None | Some [] => st
  | Some files =>
      let (root, images) := Ingestion.parseFilesToTree files in
      let folders := countFolders root 0 in
      let size := fold_left (fun size f => (size + App.size f)%Z) files 0%Z in
      mkState (Some root) (Some root) images (viewMode st) (lightboxNode st)
              (Importer.mkGalleryStats (Z.of_nat (List.length images))
                                       (folders - 1) size)
  end.

(** [node.isDeleted = !node.isDeleted] of [handleToggleDelete]. *)
Definition handleToggleDelete (node : FileNode) : FileNode :=
  mkFileNode (id node) (name node) (path node) (type node) (children node)
             (node_file node) (url node)
             (Some (negb (Deserializer.orFalse (isDeleted node)))).

(** The [useMemo] that computes [galleryNodes]. *)
Definition galleryNodes (st : State) : list FileNode :=
  match viewMode st with
  | ALL_PHOTOS => allImages st
  | HIERARCHY =>
      match currentNode st with
      | Some node => children node
      | None => []
      end
  end.

(** [n => n.type === 'file' && !n.isDeleted] *)
Definition shown (n : FileNode) : bool :=
  NodeType_eqb (type n) file && negb (Deserializer.orFalse (isDeleted n)).

(** [list.findIndex(n => n.id === id)]; [None] is the index [-1]. *)
Fixpoint findIndex (wanted : string) (l : list FileNode) : option nat :=
  match l with
  | [] => None
  | n :: l' =>
      if String.eqb (id n) wanted then Some 0
      else option_map S (findIndex wanted l')
  end.

(** [handleNextImage]: the node the lightbox shows afterwards. *)
Definition handleNextImage (galleryNodes : list FileNode)
           (lightboxNode : option FileNode) : option FileNode :=
  match lightboxNode with
  | None => None
  | Some current =>
      let currentList := filter shown galleryNodes in
      match findIndex (id current) currentList with
      | Some idx =>
          if (Z.of_nat idx <? Z.of_nat (List.length currentList) - 1)%Z
          then nth_error currentList (idx + 1)
          else Some current
      | None => Some current
      end
  end.

(** [handlePrevImage] *)
Definition handlePrevImage (galleryNodes : list FileNode)
           (lightboxNode : option FileNode) : option FileNode :=
  match lightboxNode with
  | None => None
  | Some current =>
      let currentList := filter shown galleryNodes in
      match findIndex (id current) currentList with
      | Some idx =>
          if (Z.of_nat idx >? 0)%Z
          then nth_error currentList (idx - 1)
          else Some current
      | None => Some current
      end
  end.

(** The rows [FolderTree] renders for a node, top to bottom, every row
    open as it is when first shown: the row of the node, then the rows of
    [node.children.filter(c => c.type === 'folder')], child by child. *)
Fixpoint FolderTree (node : FileNode) : list FileNode :=
  match type node with
  | file => []
  | folder =>
      node ::
      (fix folderChildren (cs : list FileNode) : list FileNode :=
         match cs with
         | [] => []
         | c :: cs' =>
             if NodeType_eqb (type c) folder
             then FolderTree c ++ folderChildren cs'
             else folderChildren cs'
         end) (children node)
  end.

End App.

(** The folder-type nodes of a tree, in depth-first order. *)
Definition folderNodes (node : FileNode) : list FileNode :=
  filter (fun n => NodeType_eqb (type n) folder) (nodes node).

(** The path a folder named [part] gets below a node of path [parent]. *)
Definition childPath (parent part : string) : string :=
  if JsString.truthy parent then (parent ++ "/" ++ part)%string else part.

(** Below a node of path [parent]: every child has the id [parent/name];
    a folder child has the path [childPath parent name], no file, no URL
    and no flag, and is laid out the same way below; a file child has no
    children and carries a file, the URL made of it and the flag [false]. *)
Inductive LaidOut (parent : string) : list FileNode -> Prop :=
| LaidOut_nil : LaidOut parent []
| LaidOut_folder c cs :
    type c = folder ->
    id c = (parent ++ "/" ++ name c)%string ->
    path c = childPath parent (name c) ->
    node_file c = None -> url c = None -> isDeleted c = None ->
    LaidOut (path c) (children c) ->
    LaidOut parent cs ->
    LaidOut parent (c :: cs)
| LaidOut_file c cs f :
    type c = file ->
    id c = (parent ++ "/" ++ name c)%string ->
    path c = webkitRelativePath f ->
    children c = [] ->
    node_file c = Some f -> url c = Some (UrlOfFile f) ->
    isDeleted c = Some false ->
    LaidOut parent cs ->
    LaidOut parent (c :: cs).

(** The file nodes below a children sequence. *)
Definition filesBelow (cs : list FileNode) : list FileNode :=
  filter (fun n => NodeType_eqb (type n) file) (flat_map nodes cs).

(** The folder nodes below a children sequence. *)
Definition foldersBelow (cs : list FileNode) : list FileNode :=
  filter (fun n => NodeType_eqb (type n) folder) (flat_map nodes cs).

(** The rows of the folder children in [App.FolderTree], on their own. *)
Definition FolderTree_children : list FileNode -> list FileNode :=
  fix folderChildren (cs : list FileNode) : list FileNode :=
    match cs with
    | [] => []
    | c :: cs' =>
        if NodeType_eqb (type c) folder
        then App.FolderTree c ++ folderChildren cs'
        else folderChildren cs'
    end.

(** The bytes of a list of entries. *)
Definition totalBytes (files : list File) : Z :=
  fold_right (fun f n => (App.size f + n)%Z) 0%Z files.

(** The entries [parseFilesToTree] skips. *)
Definition rejected (files : list File) : list File :=
  filter Ingestion.skipped files.

(** A node as the deserializer leaves it: either it was restored from a
    payload, and is a file node with the file made of the decoded payload
    under the name of the node and with the URL of the same blob, or it
    has neither file nor URL. *)
Definition RestoredNode (n : FileNode) : Prop :=
  (type n = file /\
   exists blob,
     node_file n = Some (mkFile (name n) "" (blob_type blob) (blob_bytes blob))
     /\ url n = Some (UrlOfBlob blob)) \/
  (node_file n = None /\ url n = None).

(** The entries [parseFilesToTree] does not skip. *)
Definition accepted (files : list File) : list File :=
  filter (fun f => negb (Ingestion.skipped f)) files.

(** A node the lightbox and the "all photos" view can show: it has a URL. *)
Definition viewable (n : FileNode) : bool :=
  match url n with Some _ => true | None => false end.

(** Every payload the deserializer would decode is one [atob] accepts. *)
Inductive Decodable (B : Browser) : SerializedNode -> Prop :=
| Decodable_node s :
    (forall data, Deserializer.hasThumbnail s = Some data ->
                  exists blob, Deserializer.base64ToBlob B data = Returns blob) ->
    Forall (Decodable B) (s_children s) ->
    Decodable B s.

(** The restored tree has the data of the serialized tree, node for node
    with the children in the same order. *)
Inductive Restores : SerializedNode -> FileNode -> Prop :=
| Restores_node s r :
    id r = s_id s -> name r = s_name s -> path r = s_path s ->
    type r = s_type s ->
    isDeleted r = Some (Deserializer.orFalse (s_isDeleted s)) ->
    Forall2 Restores (s_children s) (children r) ->
    Restores s r.

(** A character of a media type that the data URL header can hold. *)
Definition mimeChar (c : ascii) : bool :=
  negb (Ascii.eqb c ";" || Ascii.eqb c "," || Deserializer.isLineTerminator c).

(** A character that is not the comma [base64ToBlob] splits at. *)
Definition notComma (c : ascii) : bool := negb (Ascii.eqb c ",").

(** More inputs the properties are tried on. *)
Module Samples.

(** A snapshot of a root with one image, deleted when it was exported. *)
Definition exported_photo : SerializedNode :=
  mkSerializedNode "root" "Root" "" folder
    [mkSerializedNode "/x.png" "x.png" "" file []
                      (Some "data:image/jpeg;base64,QUJD") (Some true)]
    None None.

(** The tree of the two photos of the scenario. *)
Definition photos : FileNode :=
  fst (Ingestion.parseFilesToTree [Scenario.photos_a; Scenario.photos_sub_b]).

(** The browser of the scenario, reading any text as the document that is
    written for [photos]. *)
Definition reader : Browser :=
  mkBrowser (readAsDataURL Scenario.browser) (decodeImage Scenario.browser)
            (getContext2d Scenario.browser) (toDataURL Scenario.browser)
            (atob Scenario.browser)
            (fun _ => Some (Json.JSON_stringify
                              (snapshot Scenario.browser photos))).

(** The browser of the scenario, reading any text as the document [doc]. *)
Definition reading (doc : Json.value) : Browser :=
  mkBrowser (readAsDataURL Scenario.browser) (decodeImage Scenario.browser)
            (getContext2d Scenario.browser) (toDataURL Scenario.browser)
            (atob Scenario.browser) (fun _ => Some doc).

(** A document whose [children] member is a text. *)
Definition children_as_text : Json.value :=
  Json.JObject [("id", Json.JString "root"); ("type", Json.JString "folder");
                ("children", Json.JString "none")].

End Samples.

(** Where the file and the URL of each restored node come from: a file
    node with a non-empty payload has the file and the URL made of the
    blob that [base64ToBlob] returns for that payload, every other node
    has neither; node for node, the children in the same order. *)
Inductive RestoredFrom (B : Browser) : SerializedNode -> FileNode -> Prop :=
| RestoredFrom_payload s r data blob :
    Deserializer.hasThumbnail s = Some data ->
    Deserializer.base64ToBlob B data = Returns blob ->
    node_file r
    = Some (mkFile (s_name s) "" (blob_type blob) (blob_bytes blob)) ->
    url r = Some (UrlOfBlob blob) ->
    Forall2 (RestoredFrom B) (s_children s) (children r) ->
    RestoredFrom B s r
| RestoredFrom_plain s r :
    Deserializer.hasThumbnail s = None ->
    node_file r = None ->
    url r = None ->
    Forall2 (RestoredFrom B) (s_children s) (children r) ->
    RestoredFrom B s r.

(** What [deserializeTree] returned, when it returned. *)
Definition Restored_as (B : Browser) (s : SerializedNode) : Prop :=
  forall r pushed,
    Deserializer.deserializeTree B s = Returns (r, pushed) ->
    Restores s r /\
    pushed = filter viewable (nodes r) /\
    Forall RestoredNode (nodes r) /\
    Decodable B s.

(* ================================================================== *)
(** * Ingestion Builder: folders are merged, files are all kept *)
(* ================================================================== *)

Lemma split_nonempty sep s : JsString.split sep s <> [].
Proof.
  destruct s as [|c rest]; simpl; [discriminate|].
  destruct (Ascii.eqb c sep); [discriminate|].
  destruct (JsString.split sep rest); discriminate.
Qed.

Module IngestionFacts.
Import Ingestion.

Lemma pathParts_nonempty f : pathParts f <> [].
Proof.
  unfold pathParts. destruct (JsString.truthy _).
  - apply split_nonempty.
  - discriminate.
Qed.

(** What [descend] found, when it found something. *)
Lemma descend_Some found rest cs cs' pushed :
  descend found rest cs = Some (cs', pushed) ->
  exists before c after,
    cs = before ++ c :: after /\
    forallb (fun x => negb (found x)) before = true /\
    found c = true /\
    cs' = before ++ fst (rest c) :: after /\
    pushed = snd (rest c).
Proof.
  revert cs' pushed. induction cs as [|c cs IH]; simpl; intros cs' pushed H.
  - discriminate.
  - destruct (found c) eqn:Hc.
    + destruct (rest c) as [c' p] eqn:Hr. inversion H; subst.
      exists [], c, cs. rewrite Hr. simpl. auto.
    + destruct (descend found rest cs) as [[cs'' p]|] eqn:Hd; [|discriminate].
      inversion H; subst.
      destruct (IH _ _ eq_refl) as (b & x & a & -> & Hb & Hx & -> & ->).
      exists (c :: b), x, a. simpl. rewrite Hc. simpl. auto.
Qed.

Lemma descend_None found rest cs :
  descend found rest cs = None ->
  forallb (fun x => negb (found x)) cs = true.
Proof.
  induction cs as [|c cs IH]; simpl; intros H; [reflexivity|].
  destruct (found c).
  - destruct (rest c); discriminate.
  - destruct (descend found rest cs) as [[? ?]|]; [discriminate|].
    simpl. auto.
Qed.

(** The two turns of the walk: a folder segment, and the file segment. *)
Lemma walk_folder f part part' rest node :
  walk f (part :: part' :: rest) node =
  match descend (isFolderNamed part) (walk f (part' :: rest))
                (children node) with
  | Some (cs, pushed) => (set_children node cs, pushed)
  | None =>
      let (sub, pushed) := walk f (part' :: rest) (folderNode node part) in
      (push_child node sub, pushed)
  end.
Proof. reflexivity. Qed.

Lemma walk_file f part node :
  walk f [part] node =
  (push_child node (fileNode node part f), [fileNode node part f]).
Proof. reflexivity. Qed.

#[local] Arguments walk : simpl never.

(** The walk leaves the data of the node under the cursor alone. *)
Lemma walk_keeps f parts node :
  let node' := fst (walk f parts node) in
  id node' = id node /\ name node' = name node /\
  path node' = path node /\ type node' = type node.
Proof.
  cbv zeta. destruct parts as [|part [|part' rest]];
    [cbv; auto | rewrite walk_file; simpl; auto |].
  rewrite walk_folder.
  destruct (descend _ _ _) as [[cs pushed]|]; [simpl; auto|].
  destruct (walk f (part' :: rest) (folderNode node part)); simpl; auto.
Qed.

Lemma folderNames_app a b : folderNames (a ++ b) = folderNames a ++ folderNames b.
Proof. unfold folderNames. now rewrite filter_app, map_app. Qed.

Lemma folderNames_swap before c c' after :
  name c' = name c -> type c' = type c ->
  folderNames (before ++ c' :: after) = folderNames (before ++ c :: after).
Proof.
  intros Hn Ht. rewrite !folderNames_app. f_equal.
  unfold folderNames. simpl. rewrite Ht.
  destruct (NodeType_eqb (type c) folder); simpl; congruence.
Qed.

Lemma isFolderNamed_absent part cs :
  forallb (fun x => negb (isFolderNamed part x)) cs = true ->
  ~ In part (folderNames cs).
Proof.
  unfold folderNames. induction cs as [|c cs IH]; simpl; intros H; [tauto|].
  apply andb_true_iff in H as [Hc Hcs].
  unfold isFolderNamed in Hc.
  destruct (NodeType_eqb (type c) folder); simpl; [|auto].
  intros [E|E]; [|now apply IH].
  rewrite E, String.eqb_refl in Hc. discriminate.
Qed.

(** One walk keeps the folders of every children sequence distinct. *)
Lemma walk_FoldersDistinct f parts : forall node,
  FoldersDistinct node -> FoldersDistinct (fst (walk f parts node)).
Proof.
  induction parts as [|part rest IH]; intros node Hnode; [exact Hnode|].
  inversion Hnode as [? Hnd Hall]; subst.
  destruct rest as [|part' rest].
  - (* the file segment *)
    rewrite walk_file. constructor; simpl.
    + rewrite folderNames_app. unfold folderNames at 2. simpl.
      now rewrite app_nil_r.
    + apply Forall_app. split; [exact Hall|].
      constructor; [|constructor].
      constructor; simpl; constructor.
  - (* a folder segment *)
    rewrite walk_folder.
    destruct (descend _ _ _) as [[cs pushed]|] eqn:Hd.
    + apply descend_Some in Hd
        as (before & c & after & Hcs & _ & _ & -> & _).
      rewrite Hcs in Hnd, Hall.
      destruct (walk_keeps f (part' :: rest) c) as (_ & Hn & _ & Ht).
      constructor; simpl.
      * now rewrite (folderNames_swap before c _ after Hn Ht).
      * apply Forall_app in Hall as [Hb Hca].
        inversion Hca; subst.
        apply Forall_app. split; [exact Hb|].
        constructor; [now apply IH | assumption].
    + apply descend_None in Hd. apply isFolderNamed_absent in Hd.
      pose proof (IH (folderNode node part)) as Hsub.
      destruct (walk_keeps f (part' :: rest) (folderNode node part))
        as (_ & Hn & _ & Ht).
      destruct (walk f (part' :: rest) (folderNode node part))
        as [sub pushed] eqn:Hw.
      simpl in Hsub, Hn, Ht |- *.
      constructor; simpl.
      * rewrite folderNames_app. unfold folderNames at 2. simpl.
        rewrite Ht. simpl. rewrite Hn.
        apply NoDup_app; [exact Hnd | repeat constructor; simpl; tauto |].
        intros x Hx [<-|[]]. contradiction.
      * apply Forall_app. split; [exact Hall|].
        constructor; [|constructor].
        apply Hsub. constructor; simpl; constructor.
Qed.

Lemma ingest_FoldersDistinct st f :
  FoldersDistinct (fst st) -> FoldersDistinct (fst (ingest st f)).
Proof.
  intros H. unfold ingest. destruct (skipped f); [exact H|].
  pose proof (walk_FoldersDistinct f (pathParts f) (fst st) H) as Hw.
  destruct (walk f (pathParts f) (fst st)). exact Hw.
Qed.

Lemma fold_ingest_FoldersDistinct files : forall st,
  FoldersDistinct (fst st) ->
  FoldersDistinct (fst (fold_left ingest files st)).
Proof.
  induction files as [|f files IH]; intros st H; simpl; [exact H|].
  apply IH. now apply ingest_FoldersDistinct.
Qed.

End IngestionFacts.

(** C7.  In every tree built by [parseFilesToTree] no children sequence
    holds two folder-type entries of one name; and the two entries
    [A/x.png] and [A/y.png] give a root with exactly one child, the folder
    [A], whose children are the two file nodes, in that order. *)
Theorem C7_folders_never_duplicated :
  (forall files : list File,
      FoldersDistinct (fst (Ingestion.parseFilesToTree files))) /\
  (forall bx by_ : string,
      let x := Scenario.entry_A_x bx in
      let y := Scenario.entry_A_y by_ in
      let tree := fst (Ingestion.parseFilesToTree [x; y]) in
      exists a,
        children tree = [a] /\
        name a = "A" /\ type a = folder /\ path a = "A" /\
        children a =
          [Ingestion.fileNode a "x.png" x; Ingestion.fileNode a "y.png" y]).
Proof.
  split.
  - intros files. apply IngestionFacts.fold_ingest_FoldersDistinct.
    constructor; simpl; constructor.
  - intros bx by_. cbv zeta. eexists. cbn. repeat split; reflexivity.
Qed.

Module IngestedFiles.
Import Ingestion IngestionFacts.

#[local] Arguments walk : simpl never.

Lemma nodes_eq node : nodes node = node :: flat_map nodes (children node).
Proof. destruct node; reflexivity. Qed.

Lemma isFolderNamed_folder part c : isFolderNamed part c = true -> type c = folder.
Proof.
  unfold isFolderNamed. intros H. apply andb_true_iff in H as [_ H].
  destruct (type c); [discriminate | reflexivity].
Qed.

(** A file node met below a folder is not the folder. *)
Lemma below_folder node n :
  type node = folder -> type n = file -> In n (nodes node) ->
  In n (flat_map nodes (children node)).
Proof.
  intros Hf Hn. rewrite nodes_eq. intros [E|H]; [|exact H].
  subst. congruence.
Qed.

(** A walk from a folder keeps every file node the tree already had. *)
Lemma walk_keeps_files f parts : forall node n,
  type node = folder -> type n = file ->
  In n (nodes node) -> In n (nodes (fst (walk f parts node))).
Proof.
  induction parts as [|part rest IH]; intros node n Hf Hn Hin; [exact Hin|].
  apply (below_folder node n Hf Hn) in Hin.
  destruct rest as [|part' rest].
  - rewrite walk_file. cbn [fst]. rewrite nodes_eq. right. simpl.
    rewrite flat_map_app. apply in_or_app. now left.
  - rewrite walk_folder.
    destruct (descend _ _ _) as [[cs pushed]|] eqn:Hd.
    + apply descend_Some in Hd
        as (before & c & after & Hcs & _ & Hc & -> & _).
      cbn [fst]. rewrite nodes_eq. right. simpl.
      rewrite Hcs, flat_map_app in Hin. rewrite flat_map_app.
      apply in_app_or in Hin as [Hin|Hin]; apply in_or_app; [now left|].
      right. simpl in Hin |- *.
      apply in_app_or in Hin as [Hin|Hin]; apply in_or_app; [|now right].
      left. apply IH; auto. eapply isFolderNamed_folder; eauto.
    + destruct (walk f (part' :: rest) (folderNode node part)) as [sub pushed].
      cbn [fst]. rewrite nodes_eq. right. simpl.
      rewrite flat_map_app. apply in_or_app. now left.
Qed.

(** What a walk over at least one segment adds: one file node, for the
    file it was run for, pushed on [allImages] and placed in the tree. *)
Lemma walk_adds f parts : forall node,
  parts <> [] ->
  exists fn,
    snd (walk f parts node) = [fn] /\
    In fn (nodes (fst (walk f parts node))) /\
    type fn = file /\ node_file fn = Some f /\
    path fn = webkitRelativePath f /\ name fn = last parts "".
Proof.
  induction parts as [|part rest IH]; intros node Hne; [congruence|].
  destruct rest as [|part' rest].
  - rewrite walk_file. exists (fileNode node part f). cbn [fst snd].
    repeat split. rewrite nodes_eq. right. simpl.
    rewrite flat_map_app. apply in_or_app. right. simpl. now left.
  - assert (Hrest : part' :: rest <> []) by discriminate.
    rewrite walk_folder.
    destruct (descend _ _ _) as [[cs pushed]|] eqn:Hd.
    + apply descend_Some in Hd
        as (before & c & after & Hcs & _ & Hc & -> & ->).
      destruct (IH c Hrest) as (fn & Hp & Hin & Hrec).
      exists fn. cbn [fst snd]. split; [exact Hp|]. split; [|exact Hrec].
      rewrite nodes_eq. right. simpl. rewrite flat_map_app.
      apply in_or_app. right. simpl. apply in_or_app. now left.
    + destruct (IH (folderNode node part) Hrest) as (fn & Hp & Hin & Hrec).
      destruct (walk f (part' :: rest) (folderNode node part)) as [sub pushed].
      cbn [fst snd] in *. exists fn. split; [exact Hp|]. split; [|exact Hrec].
      rewrite nodes_eq. right. simpl. rewrite flat_map_app.
      apply in_or_app. right. simpl. rewrite app_nil_r. exact Hin.
Qed.

Lemma ingest_folder st f :
  type (fst st) = folder -> type (fst (ingest st f)) = folder.
Proof.
  intros H. unfold ingest. destruct (skipped f); [exact H|].
  destruct (walk_keeps f (pathParts f) (fst st)) as (_ & _ & _ & Ht).
  destruct (walk f (pathParts f) (fst st)). simpl in *. congruence.
Qed.

Lemma ingest_keeps st f n :
  type (fst st) = folder -> type n = file ->
  In n (nodes (fst st)) /\ In n (snd st) ->
  In n (nodes (fst (ingest st f))) /\ In n (snd (ingest st f)).
Proof.
  intros Hf Hn [Ht Ha]. unfold ingest. destruct (skipped f); [auto|].
  pose proof (walk_keeps_files f (pathParts f) (fst st) n Hf Hn Ht) as Hw.
  destruct (walk f (pathParts f) (fst st)). simpl in *.
  split; [exact Hw | apply in_or_app; now left].
Qed.

Lemma fold_keeps files : forall st n,
  type (fst st) = folder -> type n = file ->
  In n (nodes (fst st)) /\ In n (snd st) ->
  In n (nodes (fst (fold_left ingest files st))) /\
  In n (snd (fold_left ingest files st)).
Proof.
  induction files as [|f files IH]; intros st n Hf Hn H; [exact H|].
  simpl. apply IH; auto using ingest_folder, ingest_keeps.
Qed.

Lemma ingest_adds st f :
  skipped f = false ->
  exists fn,
    (In fn (nodes (fst (ingest st f))) /\ In fn (snd (ingest st f))) /\
    type fn = file /\ node_file fn = Some f /\
    path fn = webkitRelativePath f /\ name fn = last (pathParts f) "".
Proof.
  intros Hs. unfold ingest. rewrite Hs.
  destruct (walk_adds f (pathParts f) (fst st) (pathParts_nonempty f))
    as (fn & Hp & Hin & Hrec).
  destruct (walk f (pathParts f) (fst st)). simpl in *. subst.
  exists fn. split; [|exact Hrec]. split; [exact Hin|].
  apply in_or_app. right. now left.
Qed.

Lemma fold_adds files : forall st f,
  type (fst st) = folder -> In f files -> skipped f = false ->
  exists fn,
    (In fn (nodes (fst (fold_left ingest files st))) /\
     In fn (snd (fold_left ingest files st))) /\
    type fn = file /\ node_file fn = Some f /\
    path fn = webkitRelativePath f /\ name fn = last (pathParts f) "".
Proof.
  induction files as [|g files IH]; intros st f Hf Hin Hs; [destruct Hin|].
  simpl. destruct Hin as [->|Hin].
  - destruct (ingest_adds st f Hs) as (fn & Hmem & Ht & Hrest).
    exists fn. split; [|auto].
    apply fold_keeps; auto using ingest_folder.
  - apply IH; auto using ingest_folder.
Qed.

End IngestedFiles.

(** C10, as stated, fails: the base name of [docs/notes.txt] does not begin
    with a dot, and the entry is not ingested, because the builder also
    drops what is not an image. *)
Lemma C10_not_every_visible_entry_is_ingested :
  JsString.startsWith (file_name Scenario.entry_notes) "." = false /\
  Ingestion.parseFilesToTree [Scenario.entry_notes] = (Ingestion.root, []).
Proof. split; reflexivity. Qed.

(** C10, amended.  The hidden-file test of [parseFilesToTree] reads the
    base name of the entry only: every entry whose base name does not begin
    with a dot and whose media type begins with [image/] gets a file node,
    carrying the entry and its relative path, that is in the tree and in
    the flat accumulator, whatever the folder segments of its path are; the
    image [.thumbs/c.png] is such an entry. *)
Theorem C10_hidden_filter_reads_base_name_only :
  forall (files : list File) (f : File),
    In f files ->
    JsString.startsWith (file_name f) "." = false ->
    JsString.startsWith (file_type f) "image/" = true ->
    exists fn,
      In fn (nodes (fst (Ingestion.parseFilesToTree files))) /\
      In fn (snd (Ingestion.parseFilesToTree files)) /\
      type fn = file /\ node_file fn = Some f /\
      path fn = webkitRelativePath f.
Proof.
  intros files f Hin Hname Htype.
  destruct (IngestedFiles.fold_adds files (Ingestion.root, []) f)
    as (fn & [Ht Ha] & Hty & Hfile & Hpath & _); auto.
  - unfold Ingestion.skipped. now rewrite Hname, Htype.
  - exists fn. auto.
Qed.

Lemma C10_witness_hidden_directory :
  JsString.startsWith ".thumbs/c.png" "." = true /\
  exists fn,
    In fn (nodes (fst (Ingestion.parseFilesToTree [Scenario.entry_hidden_dir]))) /\
    In fn (snd (Ingestion.parseFilesToTree [Scenario.entry_hidden_dir])) /\
    type fn = file /\ node_file fn = Some Scenario.entry_hidden_dir /\
    path fn = ".thumbs/c.png".
Proof.
  split; [reflexivity|].
  apply (C10_hidden_filter_reads_base_name_only [Scenario.entry_hidden_dir]
           Scenario.entry_hidden_dir).
  - simpl; auto.
  - reflexivity.
  - reflexivity.
Defined.

(* ================================================================== *)
(** * JavaScript numbers: rounding to a double *)
(* ================================================================== *)

Module DoubleFacts.
Import JsNumber.
Local Open Scope Q_scope.

Lemma pow2_pos k : 0 < pow2 k.
Proof. apply Qpower_0_lt. reflexivity. Qed.

Lemma pow2_plus a b : pow2 (a + b) == pow2 a * pow2 b.
Proof. apply Qpower_plus. discriminate. Qed.

Lemma pow2_le a b : (a <= b)%Z -> pow2 a <= pow2 b.
Proof. intros H. apply Qpower_le_compat_l; [exact H | discriminate]. Qed.

Lemma pow2_lt a b : (a < b)%Z -> pow2 a < pow2 b.
Proof. intros H. apply Qpower_lt_compat_l; [exact H | reflexivity]. Qed.

Lemma pow2_lt_inv a b : pow2 a < pow2 b -> (a < b)%Z.
Proof. intros H. apply (Qpower_lt_compat_l_inv (2 # 1)); [exact H | reflexivity]. Qed.

Lemma pow2_Z n : (0 <= n)%Z -> pow2 n == inject_Z (2 ^ n).
Proof. intros H. unfold pow2. now rewrite Zpower_Qpower. Qed.

Lemma pow2_succ k : pow2 (k + 1) == 2 * pow2 k.
Proof. rewrite pow2_plus. change (pow2 1) with 2. ring. Qed.

Lemma pow2_minus a b : pow2 (a - b) == pow2 a / pow2 b.
Proof.
  unfold Z.sub. rewrite pow2_plus. unfold pow2 at 2. rewrite Qpower_opp.
  reflexivity.
Qed.

Lemma Qmake_times_den n d : (n # d) * inject_Z (Zpos d) == inject_Z n.
Proof. unfold Qeq, inject_Z. simpl. lia. Qed.

(** The exponent brackets the number. *)
Lemma exponent_spec x :
  0 < x -> pow2 (exponent x) <= x /\ x < pow2 (exponent x + 1).
Proof.
  intros Hx. destruct x as [n d].
  assert (Hn : (0 < n)%Z).
  { unfold Qlt in Hx. simpl in Hx. lia. }
  unfold exponent. cbn [Qnum Qden].
  set (a := Z.log2 n). set (b := Z.log2 (Zpos d)).
  destruct (Z.log2_spec n Hn) as [Ha1 Ha2]. fold a in Ha1, Ha2.
  destruct (Z.log2_spec (Zpos d) ltac:(lia)) as [Hb1 Hb2].
  fold b in Hb1, Hb2.
  assert (Ha0 : (0 <= a)%Z) by apply Z.log2_nonneg.
  assert (Hb0 : (0 <= b)%Z) by apply Z.log2_nonneg.
  pose proof (Qmake_times_den n d) as Hnd.
  assert (Hqa1 : pow2 a <= inject_Z n)
    by (rewrite pow2_Z by lia; now rewrite <- Zle_Qle).
  assert (Hqa2 : inject_Z n < pow2 (a + 1)).
  { rewrite pow2_Z by lia. rewrite <- Zlt_Qlt.
    now replace (a + 1)%Z with (Z.succ a) by lia. }
  assert (Hqb1 : pow2 b <= inject_Z (Zpos d))
    by (rewrite pow2_Z by lia; now rewrite <- Zle_Qle).
  assert (Hqb2 : inject_Z (Zpos d) < pow2 (b + 1)).
  { rewrite pow2_Z by lia. rewrite <- Zlt_Qlt.
    now replace (b + 1)%Z with (Z.succ b) by lia. }
  pose proof (pow2_pos b) as Hpb. pose proof (pow2_pos (b + 1)) as Hpb1.
  assert (Hlo : pow2 (a - b - 1) <= n # d).
  { replace (a - b - 1)%Z with (a - (b + 1))%Z by lia.
    rewrite pow2_minus. apply Qle_shift_div_r; [exact Hpb1|].
    apply Qle_trans with (inject_Z n); [exact Hqa1|].
    rewrite <- Hnd. apply Qmult_le_l; [exact Hx|]. now apply Qlt_le_weak. }
  assert (Hhi : n # d < pow2 (a - b + 1)).
  { replace (a - b + 1)%Z with (a + 1 - b)%Z by lia.
    rewrite pow2_minus. apply Qlt_shift_div_l; [exact Hpb|].
    apply Qle_lt_trans with (inject_Z n); [|exact Hqa2].
    rewrite <- Hnd. apply Qmult_le_l; [exact Hx | exact Hqb1]. }
  destruct (Qle_bool (pow2 (a - b)) (n # d)) eqn:Hk.
  - apply Qle_bool_iff in Hk. split; [exact Hk | exact Hhi].
  - split; [exact Hlo|].
    replace (a - b - 1 + 1)%Z with (a - b)%Z by lia.
    apply Qnot_le_lt. intros H. apply Qle_bool_iff in H. congruence.
Qed.

Lemma exponent_unique x k :
  pow2 k <= x -> x < pow2 (k + 1) -> exponent x = k.
Proof.
  intros Hlo Hhi.
  assert (Hx : 0 < x) by (pose proof (pow2_pos k); lra).
  destruct (exponent_spec x Hx) as [Hlo' Hhi'].
  assert (H1 : (k < exponent x + 1)%Z) by (apply pow2_lt_inv; lra).
  assert (H2 : (exponent x < k + 1)%Z) by (apply pow2_lt_inv; lra).
  lia.
Qed.

Lemma exponent_comp x y : 0 < x -> x == y -> exponent x = exponent y.
Proof.
  intros Hx E. symmetry. destruct (exponent_spec x Hx) as [Hlo Hhi].
  apply exponent_unique; rewrite <- E; assumption.
Qed.

Lemma exponent_mono x y : 0 < x -> x <= y -> (exponent x <= exponent y)%Z.
Proof.
  intros Hx Hxy.
  destruct (exponent_spec x Hx) as [Hlo _].
  destruct (exponent_spec y ltac:(lra)) as [_ Hhi].
  assert (H : (exponent x < exponent y + 1)%Z) by (apply pow2_lt_inv; lra).
  lia.
Qed.

(** Rounding to an integer, ties to even. *)
Lemma nearest_even_bounds y :
  y - (1 # 2) <= inject_Z (nearest_even y) /\
  inject_Z (nearest_even y) <= y + (1 # 2).
Proof.
  unfold nearest_even.
  pose proof (Qfloor_le y) as Hle. pose proof (Qlt_floor y) as Hlt.
  rewrite inject_Z_plus in Hlt. change (inject_Z 1) with 1 in Hlt.
  set (f := Qfloor y) in *.
  destruct (Qcompare_spec (y - inject_Z f) (1 # 2)) as [E|L|G];
    [destruct (Z.even f)| |];
    rewrite ?inject_Z_plus; change (inject_Z 1) with 1; split; lra.
Qed.

Lemma nearest_even_comp x y : x == y -> nearest_even x = nearest_even y.
Proof.
  intros E. unfold nearest_even. rewrite (Qfloor_comp _ _ E).
  assert (H : x - inject_Z (Qfloor y) == y - inject_Z (Qfloor y))
    by (now rewrite E).
  now rewrite (Qcompare_comp _ _ H _ _ (Qeq_refl (1 # 2))).
Qed.

Lemma nearest_even_Z z : nearest_even (inject_Z z) = z.
Proof.
  unfold nearest_even. rewrite Qfloor_Z.
  destruct (Qcompare_spec (inject_Z z - inject_Z z) (1 # 2)) as [E|L|G];
    [lra | reflexivity | lra].
Qed.

Lemma nearest_even_floor y :
  (Qfloor y <= nearest_even y <= Qfloor y + 1)%Z.
Proof.
  unfold nearest_even.
  destruct (Qcompare _ _); [destruct (Z.even _)| |]; lia.
Qed.

Lemma nearest_even_mono x y : x <= y -> (nearest_even x <= nearest_even y)%Z.
Proof.
  intros Hxy. pose proof (Qfloor_resp_le x y Hxy) as Hf.
  pose proof (nearest_even_floor x) as Hnx.
  pose proof (nearest_even_floor y) as Hny.
  assert (Hcase : (Qfloor x < Qfloor y)%Z \/ Qfloor x = Qfloor y) by lia.
  destruct Hcase as [Hlt | Heq]; [lia|].
  clear Hnx Hny Hf. unfold nearest_even. rewrite <- Heq.
  set (fx := Qfloor x) in *.
  destruct (Qcompare_spec (x - inject_Z fx) (1 # 2)) as [Ex|Lx|Gx];
    destruct (Qcompare_spec (y - inject_Z fx) (1 # 2)) as [Ey|Ly|Gy];
    try destruct (Z.even fx); try lia; lra.
Qed.

(** [fl] on positive numbers. *)
Lemma fl_pos x :
  0 < x -> fl x = inject_Z (significand x) * pow2 (exponent x - 52).
Proof.
  intros Hx. unfold fl.
  destruct (Qcompare_spec x 0) as [E|L|G]; [lra | lra | reflexivity].
Qed.

Lemma fl_zero x : x == 0 -> fl x = 0.
Proof.
  intros Hx. unfold fl.
  destruct (Qcompare_spec x 0) as [E|L|G]; [reflexivity | lra | lra].
Qed.

(** The scaled number lies between [2^52] and [2^53]. *)
Lemma scaled_bounds x :
  0 < x ->
  pow2 52 <= x / pow2 (exponent x - 52) /\
  x / pow2 (exponent x - 52) < pow2 53.
Proof.
  intros Hx. destruct (exponent_spec x Hx) as [Hlo Hhi].
  set (k := exponent x) in *.
  pose proof (pow2_pos (k - 52)) as Hp.
  assert (E1 : pow2 k == pow2 52 * pow2 (k - 52))
    by (rewrite <- pow2_plus; now replace (52 + (k - 52))%Z with k by lia).
  assert (E2 : pow2 (k + 1) == pow2 53 * pow2 (k - 52))
    by (rewrite <- pow2_plus; now replace (53 + (k - 52))%Z with (k + 1)%Z by lia).
  split.
  - apply Qle_shift_div_l; [exact Hp|]. now rewrite <- E1.
  - apply Qlt_shift_div_r; [exact Hp|]. now rewrite <- E2.
Qed.

Lemma significand_bounds x :
  0 < x ->
  (2 ^ 52 <= significand x <= 2 ^ 53)%Z.
Proof.
  intros Hx. destruct (scaled_bounds x Hx) as [Hlo Hhi].
  unfold significand. split.
  - rewrite <- (nearest_even_Z (2 ^ 52)). apply nearest_even_mono.
    now rewrite <- pow2_Z by lia.
  - rewrite <- (nearest_even_Z (2 ^ 53)). apply nearest_even_mono.
    rewrite <- pow2_Z by lia. now apply Qlt_le_weak.
Qed.

(** [fl] is accurate to one part in [2^53]. *)
Lemma fl_accurate x :
  0 <= x -> x * (1 - ulp) <= fl x /\ fl x <= x * (1 + ulp).
Proof.
  intros Hx0. destruct (Qlt_le_dec 0 x) as [Hx|Hx].
  2:{ rewrite (fl_zero x) by lra. assert (E : x == 0) by lra.
      rewrite E. split; lra. }
  rewrite (fl_pos x Hx).
  destruct (scaled_bounds x Hx) as [Hlo Hhi].
  destruct (nearest_even_bounds (x / pow2 (exponent x - 52))) as [Hn1 Hn2].
  fold (significand x) in Hn1, Hn2.
  set (m := inject_Z (significand x)) in *.
  set (p := pow2 (exponent x - 52)) in *.
  assert (Hp : 0 < p) by apply pow2_pos.
  set (y := x / p) in *.
  assert (Hy : x == y * p) by (unfold y; field; lra).
  change (pow2 52) with 4503599627370496 in Hlo.
  assert (Hm1 : y * (1 - ulp) <= m) by (unfold ulp; lra).
  assert (Hm2 : m <= y * (1 + ulp)) by (unfold ulp; lra).
  split.
  - rewrite Hy. setoid_replace (y * p * (1 - ulp)) with (y * (1 - ulp) * p) by ring.
    apply Qmult_le_compat_r; lra.
  - rewrite Hy. setoid_replace (y * p * (1 + ulp)) with (y * (1 + ulp) * p) by ring.
    apply Qmult_le_compat_r; lra.
Qed.

Lemma fl_nonneg x : 0 <= x -> 0 <= fl x.
Proof.
  intros Hx. destruct (fl_accurate x Hx) as [H _].
  assert (0 <= x * (1 - ulp)) by (apply Qmult_le_0_compat; [exact Hx | unfold ulp; lra]).
  lra.
Qed.

Lemma fl_comp x y : x == y -> fl x == fl y.
Proof.
  intros E. destruct (Q_dec 0 x) as [[Hx|Hx]|Hx].
  - rewrite (fl_pos x Hx), (fl_pos y) by lra.
    unfold significand. rewrite <- (exponent_comp x y Hx E).
    rewrite (nearest_even_comp (x / pow2 (exponent x - 52))
                               (y / pow2 (exponent x - 52)))
      by (apply Qdiv_comp; [exact E | reflexivity]).
    reflexivity.
  - unfold fl.
    destruct (Qcompare_spec x 0) as [E1|L1|G1]; [lra| |lra].
    destruct (Qcompare_spec y 0) as [E2|L2|G2]; [lra| |lra].
    assert (Hn : 0 < - x) by lra. assert (En : - x == - y) by lra.
    unfold significand. rewrite <- (exponent_comp (- x) (- y) Hn En).
    rewrite (nearest_even_comp (- x / pow2 (exponent (- x) - 52))
                               (- y / pow2 (exponent (- x) - 52)))
      by (apply Qdiv_comp; [exact En | reflexivity]).
    reflexivity.
  - rewrite (fl_zero x), (fl_zero y) by lra. reflexivity.
Qed.

Lemma fl_monotone x y : 0 <= x -> x <= y -> fl x <= fl y.
Proof.
  intros Hx0 Hxy. destruct (Qlt_le_dec 0 x) as [Hx|Hx].
  2:{ rewrite (fl_zero x) by lra. apply fl_nonneg. lra. }
  assert (Hy : 0 < y) by lra.
  rewrite (fl_pos x Hx), (fl_pos y Hy).
  pose proof (exponent_mono x y Hx Hxy) as He.
  destruct (significand_bounds x Hx) as [Hx1 Hx2].
  destruct (significand_bounds y Hy) as [Hy1 Hy2].
  assert (Hcase : (exponent x < exponent y)%Z \/ exponent x = exponent y) by lia.
  destruct Hcase as [Hlt | Heq].
  - (* different binades *)
    apply Qle_trans with (pow2 53 * pow2 (exponent x - 52)).
    + apply Qmult_le_compat_r; [|apply Qlt_le_weak, pow2_pos].
      rewrite pow2_Z by lia. now rewrite <- Zle_Qle.
    + apply Qle_trans with (pow2 52 * pow2 (exponent y - 52)).
      * rewrite <- !pow2_plus. apply pow2_le. lia.
      * apply Qmult_le_compat_r; [|apply Qlt_le_weak, pow2_pos].
        rewrite pow2_Z by lia. now rewrite <- Zle_Qle.
  - unfold significand. rewrite <- Heq.
    apply Qmult_le_compat_r; [|apply Qlt_le_weak, pow2_pos].
    rewrite <- Zle_Qle. apply nearest_even_mono.
    apply Qmult_le_compat_r; [exact Hxy|].
    apply Qlt_le_weak, Qinv_lt_0_compat, pow2_pos.
Qed.

(** Integers up to [2^53] are doubles. *)
Lemma fl_integer n :
  (0 <= n <= 2 ^ 53)%Z -> fl (inject_Z n) == inject_Z n.
Proof.
  intros [Hn0 Hn]. assert (Hc : n = 0%Z \/ (0 < n)%Z) by lia.
  destruct Hc as [->|Hpos]; [reflexivity|].
  assert (Hx : 0 < inject_Z n)
    by (change 0 with (inject_Z 0); now rewrite <- Zlt_Qlt).
  rewrite (fl_pos _ Hx).
  destruct (exponent_spec _ Hx) as [Hlo Hhi].
  set (k := exponent (inject_Z n)) in *.
  assert (Hk : (k <= 53)%Z).
  { assert (H : (k < 53 + 1)%Z).
    { apply pow2_lt_inv. apply Qle_lt_trans with (inject_Z n); [exact Hlo|].
      apply Qle_lt_trans with (pow2 53).
      - rewrite pow2_Z by lia. now rewrite <- Zle_Qle.
      - apply pow2_lt. lia. }
    lia. }
  assert (Hc : (k <= 52)%Z \/ k = 53%Z) by lia.
  destruct Hc as [Hk52 | Hk53].
  - unfold significand. fold k.
    assert (E : inject_Z n / pow2 (k - 52) == inject_Z (n * 2 ^ (52 - k))).
    { rewrite inject_Z_mult, <- pow2_Z by lia.
      replace (52 - k)%Z with (- (k - 52))%Z by lia.
      unfold pow2. rewrite Qpower_opp. reflexivity. }
    rewrite (nearest_even_comp _ _ E), nearest_even_Z.
    rewrite inject_Z_mult, <- pow2_Z by lia.
    rewrite <- Qmult_assoc, <- pow2_plus.
    replace (52 - k + (k - 52))%Z with 0%Z by lia.
    change (pow2 0) with 1. ring.
  - (* n = 2^53 *)
    assert (Hn53 : n = (2 ^ 53)%Z).
    { rewrite Hk53 in Hlo. rewrite pow2_Z in Hlo by lia.
      rewrite <- Zle_Qle in Hlo. lia. }
    subst n. vm_compute. reflexivity.
Qed.

End DoubleFacts.

(* ================================================================== *)
(** * Image Transcoder: the size of the canvas *)
(* ================================================================== *)

Module TranscoderFacts.
Import JsNumber Transcoder DoubleFacts.
Local Open Scope Q_scope.

Lemma Math_round_nearest x : rounds_half_up x (Math_round x).
Proof.
  unfold rounds_half_up, Math_round.
  pose proof (Qfloor_le (x + (1 # 2))) as Hle.
  pose proof (Qlt_floor (x + (1 # 2))) as Hlt.
  rewrite inject_Z_plus in Hlt.
  change (inject_Z 1) with 1%Q in Hlt.
  split; lra.
Qed.

Lemma Math_round_mono x y : (x <= y)%Q -> (Math_round x <= Math_round y)%Z.
Proof.
  intros H. unfold Math_round. apply Qfloor_resp_le. lra.
Qed.

Lemma Math_round_comp x y : x == y -> Math_round x = Math_round y.
Proof. intros E. unfold Math_round. apply Qfloor_comp. now rewrite E. Qed.

Lemma Math_round_integer z : Math_round (inject_Z z) = z.
Proof.
  destruct (Math_round_nearest (inject_Z z)) as [Hlo Hhi].
  set (n := Math_round (inject_Z z)) in *.
  assert (Hlt : (inject_Z z < inject_Z (n + 1))%Q)
    by (rewrite inject_Z_plus; change (inject_Z 1) with 1%Q; lra).
  assert (Hlt' : (inject_Z n < inject_Z (z + 1))%Q)
    by (rewrite inject_Z_plus; change (inject_Z 1) with 1%Q; lra).
  rewrite <- Zlt_Qlt in Hlt, Hlt'. lia.
Qed.

Lemma inject_Z_pos s : (0 < s)%Z -> 0 < inject_Z s.
Proof. intros H. change 0 with (inject_Z 0). now rewrite <- Zlt_Qlt. Qed.

Lemma inject_Z_nonneg s : (0 <= s)%Z -> 0 <= inject_Z s.
Proof. intros H. change 0 with (inject_Z 0). now rewrite <- Zle_Qle. Qed.

Lemma quotient_pos s : (0 < s)%Z -> 0 < 1024 / inject_Z s.
Proof.
  intros Hs. apply Qlt_shift_div_l; [now apply inject_Z_pos | lra].
Qed.

(** The factor, as computed, is within one part in [2^53] of the
    quotient. *)
Lemma scale_accurate s :
  (0 < s)%Z ->
  1024 / inject_Z s * (1 - ulp) <= scale s /\
  scale s <= 1024 / inject_Z s * (1 + ulp).
Proof.
  intros Hs. apply fl_accurate. apply Qlt_le_weak. now apply quotient_pos.
Qed.

Lemma scale_nonneg s : (0 < s)%Z -> 0 <= scale s.
Proof.
  intros Hs. apply fl_nonneg. apply Qlt_le_weak. now apply quotient_pos.
Qed.

(** The factor never enlarges. *)
Lemma scale_le_one s : (1024 <= s)%Z -> scale s <= 1.
Proof.
  intros Hs. rewrite <- (fl_integer 1) by lia.
  apply fl_monotone.
  - apply Qlt_le_weak, quotient_pos. lia.
  - apply Qle_shift_div_r; [apply inject_Z_pos; lia|].
    rewrite Qmult_1_l. change 1024 with (inject_Z 1024).
    now rewrite <- Zle_Qle.
Qed.

(** The short edge is sent to the target exactly. *)
Lemma short_edge_scaled s :
  (0 < s)%Z -> Math_round (mul (inject_Z s) (scale s)) = SHORT_EDGE_TARGET.
Proof.
  intros Hs. pose proof (quotient_pos s Hs) as Hq.
  pose proof (inject_Z_pos s Hs) as Hs'.
  assert (Hexact : inject_Z s * (1024 / inject_Z s) == 1024)
    by (field; lra).
  destruct (scale_accurate s Hs) as [Hlo Hhi].
  set (a := scale s) in *.
  assert (Hylo : 1024 * (1 - ulp) <= inject_Z s * a).
  { rewrite <- Hexact, <- Qmult_assoc.
    apply Qmult_le_l; [exact Hs' | exact Hlo]. }
  assert (Hyhi : inject_Z s * a <= 1024 * (1 + ulp)).
  { rewrite <- Hexact, <- Qmult_assoc.
    apply Qmult_le_l; [exact Hs' | exact Hhi]. }
  unfold mul.
  destruct (fl_accurate (inject_Z s * a)) as [Hblo Hbhi];
    [unfold ulp in *; lra|].
  set (b := fl (inject_Z s * a)) in *.
  destruct (Math_round_nearest b) as [Hn1 Hn2].
  set (n := Math_round b) in *.
  unfold ulp in *.
  assert (H1 : inject_Z 1023 < inject_Z n)
    by (change (inject_Z 1023) with 1023; nra).
  assert (H2 : inject_Z n < inject_Z 1025)
    by (change (inject_Z 1025) with 1025; nra).
  rewrite <- Zlt_Qlt in H1, H2. unfold SHORT_EDGE_TARGET. lia.
Qed.

(** The other edge is sent to the target or above. *)
Lemma long_edge_scaled s l :
  (0 < s <= l)%Z ->
  (SHORT_EDGE_TARGET <= Math_round (mul (inject_Z l) (scale s)))%Z.
Proof.
  intros [Hs Hl]. rewrite <- (short_edge_scaled s Hs).
  apply Math_round_mono. unfold mul. apply fl_monotone.
  - apply Qmult_le_0_compat; [apply inject_Z_nonneg; lia | now apply scale_nonneg].
  - apply Qmult_le_compat_r; [now rewrite <- Zle_Qle | now apply scale_nonneg].
Qed.

(** A side is never made longer. *)
Lemma side_not_longer s w :
  (1024 <= s)%Z -> (0 <= w <= 2 ^ 53)%Z ->
  (Math_round (mul (inject_Z w) (scale s)) <= w)%Z.
Proof.
  intros Hs Hw.
  apply Z.le_trans with (Math_round (inject_Z w));
    [|rewrite Math_round_integer; lia].
  apply Math_round_mono.
  pose proof (fl_integer w Hw) as Hexact.
  pose proof (scale_le_one s Hs) as Hle.
  pose proof (scale_nonneg s ltac:(lia)) as H0.
  pose proof (inject_Z_nonneg w ltac:(lia)) as Hw0.
  assert (Hmono : fl (inject_Z w * scale s) <= fl (inject_Z w)).
  { apply fl_monotone; [now apply Qmult_le_0_compat|]. nra. }
  unfold mul. lra.
Qed.

(** A side of the canvas is an integer nearest to the side of the image
    times the exact quotient, for every width a browser reports. *)
Lemma side_nearest s w :
  (0 < s)%Z -> (0 <= w < 2 ^ 32)%Z ->
  nearest_integer (inject_Z w * (1024 / inject_Z s))
                  (Math_round (mul (inject_Z w) (scale s))).
Proof.
  intros Hs [Hw0 Hw].
  pose proof (quotient_pos s Hs) as Hq.
  pose proof (inject_Z_pos s Hs) as HS.
  pose proof (inject_Z_nonneg w Hw0) as HW0.
  assert (HW : inject_Z w < 4294967296)
    by (change 4294967296 with (inject_Z (2 ^ 32)); now rewrite <- Zlt_Qlt).
  destruct (scale_accurate s Hs) as [Halo Hahi].
  pose proof (scale_nonneg s Hs) as Ha0.
  set (a := scale s) in *.
  unfold mul.
  destruct (fl_accurate (inject_Z w * a)) as [Hylo Hyhi];
    [now apply Qmult_le_0_compat|].
  set (y := fl (inject_Z w * a)) in *.
  destruct (Math_round_nearest y) as [Hn1 Hn2].
  set (n := Math_round y) in *.
  set (sigma := 1024 / inject_Z s) in *.
  assert (Hsig : sigma * inject_Z s == 1024) by (unfold sigma; field; lra).
  set (W := inject_Z w) in *. set (S := inject_Z s) in *.
  set (N := inject_Z n) in *.
  unfold ulp in *.
  (* the product is within three parts in [2^53] of the exact one *)
  assert (Hwa1 : W * sigma * (1 - (1 # 9007199254740992)) <= W * a) by nra.
  assert (Hwa2 : W * a <= W * sigma * (1 + (1 # 9007199254740992))) by nra.
  set (x := W * sigma) in *.
  assert (Hx0 : 0 <= x) by (unfold x; nra).
  assert (Hy1 : x * (1 - (3 # 9007199254740992)) <= y) by nra.
  assert (Hy2 : y <= x * (1 + (3 # 9007199254740992))) by nra.
  assert (HxS : x * S == 1024 * W) by (unfold x; nra).
  (* scaled by [2 s] these are statements about integers *)
  assert (Hz1 : inject_Z (2048 * w) < inject_Z (2 * n * s + s + 1)).
  { rewrite !inject_Z_plus, !inject_Z_mult. fold W S N.
    change (inject_Z 2048) with 2048. change (inject_Z 2) with 2.
    change (inject_Z 1) with 1. nra. }
  assert (Hz2 : inject_Z (2 * n * s) < inject_Z (2048 * w + s + 1)).
  { rewrite !inject_Z_plus, !inject_Z_mult. fold W S N.
    change (inject_Z 2048) with 2048. change (inject_Z 2) with 2.
    change (inject_Z 1) with 1. nra. }
  rewrite <- Zlt_Qlt in Hz1, Hz2.
  assert (Hi1 : inject_Z (2048 * w) <= inject_Z (2 * n * s + s))
    by (rewrite <- Zle_Qle; lia).
  assert (Hi2 : inject_Z (2 * n * s) <= inject_Z (2048 * w + s))
    by (rewrite <- Zle_Qle; lia).
  rewrite !inject_Z_plus, !inject_Z_mult in Hi1, Hi2.
  fold W S N in Hi1, Hi2.
  change (inject_Z 2048) with 2048 in Hi1, Hi2.
  change (inject_Z 2) with 2 in Hi1, Hi2.
  unfold nearest_integer. fold N. split; nra.
Qed.

Lemma canvasSize_small w h :
  (Z.min w h <= SHORT_EDGE_TARGET)%Z -> canvasSize w h = (w, h).
Proof.
  intros H. unfold canvasSize.
  destruct (Z.gtb_spec (Z.min w h) SHORT_EDGE_TARGET); [lia | reflexivity].
Qed.

Lemma canvasSize_large w h :
  (SHORT_EDGE_TARGET < Z.min w h)%Z ->
  canvasSize w h =
  (Math_round (mul (inject_Z w) (scale (Z.min w h))),
   Math_round (mul (inject_Z h) (scale (Z.min w h)))).
Proof.
  intros H. unfold canvasSize.
  destruct (Z.gtb_spec (Z.min w h) SHORT_EDGE_TARGET); [reflexivity | lia].
Qed.

Lemma canvasSize_short_edge w h :
  (SHORT_EDGE_TARGET < Z.min w h)%Z ->
  Z.min (fst (canvasSize w h)) (snd (canvasSize w h)) = SHORT_EDGE_TARGET.
Proof.
  intros H. rewrite (canvasSize_large w h H). cbn [fst snd].
  unfold SHORT_EDGE_TARGET in H.
  destruct (Z.min_spec w h) as [[Hlt ->]|[Hle ->]].
  - rewrite short_edge_scaled by lia.
    pose proof (long_edge_scaled w h). lia.
  - rewrite (short_edge_scaled h) by lia.
    pose proof (long_edge_scaled h w). lia.
Qed.

End TranscoderFacts.



(* ================================================================== *)
(** * Snapshot Serializer: what a run returns and what it shows *)
(* ================================================================== *)

Module SerializerFacts.
Import Async Serializer.

Section Run.
Context {S : Type}.
Variable B : Browser.
Variable onProgress : option (S -> S).

Lemma serializeTree_eq (node : FileNode) :
  serializeTree B onProgress node =
  (let serialized :=
     mkSerializedNode (id node) (name node) (path node) (type node)
                      [] None (isDeleted node) in
   serialized <- transcodeStep B onProgress node serialized ;;
   cs <- serializeChildren B onProgress (children node)
                           (s_children serialized) ;;
   Async.ret (set_s_children serialized cs))%async.
Proof. destruct node; reflexivity. Qed.

Lemma exported_eq node :
  exported node =
  match transcodable node with Some f => [f] | None => [] end
  ++ flat_map exported (children node).
Proof.
  unfold exported. destruct node as [i n p t cs f u d]. cbn [nodes children].
  cbn [flat_map]. f_equal.
  induction cs as [|c cs IH]; [reflexivity|].
  cbn [flat_map]. rewrite flat_map_app. now rewrite IH.
Qed.

Lemma called_add n m (s : S) :
  called onProgress m (called onProgress n s) = called onProgress (n + m) s.
Proof.
  unfold called. destruct onProgress as [cb|]; [|reflexivity].
  rewrite Nat.add_comm. symmetry. apply Nat.iter_add.
Qed.

(** The first [if]: the payload of the node, one call of the callback. *)
Lemma transcodeStep_run node i n p t cs d (w : World S) :
  transcodeStep B onProgress node (mkSerializedNode i n p t cs None d) w =
  (Returns (mkSerializedNode i n p t cs (payload B node) d),
   mkWorld (events w ++
            match transcodable node with
            | Some f => observed B onProgress f
            | None => []
            end)
           (called onProgress
                   (match transcodable node with Some _ => 1 | None => 0 end)
                   (caller w))).
Proof.
  unfold transcodeStep, payload, transcodable, observed, called.
  destruct w as [es s].
  destruct (type node);
    [|unfold ret; simpl; rewrite app_nil_r; now destruct onProgress].
  destruct (node_file node) as [f|];
    [|unfold ret; simpl; rewrite app_nil_r; now destruct onProgress].
  unfold transcode, try_catch, bind, start, emit, await, ret, call,
    set_thumbnailData.
  cbn [events caller subject outcome s_id s_name s_path s_type s_children
       s_isDeleted thumbnailData].
  destruct (Transcoder.processImageForExport B f) as [v|e];
    destruct onProgress as [cb|]; cbn [events caller];
    rewrite <- ?app_assoc; reflexivity.
Qed.

(** A run of [serializeTree] returns the snapshot of the tree, shows
    each file in turn, and calls the callback once per file. *)
Lemma serializeTree_run (node : FileNode) : forall w : World S,
  serializeTree B onProgress node w =
  (Returns (snapshot B node),
   mkWorld (events w ++ flat_map (observed B onProgress) (exported node))
           (called onProgress (length (exported node)) (caller w))).
Proof.
  induction node as [i n p t cs f u d IH] using FileNode_tree_ind.
  intros w. rewrite serializeTree_eq. cbv zeta.
  unfold bind at 1. rewrite transcodeStep_run.
  cbn [s_id s_name s_path s_type s_children s_isDeleted thumbnailData
       id name path type children isDeleted].
  rewrite (exported_eq (mkFileNode i n p t cs f u d)).
  cbn [children].
  set (node := mkFileNode i n p t cs f u d).
  set (own := match transcodable node with Some f0 => [f0] | None => [] end).
  assert (Hown : match transcodable node with
                 | Some f0 => observed B onProgress f0
                 | None => []
                 end = flat_map (observed B onProgress) own).
  { subst own. destruct (transcodable node); simpl;
      now rewrite ?app_nil_r. }
  assert (Hn : match transcodable node with Some _ => 1 | None => 0 end
               = List.length own).
  { subst own. now destruct (transcodable node). }
  rewrite Hown, Hn. clear Hown Hn.
  (* the loop over the children *)
  assert (Hloop : forall (pushed : list SerializedNode) (w0 : World S),
             serializeChildren B onProgress cs pushed w0 =
             (Returns (pushed ++ map (snapshot B) cs),
              mkWorld (events w0 ++
                       flat_map (observed B onProgress)
                                (flat_map exported cs))
                      (called onProgress
                              (length (flat_map exported cs))
                              (caller w0)))).
  { clear -IH. induction IH as [|c cs Hc _ IHcs]; intros pushed w0.
    - simpl. unfold ret. rewrite !app_nil_r.
      destruct w0; unfold called; destruct onProgress; reflexivity.
    - cbn [serializeChildren]. unfold bind at 1. rewrite Hc.
      fold (serializeChildren B onProgress).
      rewrite IHcs. cbn [events caller map flat_map].
      rewrite <- !app_assoc. cbn [app].
      rewrite flat_map_app, length_app, called_add, app_assoc.
      reflexivity. }
  unfold bind. rewrite Hloop. unfold ret, set_s_children.
  cbn [events caller s_id s_name s_path s_type s_children s_isDeleted
       thumbnailData app].
  rewrite flat_map_app, length_app, called_add, app_assoc.
  reflexivity.
Qed.

(** [serializeTree] never throws. *)
Corollary serializeTree_returns node (w : World S) :
  fst (serializeTree B onProgress node w) = Returns (snapshot B node).
Proof. now rewrite serializeTree_run. Qed.

End Run.

End SerializerFacts.

(* ================================================================== *)
(** * Ingestion Builder: every file node carries its file *)
(* ================================================================== *)

Module IngestedTrees.
Import Ingestion IngestionFacts.

#[local] Arguments walk : simpl never.

Lemma Ingested_folder i n p cs f u d :
  Forall Ingested cs -> Ingested (mkFileNode i n p folder cs f u d).
Proof. intros H. constructor; [discriminate | exact H]. Qed.

Lemma Ingested_push node c :
  Ingested node -> Ingested c -> Ingested (push_child node c).
Proof.
  intros Hn Hc. inversion Hn as [? Hdata Hall]; subst.
  constructor; [exact Hdata|]. simpl.
  apply Forall_app. split; [exact Hall | now constructor].
Qed.

Lemma walk_Ingested f parts : forall node,
  Ingested node -> Ingested (fst (walk f parts node)).
Proof.
  induction parts as [|part rest IH]; intros node Hnode; [exact Hnode|].
  destruct rest as [|part' rest].
  - rewrite walk_file. cbn [fst]. apply Ingested_push; [exact Hnode|].
    constructor; [|constructor]. intros _. simpl. eauto.
  - rewrite walk_folder.
    destruct (descend _ _ _) as [[cs pushed]|] eqn:Hd.
    + apply descend_Some in Hd
        as (before & c & after & Hcs & _ & _ & -> & _).
      inversion Hnode as [? Hdata Hall]; subst.
      constructor; [exact Hdata|]. simpl.
      rewrite Hcs in Hall. apply Forall_app in Hall as [Hb Hca].
      inversion Hca; subst.
      apply Forall_app. split; [exact Hb|].
      constructor; [now apply IH | assumption].
    + pose proof (IH (folderNode node part)) as Hsub.
      destruct (walk f (part' :: rest) (folderNode node part))
        as [sub pushed].
      cbn [fst] in *. apply Ingested_push; [exact Hnode|].
      apply Hsub. apply Ingested_folder. constructor.
Qed.

Lemma parseFilesToTree_Ingested files :
  Ingested (fst (parseFilesToTree files)).
Proof.
  unfold parseFilesToTree.
  assert (H : Ingested (fst (root, @nil FileNode)))
    by (apply Ingested_folder; constructor).
  revert H. generalize (root, @nil FileNode).
  induction files as [|f files IH]; intros st H; [exact H|].
  simpl. apply IH. unfold ingest. destruct (skipped f); [exact H|].
  pose proof (walk_Ingested f (pathParts f) (fst st) H) as Hw.
  destruct (walk f (pathParts f) (fst st)). exact Hw.
Qed.

(** In such a tree the transcoded files are as many as the file nodes. *)
Lemma Ingested_exported node :
  Ingested node ->
  List.length (exported node) = List.length (fileNodes node).
Proof.
  induction node as [i n p t cs f u d IH] using FileNode_tree_ind.
  intros H. inversion H as [? Hdata Hall]; subst. simpl in Hdata, Hall.
  rewrite SerializerFacts.exported_eq.
  unfold fileNodes. rewrite IngestedFiles.nodes_eq.
  cbn [children filter type]. rewrite length_app.
  assert (Hkids : List.length (flat_map exported cs) =
                  List.length
                    (filter (fun n => NodeType_eqb (type n) file)
                            (flat_map nodes cs))).
  { clear Hdata H. induction cs as [|c cs IHcs]; [reflexivity|].
    inversion IH; subst. inversion Hall; subst.
    cbn [flat_map]. rewrite filter_app, !length_app.
    f_equal; [now apply H1 | now apply IHcs]. }
  rewrite Hkids. unfold transcodable. cbn [type node_file].
  destruct t; [|reflexivity].
  destruct Hdata as [[f0 ->] _]; reflexivity.
Qed.

End IngestedTrees.

(* ================================================================== *)
(** * Snapshot Serializer: progress *)
(* ================================================================== *)

Module ProgressFacts.

Lemma progressCalls_app a b :
  progressCalls (a ++ b) = progressCalls a + progressCalls b.
Proof. unfold progressCalls. now rewrite filter_app, length_app. Qed.

Lemma progressCalls_observed {S} B (cb : S -> S) fs :
  progressCalls (flat_map (observed B (Some cb)) fs) = List.length fs.
Proof.
  induction fs as [|f fs IH]; [reflexivity|].
  cbn [flat_map]. rewrite progressCalls_app, IH. reflexivity.
Qed.

(** Each call of the callback of the share modal adds one to the count. *)
Lemma onProgress_counts totalFiles n st :
  ShareModal.processedCount (Nat.iter n (ShareModal.onProgress totalFiles) st)
  = (ShareModal.processedCount st + Z.of_nat n)%Z.
Proof.
  induction n as [|n IH]; [simpl; lia|].
  rewrite Nat.iter_succ. unfold ShareModal.onProgress at 1.
  cbn [ShareModal.processedCount]. rewrite IH. lia.
Qed.

End ProgressFacts.

(** C5, as stated, fails.  [a.png] cannot be read, so the snapshot of the
    tree built from [photos/a.png] holds an empty payload for it, and the
    tree restored from that snapshot has one file node, which carries no
    file; serializing the restored tree never calls the progress
    callback. *)
Lemma C5_file_node_without_file_reports_nothing :
  exists restored,
    roundTrip Scenario.browser (Some (ShareModal.onProgress 1))
              (fst (Ingestion.parseFilesToTree [Scenario.photos_a]))
              (Async.mkWorld [] Scenario.exporting)
    = Returns (restored, []) /\
    List.length (fileNodes restored) = 1 /\
    snd (Serializer.serializeTree Scenario.browser
           (Some (ShareModal.onProgress 1)) restored
           (Async.mkWorld [] Scenario.exporting))
    = Async.mkWorld [] Scenario.exporting.
Proof. eexists. repeat split. Qed.

(** C5, amended.  With [N] the number of file nodes that carry a file, a
    run of [serializeTree] adds to what is observed, for each such node in
    depth-first order, the start of its transcode, the settlement of that
    transcode and one call of the progress callback, and nothing else: the
    callback is called exactly [N] times, the count kept by the share modal
    grows by one per call, and folder nodes and file nodes without a file
    cause no call.  In a tree built by [parseFilesToTree] every file node
    carries a file, so there [N] is the number of file nodes. *)
Theorem C5_progress_once_per_transcoded_file :
  (forall (S : Type) (B : Browser) (cb : S -> S) (node : FileNode)
          (w : Async.World S),
      let w' := snd (Serializer.serializeTree B (Some cb) node w) in
      let N := List.length (exported node) in
      let reported :=
        flat_map (fun f => [TranscodeStarted f;
                            TranscodeSettled
                              f (Transcoder.processImageForExport B f);
                            ProgressReported])
                 (exported node) in
      Async.events w' = Async.events w ++ reported /\
      progressCalls reported = N /\
      Async.caller w' = Nat.iter N cb (Async.caller w)) /\
  (forall (totalFiles : Z) (n : nat) (st : ShareModal.State),
      ShareModal.processedCount
        (Nat.iter (Datatypes.S n) (ShareModal.onProgress totalFiles) st)
      = (ShareModal.processedCount
           (Nat.iter n (ShareModal.onProgress totalFiles) st) + 1)%Z) /\
  (forall files : list File,
      let tree := fst (Ingestion.parseFilesToTree files) in
      List.length (exported tree) = List.length (fileNodes tree)).
Proof.
  split; [|split].
  - intros S B cb node w. cbv zeta.
    rewrite SerializerFacts.serializeTree_run. cbn [snd Async.events Async.caller].
    repeat split.
    apply (ProgressFacts.progressCalls_observed B cb).
  - intros totalFiles n st. rewrite !ProgressFacts.onProgress_counts. lia.
  - intros files. apply IngestedTrees.Ingested_exported.
    apply IngestedTrees.parseFilesToTree_Ingested.
Qed.

(* ================================================================== *)
(** * Snapshot Serializer: one transcode at a time *)
(* ================================================================== *)

Module SequentialFacts.

Section Observed.
Context {S : Type}.
Variable B : Browser.
Variable onProgress : option (S -> S).

(** Handling one file leaves as many transcodes in flight as before. *)
Lemma inFlight_observed n f rest :
  inFlight n (observed B onProgress f ++ rest) = inFlight n rest.
Proof. unfold observed. destruct onProgress; reflexivity. Qed.

Lemma inFlight_settled fs : inFlight 0 (flat_map (observed B onProgress) fs) = 0.
Proof.
  induction fs as [|f fs IH]; [reflexivity|].
  cbn [flat_map]. now rewrite inFlight_observed.
Qed.

(** At no moment of the run is a second transcode in flight. *)
Lemma inFlight_prefix fs : forall k,
  inFlight 0 (firstn k (flat_map (observed B onProgress) fs)) <= 1.
Proof.
  induction fs as [|f fs IH]; intros k.
  - rewrite firstn_nil. simpl. lia.
  - cbn [flat_map]. unfold observed at 1.
    destruct k as [|[|k]]; [simpl; lia | simpl; lia |].
    destruct onProgress as [cb|].
    + destruct k as [|k]; [simpl; lia|]. apply (IH k).
    + apply (IH k).
Qed.

(** A transcode that starts settles before anything else happens. *)
Lemma started_then_settled fs : forall before f after,
  flat_map (observed B onProgress) fs = before ++ TranscodeStarted f :: after ->
  exists r after', after = TranscodeSettled f r :: after'.
Proof.
  induction fs as [|g fs IH]; intros before f after H.
  - destruct before; discriminate.
  - cbn [flat_map] in H. unfold observed at 1 in H.
    destruct before as [|e1 before].
    + inversion H; subst. eauto.
    + destruct before as [|e2 before]; [discriminate|].
      destruct onProgress as [cb|].
      * destruct before as [|e3 before]; [discriminate|].
        inversion H; subst. eapply IH; eauto.
      * inversion H; subst. eapply IH; eauto.
Qed.

End Observed.

(** The order is the serializer's doing and not the monad's: a caller
    that starts a second transcode before it awaits the first has two in
    flight. *)
Lemma starts_can_overlap {S} (f g : File) (r q : Completion string)
      (w : Async.World S) :
  exists added : list Event,
    Async.events
      (snd ((p1 <- Async.start f r ;;
             p2 <- Async.start g q ;;
             v1 <- Async.await p1 ;;
             Async.await p2)%async w))
    = Async.events w ++ added /\
    inFlight 0 (firstn 2 added) = 2.
Proof.
  destruct w as [es s]. unfold Async.bind, Async.start, Async.await.
  cbn [Async.events Async.caller Async.subject Async.outcome snd].
  destruct r as [v|e]; cbn [Async.events snd]; rewrite <- !app_assoc;
    eexists; (split; [reflexivity|]); reflexivity.
Qed.

End SequentialFacts.

(** C9.  A run of [serializeTree] performs its transcodes strictly one
    after the other: in what it adds to the observed events, every call
    that starts a transcode is followed at once by the [await] that
    observes the result or the failure of that same transcode, so that
    after any number of events at most one transcode has started without
    having been observed, and none has at the end.  A caller is free to
    do otherwise ([SequentialFacts.starts_can_overlap]); [serializeTree]
    never does. *)
Theorem C9_one_transcode_in_flight :
  forall (S : Type) (B : Browser) (onProgress : option (S -> S))
         (node : FileNode) (w : Async.World S),
  exists added : list Event,
    Async.events (snd (Serializer.serializeTree B onProgress node w))
    = Async.events w ++ added /\
    (forall before f after,
        added = before ++ TranscodeStarted f :: after ->
        exists r after', after = TranscodeSettled f r :: after') /\
    (forall k, inFlight 0 (firstn k added) <= 1) /\
    inFlight 0 added = 0.
Proof.
  intros S B onProgress node w.
  exists (flat_map (observed B onProgress) (exported node)).
  rewrite SerializerFacts.serializeTree_run. cbn [snd Async.events].
  split; [reflexivity|]. split; [|split].
  - apply SequentialFacts.started_then_settled.
  - apply SequentialFacts.inFlight_prefix.
  - apply SequentialFacts.inFlight_settled.
Qed.

Lemma C9_witness_two_files :
  exists added : list Event,
    Async.events
      (snd (Serializer.serializeTree Scenario.browser (Some Datatypes.S)
              (fst (Ingestion.parseFilesToTree
                      [Scenario.photos_a; Scenario.photos_sub_b]))
              (Async.mkWorld [] 0)))
    = [] ++ added /\
    (forall k, inFlight 0 (firstn k added) <= 1) /\
    inFlight 0 added = 0.
Proof.
  destruct (C9_one_transcode_in_flight nat Scenario.browser
              (Some Datatypes.S)
              (fst (Ingestion.parseFilesToTree
                      [Scenario.photos_a; Scenario.photos_sub_b]))
              (Async.mkWorld [] 0))
    as (added & Hadded & _ & Hprefix & Hend).
  exists added. repeat split; assumption.
Defined.

(* ================================================================== *)
(** * Snapshot Serializer: payloads and flags, node for node *)
(* ================================================================== *)

Module SnapshotFacts.

(** The nodes of the snapshot are the snapshots of the nodes. *)
Lemma s_nodes_snapshot B node :
  s_nodes (snapshot B node) = map (snapshot B) (nodes node).
Proof.
  induction node as [i n p t cs f u d IH] using FileNode_tree_ind.
  cbn [snapshot s_nodes nodes s_children children map]. f_equal.
  induction IH as [|c cs Hc _ IHcs]; [reflexivity|].
  cbn [map flat_map]. now rewrite map_app, Hc, IHcs.
Qed.

Lemma failure_is_empty B f :
  TranscodeFailure B f -> Transcoder.processImageForExport B f = Returns "".
Proof.
  unfold Transcoder.processImageForExport.
  intros [Hr | src Hr Hd | src w h Hr Hd Hc]; rewrite Hr; [reflexivity| |];
    rewrite Hd; [reflexivity|].
  destruct (Transcoder.canvasSize w h) as [width height].
  cbn [fst snd] in Hc. now rewrite Hc.
Qed.

Lemma success_is_encoded B f data :
  TranscodeSuccess B f data ->
  Transcoder.processImageForExport B f = Returns data.
Proof.
  unfold Transcoder.processImageForExport.
  intros [src w h Hr Hd Hc ->]. rewrite Hr, Hd.
  destruct (Transcoder.canvasSize w h) as [width height].
  cbn [fst snd] in *. now rewrite Hc.
Qed.

(** The transcoder throws only when reading the file does. *)
Lemma throws_is_reader B f e :
  Transcoder.processImageForExport B f = Throws e ->
  readAsDataURL B f = ReaderThrows e.
Proof.
  unfold Transcoder.processImageForExport.
  destruct (readAsDataURL B f) as [e'| |src]; [congruence|discriminate|].
  destruct (decodeImage B src) as [[w h]|]; [|discriminate].
  destruct (Transcoder.canvasSize w h) as [width height].
  destruct (getContext2d B width height); discriminate.
Qed.

Lemma payload_failure B n f :
  transcodable n = Some f -> TranscodeFailure B f ->
  thumbnailData (snapshot B n) = Some "".
Proof.
  intros Hf Hfail. destruct n. cbn [snapshot thumbnailData].
  unfold payload. rewrite Hf. now rewrite (failure_is_empty B f Hfail).
Qed.

Lemma payload_success B n f data :
  transcodable n = Some f -> TranscodeSuccess B f data ->
  thumbnailData (snapshot B n) = Some data.
Proof.
  intros Hf Hok. destruct n. cbn [snapshot thumbnailData].
  unfold payload. rewrite Hf. now rewrite (success_is_encoded B f data Hok).
Qed.

Lemma payload_not_encoded B n f :
  transcodable n = Some f -> EncodeFailure B f ->
  thumbnailData (snapshot B n) = Some nothing_encoded.
Proof.
  intros Hf [src w h Hr Hd Hc He]. destruct n. cbn [snapshot thumbnailData].
  unfold payload. rewrite Hf. unfold Transcoder.processImageForExport.
  rewrite Hr, Hd.
  destruct (Transcoder.canvasSize w h) as [width height].
  cbn [fst snd] in *. now rewrite Hc, He.
Qed.

Lemma payload_thrown B n f e :
  transcodable n = Some f ->
  Transcoder.processImageForExport B f = Throws e ->
  thumbnailData (snapshot B n) = None.
Proof.
  intros Hf He. destruct n. cbn [snapshot thumbnailData].
  unfold payload. now rewrite Hf, He.
Qed.

Lemma payload_present B n :
  thumbnailData (snapshot B n) <> None <->
  exists f v, transcodable n = Some f /\
              Transcoder.processImageForExport B f = Returns v.
Proof.
  destruct n as [i n p t cs f u d]. cbn [snapshot thumbnailData].
  unfold payload.
  destruct (transcodable _) as [f0|].
  - destruct (Transcoder.processImageForExport B f0) as [v|e] eqn:Hp.
    + split; [intros _; eauto | discriminate].
    + split; [congruence|]. intros (f1 & v & E & H). congruence.
  - split; [congruence|]. intros (f1 & v & E & H). discriminate.
Qed.

(** The members of the object written for a node. *)
Lemma field_isDeleted s :
  Json.field (Json.JSON_stringify s) "isDeleted"
  = option_map Json.JBool (s_isDeleted s).
Proof.
  destruct s as [i n p t cs th d]. cbn [Json.JSON_stringify Json.field].
  cbn [s_id s_name s_path s_type s_children thumbnailData s_isDeleted].
  destruct d, th; reflexivity.
Qed.

Lemma field_thumbnailData s :
  Json.field (Json.JSON_stringify s) "thumbnailData"
  = option_map Json.JString (thumbnailData s).
Proof.
  destruct s as [i n p t cs th d]. cbn [Json.JSON_stringify Json.field].
  cbn [s_id s_name s_path s_type s_children thumbnailData s_isDeleted].
  destruct d, th; reflexivity.
Qed.

Lemma field_children s :
  Json.field (Json.JSON_stringify s) "children"
  = Some (Json.JArray (map Json.JSON_stringify (s_children s))).
Proof.
  destruct s as [i n p t cs th d]. cbn [Json.JSON_stringify Json.field].
  cbn [s_id s_name s_path s_type s_children thumbnailData s_isDeleted].
  destruct d, th; reflexivity.
Qed.

Lemma snapshot_FlagMirrored B node : FlagMirrored node (snapshot B node).
Proof.
  induction node as [i n p t cs f u d IH] using FileNode_tree_ind.
  constructor; [reflexivity|]. cbn [children snapshot s_children].
  induction IH; constructor; auto.
Qed.

Lemma snapshot_DocFlagMirrored B node :
  DocFlagMirrored node (Json.JSON_stringify (snapshot B node)).
Proof.
  induction node as [i n p t cs f u d IH] using FileNode_tree_ind.
  econstructor.
  - rewrite field_isDeleted. reflexivity.
  - apply field_children.
  - cbn [children snapshot s_children].
    induction IH; constructor; auto.
Qed.

End SnapshotFacts.

(** C6, as stated, fails: with an encoder that cannot encode, the
    transcode of [b.png] fails by an encode error, and the serialized node
    of [b.png] does not have the empty payload: it has the text the
    encoder returned. *)
Lemma C6_encode_error_payload_is_not_empty :
  let node :=
    Ingestion.fileNode Ingestion.root "b.png" Scenario.photos_sub_b in
  EncodeFailure Scenario.failing_encoder Scenario.photos_sub_b /\
  exists s,
    fst (Serializer.serializeTree Scenario.failing_encoder
           (Some Datatypes.S) node (Async.mkWorld [] 0)) = Returns s /\
    thumbnailData s = Some "data:," /\
    thumbnailData s <> Some "".
Proof.
  cbv zeta. split.
  - apply (encode_error _ _ "bytes of b" 2000%Z 1500%Z); reflexivity.
  - eexists. split; [reflexivity|]. split; [reflexivity | discriminate].
Qed.

(** C6, amended.  Whatever happens to single files, [serializeTree]
    returns: its result is the snapshot of the whole tree, node for node,
    and every file that a node carries is transcoded in its turn.  A file
    that cannot be read, whose bytes are not an image, or whose canvas has
    no rendering context leaves its own node with the empty payload; a
    file whose canvas cannot be encoded leaves its own node with the text
    the encoder returned, which is not empty; a file whose transcoder call
    throws leaves its own node without payload; and a file whose transcode
    succeeds has the encoder's output as payload, whatever became of the
    other files. *)
Theorem C6_file_failure_never_aborts_walk :
  forall (S : Type) (B : Browser) (onProgress : option (S -> S))
         (node : FileNode) (w : Async.World S),
    let run := Serializer.serializeTree B onProgress node w in
    fst run = Returns (snapshot B node) /\
    s_nodes (snapshot B node) = map (snapshot B) (nodes node) /\
    Async.events (snd run)
    = Async.events w ++ flat_map (observed B onProgress) (exported node) /\
    (forall n f,
        transcodable n = Some f -> TranscodeFailure B f ->
        thumbnailData (snapshot B n) = Some "") /\
    (forall n f,
        transcodable n = Some f -> EncodeFailure B f ->
        thumbnailData (snapshot B n) = Some "data:,") /\
    (forall n f e,
        transcodable n = Some f ->
        Transcoder.processImageForExport B f = Throws e ->
        thumbnailData (snapshot B n) = None) /\
    (forall n f data,
        transcodable n = Some f -> TranscodeSuccess B f data ->
        thumbnailData (snapshot B n) = Some data).
Proof.
  intros S B onProgress node w. cbv zeta.
  rewrite SerializerFacts.serializeTree_run. cbn [fst snd Async.events].
  split; [reflexivity|]. split; [apply SnapshotFacts.s_nodes_snapshot|].
  split; [reflexivity|]. split; [|split; [|split]].
  - apply SnapshotFacts.payload_failure.
  - apply SnapshotFacts.payload_not_encoded.
  - apply SnapshotFacts.payload_thrown.
  - apply SnapshotFacts.payload_success.
Qed.

Lemma C6_witness_a_fails_b_is_kept :
  let tree := fst (Ingestion.parseFilesToTree
                     [Scenario.photos_a; Scenario.photos_sub_b]) in
  let photos := mkFileNode "/photos" "photos" "photos" folder [] None None None in
  let sub := mkFileNode "photos/sub" "sub" "photos/sub" folder [] None None None in
  fst (Serializer.serializeTree Scenario.browser (Some Datatypes.S) tree
         (Async.mkWorld [] 0))
  = Returns (snapshot Scenario.browser tree) /\
  thumbnailData
    (snapshot Scenario.browser
       (Ingestion.fileNode photos "a.png" Scenario.photos_a)) = Some "" /\
  thumbnailData
    (snapshot Scenario.browser
       (Ingestion.fileNode sub "b.png" Scenario.photos_sub_b))
  = Some "data:image/jpeg;base64,QUJD" /\
  thumbnailData
    (snapshot Scenario.failing_encoder
       (Ingestion.fileNode sub "b.png" Scenario.photos_sub_b))
  = Some "data:,".
Proof.
  cbv zeta.
  pose proof (C6_file_failure_never_aborts_walk nat Scenario.browser
                (Some Datatypes.S)
                (fst (Ingestion.parseFilesToTree
                        [Scenario.photos_a; Scenario.photos_sub_b]))
                (Async.mkWorld [] 0))
    as (Hrun & _ & _ & Hfail & _ & _ & Hok).
  pose proof (C6_file_failure_never_aborts_walk nat Scenario.failing_encoder
                (Some Datatypes.S)
                (fst (Ingestion.parseFilesToTree
                        [Scenario.photos_a; Scenario.photos_sub_b]))
                (Async.mkWorld [] 0))
    as (_ & _ & _ & _ & Hencode & _).
  split; [exact Hrun|]. split; [|split].
  - apply (Hfail _ Scenario.photos_a); [reflexivity|].
    apply read_error. reflexivity.
  - apply (Hok _ Scenario.photos_sub_b); [reflexivity|].
    apply (encoded _ _ _ "bytes of b" 2000%Z 1500%Z); reflexivity.
  - apply (Hencode _ Scenario.photos_sub_b); [reflexivity|].
    apply (encode_error _ _ "bytes of b" 2000%Z 1500%Z); reflexivity.
Defined.

(** C3, as stated, fails: [a.png] cannot be read, so its transcode fails,
    and the serialized node of [a.png] has a [thumbnailData], the empty
    text, which the document written for it has too. *)
Lemma C3_failed_transcode_has_thumbnailData :
  let node := Ingestion.fileNode Ingestion.root "a.png" Scenario.photos_a in
  TranscodeFailure Scenario.browser Scenario.photos_a /\
  exists s,
    fst (Serializer.serializeTree Scenario.browser (Some Datatypes.S) node
           (Async.mkWorld [] 0)) = Returns s /\
    thumbnailData s = Some "" /\
    Json.field (Json.JSON_stringify s) "thumbnailData"
    = Some (Json.JString "").
Proof.
  cbv zeta. split; [apply read_error; reflexivity|].
  eexists. repeat split.
Qed.

(** C3, amended.  In the serialized output a node has a [thumbnailData]
    exactly when it is a file node that carries a file and the call of the
    transcoder for that file did not throw.  When the transcode fails
    without throwing (the file cannot be read, its bytes are not an image,
    the canvas has no rendering context) the field is there and holds the
    empty text; when it succeeds the field holds what the encoder wrote;
    only when the call throws has the node no [thumbnailData].  The
    document written for the node has the member exactly when the node has
    the field. *)
Theorem C3_thumbnailData_presence :
  forall (S : Type) (B : Browser) (onProgress : option (S -> S))
         (node : FileNode) (w : Async.World S),
    fst (Serializer.serializeTree B onProgress node w)
    = Returns (snapshot B node) /\
    s_nodes (snapshot B node) = map (snapshot B) (nodes node) /\
    forall n : FileNode,
      (thumbnailData (snapshot B n) <> None <->
       exists f v, transcodable n = Some f /\
                   Transcoder.processImageForExport B f = Returns v) /\
      (forall f, transcodable n = Some f -> TranscodeFailure B f ->
                 thumbnailData (snapshot B n) = Some "") /\
      (forall f data, transcodable n = Some f -> TranscodeSuccess B f data ->
                      thumbnailData (snapshot B n) = Some data) /\
      (forall f e, transcodable n = Some f ->
                   Transcoder.processImageForExport B f = Throws e ->
                   thumbnailData (snapshot B n) = None) /\
      Json.field (Json.JSON_stringify (snapshot B n)) "thumbnailData"
      = option_map Json.JString (thumbnailData (snapshot B n)).
Proof.
  intros S B onProgress node w.
  split; [apply SerializerFacts.serializeTree_returns|].
  split; [apply SnapshotFacts.s_nodes_snapshot|].
  intros n. split; [apply SnapshotFacts.payload_present|].
  split; [apply SnapshotFacts.payload_failure|].
  split; [apply SnapshotFacts.payload_success|].
  split; [apply SnapshotFacts.payload_thrown|].
  apply SnapshotFacts.field_thumbnailData.
Qed.

Lemma C3_witness_unreadable_file :
  let node := Ingestion.fileNode Ingestion.root "a.png" Scenario.photos_a in
  thumbnailData (snapshot Scenario.browser node) = Some "" /\
  Json.field (Json.JSON_stringify (snapshot Scenario.browser node))
             "thumbnailData" = Some (Json.JString "").
Proof.
  cbv zeta.
  destruct (C3_thumbnailData_presence nat Scenario.browser
              (Some Datatypes.S)
              (Ingestion.fileNode Ingestion.root "a.png" Scenario.photos_a)
              (Async.mkWorld [] 0)) as (_ & _ & Hnode).
  destruct (Hnode (Ingestion.fileNode Ingestion.root "a.png"
                                      Scenario.photos_a))
    as (_ & Hfail & _ & _ & Hdoc).
  assert (Hempty :
            thumbnailData
              (snapshot Scenario.browser
                 (Ingestion.fileNode Ingestion.root "a.png"
                                     Scenario.photos_a)) = Some "").
  { apply (Hfail Scenario.photos_a); [reflexivity|].
    apply read_error. reflexivity. }
  split; [exact Hempty|]. rewrite Hdoc, Hempty. reflexivity.
Defined.

(* ================================================================== *)
(** * The export trigger: the document written *)
(* ================================================================== *)

Module ExportFacts.

Lemma handleGenerateSnapshot_ready B root totalFiles st :
  let after := fst (ShareModal.handleGenerateSnapshot
                      B (Some root) totalFiles st) in
  ShareModal.step after = ShareModal.ready /\
  ShareModal.downloadUrl after
  = Some (Json.JSON_stringify (snapshot B root)) /\
  ShareModal.alerts after = ShareModal.alerts st /\
  ShareModal.processedCount after = Z.of_nat (List.length (exported root)).
Proof.
  cbv zeta. unfold ShareModal.handleGenerateSnapshot.
  rewrite SerializerFacts.serializeTree_run.
  cbn [fst snd Async.caller Async.events ShareModal.step
       ShareModal.downloadUrl ShareModal.alerts ShareModal.processedCount
       called].
  repeat split.
  - generalize (List.length (exported root)). intros n.
    induction n as [|n IH]; [reflexivity|].
    rewrite Nat.iter_succ. exact IH.
  - rewrite ProgressFacts.onProgress_counts. simpl. lia.
Qed.

End ExportFacts.

(** C2, as stated, fails: the root that [parseFilesToTree] makes is a
    folder without an [isDeleted], and the document the share modal
    offers for it has no [isDeleted] member. *)
Lemma C2_ingested_folder_has_no_isDeleted_member :
  let tree := fst (Ingestion.parseFilesToTree []) in
  exists doc,
    ShareModal.downloadUrl
      (fst (ShareModal.handleGenerateSnapshot Scenario.browser (Some tree) 0
              (ShareModal.mkState ShareModal.idle (Some 0%Z) None [] 0)))
    = Some doc /\
    Json.field doc "isDeleted" = None /\
    ~ DocFlagPresent doc.
Proof.
  cbv zeta. eexists. split; [reflexivity|]. split; [reflexivity|].
  intros H. inversion H as [doc b items Hflag Hkids Hall Hdoc].
  discriminate Hflag.
Qed.

(** C2, amended.  The serialized tree carries, at every node, folder or
    file, the [isDeleted] of the live node as it is when [serializeTree]
    runs.  The document written from it has an [isDeleted] member at the
    nodes whose live node has the flag set to [true] or [false] (the file
    nodes the builder makes, every node the deserializer restores, every
    node a deletion was toggled on), with that value, and has no such
    member at the nodes whose live node has none (the folders the builder
    makes). *)
Theorem C2_isDeleted_mirrors_live_tree :
  (forall (S : Type) (B : Browser) (onProgress : option (S -> S))
          (node : FileNode) (w : Async.World S),
      exists s,
        fst (Serializer.serializeTree B onProgress node w) = Returns s /\
        FlagMirrored node s /\
        DocFlagMirrored node (Json.JSON_stringify s)) /\
  (forall (B : Browser) (root : FileNode) (totalFiles : Z)
          (st : ShareModal.State),
      exists doc,
        ShareModal.downloadUrl
          (fst (ShareModal.handleGenerateSnapshot B (Some root) totalFiles st))
        = Some doc /\
        DocFlagMirrored root doc).
Proof.
  split.
  - intros S B onProgress node w. exists (snapshot B node).
    split; [apply SerializerFacts.serializeTree_returns|].
    split; [apply SnapshotFacts.snapshot_FlagMirrored|].
    apply SnapshotFacts.snapshot_DocFlagMirrored.
  - intros B root totalFiles st.
    destruct (ExportFacts.handleGenerateSnapshot_ready B root totalFiles st)
      as (_ & Hdoc & _).
    eexists. split; [exact Hdoc|].
    apply SnapshotFacts.snapshot_DocFlagMirrored.
Qed.

(* ================================================================== *)
(** * Serialize, then deserialize *)
(* ================================================================== *)

Module RoundTripFacts.
Import Deserializer.

Lemma deserializeTree_eq B node :
  deserializeTree B node =
  (let restoredNode :=
     mkFileNode (s_id node) (s_name node) (s_path node) (s_type node)
                [] None None (Some (orFalse (s_isDeleted node))) in
   '(restoredNode, viewable) <-
      match hasThumbnail node with
      | Some data =>
          blob <- base64ToBlob B data ;;
          Returns
            (mkFileNode (id restoredNode) (name restoredNode)
                        (path restoredNode) (type restoredNode)
                        (children restoredNode)
                        (Some (mkFile (s_name node) "" (blob_type blob)
                                      (blob_bytes blob)))
                        (Some (UrlOfBlob blob))
                        (isDeleted restoredNode),
             true)
      | None => Returns (restoredNode, false)
      end ;;
   '(cs, pushedBelow) <-
      deserializeChildren B (s_children node) (children restoredNode) [] ;;
   let restoredNode := set_children restoredNode cs in
   Returns (restoredNode,
            (if viewable : bool then [restoredNode] else []) ++ pushedBelow)
  )%sync.
Proof. destruct node; reflexivity. Qed.

(** A payload the deserializer decodes was written by the encoder. *)
Lemma hasThumbnail_encoded B node data :
  hasThumbnail (snapshot B node) = Some data ->
  exists src width height, data = toDataURL B src width height.
Proof.
  destruct node as [i n p t cs f u d].
  unfold hasThumbnail. cbn [snapshot s_type thumbnailData].
  unfold payload, transcodable. cbn [type node_file].
  destruct t; [|discriminate]. destruct f as [f|]; [|discriminate].
  unfold Transcoder.processImageForExport.
  destruct (readAsDataURL B f) as [e| |src]; try discriminate.
  destruct (decodeImage B src) as [[w h]|]; [|discriminate].
  destruct (Transcoder.canvasSize w h) as [width height].
  destruct (getContext2d B width height); [|discriminate].
  destruct (JsString.truthy _); [|discriminate].
  intros E. inversion E. eauto.
Qed.

Lemma base64ToBlob_returns B src width height :
  DecodesOwnPayloads B ->
  exists blob, base64ToBlob B (toDataURL B src width height) = Returns blob.
Proof.
  intros H. unfold base64ToBlob. specialize (H src width height).
  destruct (atob B _) as [bstr|]; [eauto | congruence].
Qed.

Section Restored.
Variable B : Browser.
Hypothesis decodes : DecodesOwnPayloads B.

Let flag (a b : FileNode) : Prop :=
  isDeleted b = Some (orFalse (isDeleted a)).

(** The snapshot of any tree deserializes, into a tree with the data
    of the original and [false] where the original had no flag. *)
Lemma deserialize_snapshot (node : FileNode) :
  exists r pushed,
    deserializeTree B (snapshot B node) = Returns (r, pushed) /\
    Mirrors flag node r.
Proof.
  induction node as [i n p t cs f u d IH] using FileNode_tree_ind.
  set (node := mkFileNode i n p t cs f u d).
  assert (Hloop : forall restored pushed,
             exists cs' pushed',
               deserializeChildren B (map (snapshot B) cs) restored pushed
               = Returns (restored ++ cs', pushed') /\
               Forall2 (Mirrors flag) cs cs').
  { clear node. induction IH as [|c cs Hc _ IHcs]; intros restored pushed.
    - exists [], pushed. rewrite app_nil_r. split; [reflexivity|constructor].
    - destruct Hc as (r & pc & Hr & Hm).
      destruct (IHcs (restored ++ [r]) (pushed ++ pc))
        as (cs' & pushed' & Hcs & Hall).
      exists (r :: cs'), pushed'. split; [|now constructor].
      cbn [map deserializeChildren]. rewrite Hr. cbn [Sync.bind].
      fold (deserializeChildren B). rewrite Hcs.
      now rewrite <- app_assoc. }
  assert (Hkids : s_children (snapshot B node) = map (snapshot B) cs)
    by reflexivity.
  rewrite deserializeTree_eq. cbv zeta.
  destruct (hasThumbnail (snapshot B node)) as [data|] eqn:Hthumb.
  - destruct (hasThumbnail_encoded B node data Hthumb)
      as (src & width & height & ->).
    destruct (base64ToBlob_returns B src width height decodes)
      as (blob & ->).
    cbn [Sync.bind children]. rewrite Hkids.
    destruct (Hloop [] []) as (cs' & pushed' & -> & Hall).
    cbn [Sync.bind app]. eexists _, _. split; [reflexivity|].
    subst node. constructor; simpl; auto. reflexivity.
  - cbn [Sync.bind children]. rewrite Hkids.
    destruct (Hloop [] []) as (cs' & pushed' & -> & Hall).
    cbn [Sync.bind app]. eexists _, _. split; [reflexivity|].
    subst node. constructor; simpl; auto. reflexivity.
Qed.

(** In a tree of the builder the flag of a file node comes back as it
    was. *)
Lemma Mirrors_Ingested a b :
  Ingested a -> Mirrors flag a b -> Mirrors restoredFlag a b.
Proof.
  revert b.
  induction a as [i n p t cs f u d IH] using FileNode_tree_ind.
  intros b Hing Hm. inversion Hing as [? Hdata Hall]; subst.
  inversion Hm as [? ? Hi Hn Hp Ht Hflag Hkids]; subst.
  cbn [children type isDeleted] in *.
  constructor; auto.
  - split; [exact Hflag|]. cbn [type isDeleted]. intros Hfile.
    destruct (Hdata Hfile) as [_ Hd]. unfold flag in Hflag.
    cbn [isDeleted] in Hflag. rewrite Hflag, Hd. reflexivity.
  - cbn [children]. clear -IH Hall Hkids.
    revert IH Hall. induction Hkids as [|c c' cs cs' Hc _ IHk];
      intros IH Hall; constructor.
    + inversion IH; subst. inversion Hall; subst. auto.
    + inversion IH; subst. inversion Hall; subst. auto.
Qed.

End Restored.

End RoundTripFacts.

(** C1, as stated, fails: the root of a tree of the builder has no
    [isDeleted], and the root that comes back from the round trip has
    [isDeleted] [false]. *)
Lemma C1_restored_folder_gains_isDeleted :
  let tree := fst (Ingestion.parseFilesToTree []) in
  exists r pushed,
    roundTrip Scenario.browser (Some Datatypes.S) tree (Async.mkWorld [] 0)
    = Returns (r, pushed) /\
    isDeleted tree = None /\
    isDeleted r = Some false /\
    ~ Mirrors sameFlag tree r.
Proof.
  cbv zeta. eexists _, _. split; [reflexivity|].
  split; [reflexivity|]. split; [reflexivity|].
  intros H. inversion H as [a b Hi Hn Hp Ht Hflag Hkids Ha Hb].
  discriminate Hflag.
Qed.

(** C1, amended.  For a browser whose [atob] decodes the payloads its
    canvas encoder writes, and every tree built by [parseFilesToTree]:
    serializing the tree and deserializing the result returns a tree that
    has, node for node and with the children of every folder in the same
    order, the [id], [name], [path] and [type] of the original; the
    [isDeleted] of every file node is the one of the original, and where
    the original has none, as on the folders, the restored node has
    [false]. *)
Theorem C1_round_trip_restores_tree :
  forall (S : Type) (B : Browser) (onProgress : option (S -> S))
         (files : list File) (w : Async.World S),
    DecodesOwnPayloads B ->
    let tree := fst (Ingestion.parseFilesToTree files) in
    exists r pushed,
      roundTrip B onProgress tree w = Returns (r, pushed) /\
      Mirrors restoredFlag tree r.
Proof.
  intros S B onProgress files w Hdec. cbv zeta. unfold roundTrip.
  rewrite SerializerFacts.serializeTree_returns. cbn [Sync.bind].
  destruct (RoundTripFacts.deserialize_snapshot
              B Hdec (fst (Ingestion.parseFilesToTree files)))
    as (r & pushed & Hr & Hm).
  exists r, pushed. split; [exact Hr|].
  apply RoundTripFacts.Mirrors_Ingested; [|exact Hm].
  apply IngestedTrees.parseFilesToTree_Ingested.
Qed.

Lemma C1_witness_two_photos :
  DecodesOwnPayloads Scenario.browser /\
  exists r pushed,
    roundTrip Scenario.browser (Some Datatypes.S)
      (fst (Ingestion.parseFilesToTree
              [Scenario.photos_a; Scenario.photos_sub_b]))
      (Async.mkWorld [] 0)
    = Returns (r, pushed) /\
    Mirrors restoredFlag
      (fst (Ingestion.parseFilesToTree
              [Scenario.photos_a; Scenario.photos_sub_b])) r.
Proof.
  assert (Hdec : DecodesOwnPayloads Scenario.browser)
    by (intros src width height; vm_compute; discriminate).
  split; [exact Hdec|].
  apply (C1_round_trip_restores_tree nat Scenario.browser
           (Some Datatypes.S) [Scenario.photos_a; Scenario.photos_sub_b]
           (Async.mkWorld [] 0) Hdec).
Defined.

(* ================================================================== *)
(** * The import trigger: what is refused and what is not *)
(* ================================================================== *)

Module ImportFacts.
Import Importer.

(** Text that is not JSON is refused. *)
Lemma handleImport_not_json B json st :
  JSON_parse B json = None -> ImportRefused st (handleImport B json st).
Proof.
  intros H. unfold handleImport. rewrite H. repeat split.
Qed.

(** Whatever makes [deserializeTree] throw is refused. *)
Lemma handleImport_throws B json doc e st :
  JSON_parse B json = Some doc ->
  deserializeTree B doc = Throws e ->
  ImportRefused st (handleImport B json st).
Proof.
  intros Hp Hd. unfold handleImport. rewrite Hp, Hd. repeat split.
Qed.

(** The document [null] is refused. *)
Lemma deserializeTree_null B : deserializeTree B Json.JNull = Throws TypeError.
Proof. reflexivity. Qed.

(** A document that is an object without any member is not refused: a
    node whose [id], [name], [path] and [type] are undefined is made of
    it. *)
Lemma deserializeTree_empty_object B :
  deserializeTree B (Json.JObject [])
  = Returns (mkRestored None None None None [] None None (Json.JBool false),
             []).
Proof. reflexivity. Qed.

(** Nor is a document that is a number, a text, a boolean or an array. *)
Lemma deserializeTree_not_object B doc :
  match doc with
  | Json.JNull | Json.JObject _ => True
  | _ =>
      deserializeTree B doc
      = Returns (mkRestored None None None None [] None None
                            (Json.JBool false), [])
  end.
Proof. destruct doc; reflexivity || exact I. Qed.

Lemma empty_object_not_WellShaped : ~ WellShaped (Json.JObject []).
Proof.
  intros H. inversion H as [doc i n p t items Hid Hn Hp Ht Hc Hall Hdoc].
  discriminate Hid.
Qed.

End ImportFacts.

(** C8, as stated, fails.  The text [{}] is valid JSON without any of the
    members of a serialized node.  [handleImport] raises no alert for it:
    it installs as root and current node a node without [id], [name],
    [path] and [type], and statistics that count minus one folders. *)
Lemma C8_empty_object_is_adopted :
  JSON_parse Scenario.browser "{}" = Some (Json.JObject []) /\
  ~ WellShaped (Json.JObject []) /\
  let after := Importer.handleImport Scenario.browser "{}" importing in
  Importer.alerts after = [] /\
  ~ ImportRefused importing after /\
  Importer.rootNode after
  = Some (Importer.mkRestored None None None None [] None None
                              (Json.JBool false)) /\
  Importer.currentNode after = Importer.rootNode after /\
  Importer.stats after = Importer.mkGalleryStats 0 (-1) 0.
Proof.
  split; [reflexivity|]. split; [apply ImportFacts.empty_object_not_WellShaped|].
  cbv zeta. split; [reflexivity|]. split.
  - intros (Halert & _). discriminate Halert.
  - repeat split.
Qed.

(** C8, amended.  An import fails as a whole, with the single alert
    [Invalid snapshot file.] and with the tree, the current node, the flat
    list and the statistics left as they were, for every text that is not
    valid JSON and for every document on which [deserializeTree] throws,
    as it does on the document [null]; a document on which it does not
    throw is installed as it was deserialized, whether or not it has the
    shape of a serialized node. *)
Theorem C8_import_refused_when_parse_or_deserialize_throws :
  forall (B : Browser) (json : string) (st : Importer.AppState),
    let after := Importer.handleImport B json st in
    (JSON_parse B json = None -> ImportRefused st after) /\
    (JSON_parse B json = Some Json.JNull -> ImportRefused st after) /\
    (forall doc e,
        JSON_parse B json = Some doc ->
        Importer.deserializeTree B doc = Throws e ->
        ImportRefused st after) /\
    (forall doc restoredRoot allImagesList,
        JSON_parse B json = Some doc ->
        Importer.deserializeTree B doc
        = Returns (restoredRoot, allImagesList) ->
        Importer.rootNode after = Some restoredRoot /\
        Importer.currentNode after = Some restoredRoot /\
        Importer.allImages after = allImagesList /\
        Importer.alerts after = Importer.alerts st).
Proof.
  intros B json st. cbv zeta.
  split; [apply ImportFacts.handleImport_not_json|].
  split; [|split].
  - intros Hp.
    apply (ImportFacts.handleImport_throws B json Json.JNull TypeError st Hp).
    apply ImportFacts.deserializeTree_null.
  - intros doc e. apply ImportFacts.handleImport_throws.
  - intros doc restoredRoot allImagesList Hp Hd.
    unfold Importer.handleImport. rewrite Hp, Hd. repeat split.
Qed.

Lemma C8_witness_text_that_is_not_json :
  JSON_parse Scenario.browser "not a snapshot" = None /\
  ImportRefused importing
    (Importer.handleImport Scenario.browser "not a snapshot" importing).
Proof.
  split; [reflexivity|].
  apply (proj1 (C8_import_refused_when_parse_or_deserialize_throws
                  Scenario.browser "not a snapshot" importing)).
  reflexivity.
Defined.

(* ================================================================== *)
(** * The deserializer on the documents the serializer writes *)
(* ================================================================== *)

Module ImporterFacts.
Import Json Importer ImporterView.
Local Open Scope sync_scope.

(** [Importer.deserializeTree] with [node.children] read through [get]. *)
Lemma deserializeTree_reads B node :
  deserializeTree B node =
  (id_ <- get node "id" ;;
   name_ <- get node "name" ;;
   path_ <- get node "path" ;;
   type_ <- get node "type" ;;
   isDeleted_ <- get node "isDeleted" ;;
   let restoredNode :=
     mkRestored id_ name_ path_ type_ [] None None (orFalse isDeleted_) in
   thumbnailData_ <- get node "thumbnailData" ;;
   '(restoredNode, viewable) <-
      (if is_string type_ "file" && truthy thumbnailData_ then
         match thumbnailData_ with
         | Some (JString data) =>
             blob <- Deserializer.base64ToBlob B data ;;
             Returns
               (mkRestored id_ name_ path_ type_ []
                           (Some (mkRestoredFile blob name_))
                           (Some (UrlOfBlob blob)) (orFalse isDeleted_),
                true)
         | _ => Throws TypeError
         end
       else Returns (restoredNode, false)) ;;
   children_ <- get node "children" ;;
   '(cs, pushedBelow) <- children_loop B children_ ;;
   let restoredNode := set_r_children restoredNode cs in
   Returns (restoredNode,
            (if viewable : bool then [restoredNode] else []) ++ pushedBelow)).
Proof.
  destruct node as [|b|q|s|items|members]; try reflexivity.
  cbn [deserializeTree get Sync.bind].
  match goal with
  | |- Sync.bind ?first _ = _ =>
      destruct first as [[restoredNode viewable]|e]; [|reflexivity]
  end.
  cbn [Sync.bind].
  match goal with
  | |- Sync.bind (match ?walk members with _ => _ end) _ = _ =>
      assert (Hwalk : walk members
                      = option_map (fun v => children_loop B (Some v))
                                   (member "children" members))
  end.
  { clear. induction members as [|[k v] members IH]; [reflexivity|].
    rewrite IH. cbn [member].
    destruct (member "children" members) as [later|]; [reflexivity|].
    cbn [option_map].
    destruct (String.eqb k "children"); [|reflexivity].
    destruct v; reflexivity. }
  rewrite Hwalk.
  destruct (member "children" members) as [v|]; reflexivity.
Qed.

End ImporterFacts.

Module TypedDocuments.
Import Json Importer ImporterView.

Lemma get_stringify s key :
  get (JSON_stringify s) key = Returns (field (JSON_stringify s) key).
Proof. destruct s; reflexivity. Qed.

Lemma field_data s :
  field (JSON_stringify s) "id" = Some (JString (s_id s)) /\
  field (JSON_stringify s) "name" = Some (JString (s_name s)) /\
  field (JSON_stringify s) "path" = Some (JString (s_path s)) /\
  field (JSON_stringify s) "type" = Some (of_NodeType (s_type s)).
Proof.
  destruct s as [i n p t cs th d]. cbn [JSON_stringify field].
  cbn [s_id s_name s_path s_type s_children thumbnailData s_isDeleted].
  destruct d, th; repeat split.
Qed.

(** What the serializer writes has the shape of a serialized node. *)
Lemma stringify_WellShaped s : WellShaped (JSON_stringify s).
Proof.
  induction s as [i n p t cs th d IH] using SerializedNode_tree_ind.
  destruct (field_data (mkSerializedNode i n p t cs th d))
    as (Hi & Hn & Hp & Ht).
  econstructor; eauto using SnapshotFacts.field_children.
  cbn [s_children]. induction IH; constructor; auto.
Qed.

(** On a document the serializer wrote, the deserializer as it runs is
    the deserializer as it is typed. *)
Lemma deserializeTree_typed B s :
  Importer.deserializeTree B (JSON_stringify s)
  = lift (Deserializer.deserializeTree B s).
Proof.
  induction s as [i n p t cs th d IH] using SerializedNode_tree_ind.
  set (s := mkSerializedNode i n p t cs th d).
  assert (Hloop : forall restored pushed,
             forEach B (map JSON_stringify cs)
                     (map of_FileNode restored) (map of_FileNode pushed)
             = match deserializeChildren B cs restored pushed with
               | Returns (a, b) =>
                   Returns (map of_FileNode a, map of_FileNode b)
               | Throws e => Throws e
               end).
  { clear s. induction IH as [|c cs Hc _ IHcs]; intros restored pushed.
    - reflexivity.
    - cbn [map forEach deserializeChildren]. rewrite Hc.
      destruct (Deserializer.deserializeTree B c) as [[r pc]|e];
        [|reflexivity].
      cbn [lift of_result fst snd Sync.bind].
      fold (forEach B). fold (deserializeChildren B).
      rewrite <- IHcs. now rewrite !map_app. }
  rewrite ImporterFacts.deserializeTree_reads,
    RoundTripFacts.deserializeTree_eq.
  rewrite !get_stringify.
  destruct (field_data s) as (-> & -> & -> & ->).
  rewrite SnapshotFacts.field_isDeleted, SnapshotFacts.field_thumbnailData,
    SnapshotFacts.field_children.
  subst s. cbv zeta.
  cbn [Sync.bind s_id s_name s_path s_type s_children thumbnailData
       s_isDeleted children].
  unfold Deserializer.hasThumbnail.
  cbn [s_type thumbnailData].
  assert (Hflag : Importer.orFalse (option_map JBool d)
                  = JBool (Deserializer.orFalse d))
    by (destruct d as [[|]|]; reflexivity).
  rewrite Hflag.
  specialize (Hloop [] []). cbn [map] in Hloop.
  assert (Hdone :
            forall typed : Completion (list FileNode * list FileNode),
              typed = deserializeChildren B cs [] [] ->
              forEach B (map JSON_stringify cs) [] []
              = match typed with
                | Returns (a, b) =>
                    Returns (map of_FileNode a, map of_FileNode b)
                | Throws e => Throws e
                end)
    by (intros typed ->; exact Hloop).
  destruct t, th as [data|];
    cbn [of_NodeType is_string String.eqb Ascii.eqb Bool.eqb andb
         option_map truthy].
  - destruct (JsString.truthy data).
    + destruct (Deserializer.base64ToBlob B data) as [[bytes mime]|e];
        [|reflexivity].
      cbn [Sync.bind children id name path type isDeleted].
      unfold children_loop. rewrite (Hdone _ eq_refl).
      destruct (deserializeChildren B cs [] []) as [[a b]|e]; reflexivity.
    + cbn [Sync.bind children]. unfold children_loop.
      rewrite (Hdone _ eq_refl).
      destruct (deserializeChildren B cs [] []) as [[a b]|e]; reflexivity.
  - cbn [Sync.bind children]. unfold children_loop.
    rewrite (Hdone _ eq_refl).
    destruct (deserializeChildren B cs [] []) as [[a b]|e]; reflexivity.
  - cbn [Sync.bind children]. unfold children_loop.
    rewrite (Hdone _ eq_refl).
    destruct (deserializeChildren B cs [] []) as [[a b]|e]; reflexivity.
  - cbn [Sync.bind children]. unfold children_loop.
    rewrite (Hdone _ eq_refl).
    destruct (deserializeChildren B cs [] []) as [[a b]|e]; reflexivity.
Qed.

(** Importing the text of a document the serializer wrote installs the
    tree the typed deserializer restores from it, or is refused when that
    deserializer throws. *)
Lemma handleImport_exported B json s st :
  JSON_parse B json = Some (JSON_stringify s) ->
  match Deserializer.deserializeTree B s with
  | Returns (restoredRoot, allImagesList) =>
      rootNode (handleImport B json st) = Some (of_FileNode restoredRoot) /\
      allImages (handleImport B json st) = map of_FileNode allImagesList /\
      alerts (handleImport B json st) = alerts st
  | Throws _ => ImportRefused st (handleImport B json st)
  end.
Proof.
  intros Hp. unfold handleImport. rewrite Hp, deserializeTree_typed.
  destruct (Deserializer.deserializeTree B s) as [[r acc]|e];
    cbn [lift of_result fst snd]; repeat split.
Qed.

End TypedDocuments.

(* ================================================================== *)
(** * Ingestion Builder: what is dropped, what is kept, and where *)
(* ================================================================== *)

Module IngestionLayout.
Import Ingestion IngestionFacts.

#[local] Arguments walk : simpl never.

Lemma fold_ingest_accepted files : forall st,
  fold_left ingest files st = fold_left ingest (accepted files) st.
Proof.
  induction files as [|f files IH]; intros st; [reflexivity|].
  unfold accepted. cbn [filter fold_left].
  destruct (skipped f) eqn:Hs; cbn [negb].
  - unfold ingest at 2. rewrite Hs. apply IH.
  - cbn [fold_left]. apply IH.
Qed.

Lemma fold_ingest_files files : forall st,
  map node_file (snd (fold_left ingest files st))
  = map node_file (snd st) ++ map Some (accepted files).
Proof.
  induction files as [|f files IH]; intros st.
  - simpl. now rewrite app_nil_r.
  - cbn [fold_left]. rewrite IH. unfold accepted. cbn [filter].
    unfold ingest. destruct (skipped f) eqn:Hs; cbn [negb]; [reflexivity|].
    destruct (IngestedFiles.walk_adds f (pathParts f) (fst st)
                (pathParts_nonempty f)) as (fn & Hp & _ & _ & Hf & _).
    destruct (walk f (pathParts f) (fst st)) as [root' pushed].
    cbn [snd] in *. subst pushed.
    rewrite map_app. cbn [map]. rewrite Hf, <- app_assoc. reflexivity.
Qed.

(** The walk leaves the file, the URL and the flag of the node under the
    cursor alone too. *)
Lemma walk_keeps_rest f parts node :
  node_file (fst (walk f parts node)) = node_file node /\
  url (fst (walk f parts node)) = url node /\
  isDeleted (fst (walk f parts node)) = isDeleted node.
Proof.
  destruct parts as [|part [|part' rest]];
    [cbv; auto | rewrite walk_file; simpl; auto |].
  rewrite walk_folder.
  destruct (descend _ _ _) as [[cs pushed]|]; [simpl; auto|].
  destruct (walk f (part' :: rest) (folderNode node part)); simpl; auto.
Qed.

Lemma LaidOut_app parent a b :
  LaidOut parent a -> LaidOut parent b -> LaidOut parent (a ++ b).
Proof.
  intros Ha Hb. induction Ha; cbn [app]; [exact Hb | |].
  - eapply LaidOut_folder; eauto.
  - eapply LaidOut_file; eauto.
Qed.

Lemma LaidOut_split parent a b :
  LaidOut parent (a ++ b) -> LaidOut parent a /\ LaidOut parent b.
Proof.
  induction a as [|c a IH]; cbn [app]; intros H.
  - split; [constructor | exact H].
  - inversion H; subst.
    + destruct (IH ltac:(assumption)) as [Ha Hb].
      split; [eapply LaidOut_folder; eauto | exact Hb].
    + destruct (IH ltac:(assumption)) as [Ha Hb].
      split; [eapply LaidOut_file; eauto | exact Hb].
Qed.

(** One walk keeps the layout below the cursor. *)
Lemma walk_LaidOut f parts : forall node,
  LaidOut (path node) (children node) ->
  LaidOut (path node) (children (fst (walk f parts node))).
Proof.
  induction parts as [|part rest IH]; intros node Hnode; [exact Hnode|].
  destruct rest as [|part' rest].
  - rewrite walk_file. cbn [fst push_child children].
    apply LaidOut_app; [exact Hnode|].
    eapply LaidOut_file; try reflexivity. constructor.
  - rewrite walk_folder.
    destruct (descend _ _ _) as [[cs pushed]|] eqn:Hd.
    + apply descend_Some in Hd
        as (before & c & after & Hcs & _ & Hc & -> & _).
      cbn [fst set_children children]. rewrite Hcs in Hnode.
      apply LaidOut_split in Hnode as [Hb Hca].
      apply LaidOut_app; [exact Hb|].
      apply IngestedFiles.isFolderNamed_folder in Hc.
      destruct (walk_keeps f (part' :: rest) c) as (Hi & Hn & Hp & Ht).
      destruct (walk_keeps_rest f (part' :: rest) c) as (Hf & Hu & Hdel0).
      cbv zeta in Hi, Hn, Hp, Ht.
      inversion Hca as [|? ? Htc Hid Hpath Hfile Hurl Hdel Hbelow Hafter
                        |? ? ? Htc]; subst; [|congruence].
      eapply LaidOut_folder; try congruence.
      rewrite Hp. now apply IH.
    + pose proof (IH (folderNode node part)) as Hsub.
      destruct (walk_keeps f (part' :: rest) (folderNode node part))
        as (Hi & Hn & Hp & Ht).
      destruct (walk_keeps_rest f (part' :: rest) (folderNode node part))
        as (Hf & Hu & Hdel0).
      cbv zeta in Hi, Hn, Hp, Ht.
      destruct (walk f (part' :: rest) (folderNode node part))
        as [sub pushed].
      cbn [fst push_child children] in *.
      apply LaidOut_app; [exact Hnode|].
      eapply LaidOut_folder; try constructor.
      * now rewrite Ht.
      * now rewrite Hi, Hn.
      * rewrite Hp, Hn. reflexivity.
      * now rewrite Hf.
      * now rewrite Hu.
      * now rewrite Hdel0.
      * rewrite Hp. apply Hsub. constructor.
Qed.

Lemma fold_ingest_LaidOut files : forall st,
  LaidOut (path (fst st)) (children (fst st)) ->
  let st' := fold_left ingest files st in
  LaidOut (path (fst st')) (children (fst st')) /\
  id (fst st') = id (fst st) /\ name (fst st') = name (fst st) /\
  path (fst st') = path (fst st) /\ type (fst st') = type (fst st).
Proof.
  induction files as [|f files IH]; intros st H; cbv zeta; [simpl; auto|].
  cbn [fold_left].
  assert (Hstep : LaidOut (path (fst (ingest st f)))
                          (children (fst (ingest st f))) /\
                  id (fst (ingest st f)) = id (fst st) /\
                  name (fst (ingest st f)) = name (fst st) /\
                  path (fst (ingest st f)) = path (fst st) /\
                  type (fst (ingest st f)) = type (fst st)).
  { unfold ingest. destruct (skipped f); [auto|].
    pose proof (walk_LaidOut f (pathParts f) (fst st) H) as Hw.
    destruct (walk_keeps f (pathParts f) (fst st)) as (Hi & Hn & Hp & Ht).
    cbv zeta in Hi, Hn, Hp, Ht.
    destruct (walk f (pathParts f) (fst st)) as [root' pushed].
    cbn [fst] in *. rewrite Hp. auto. }
  destruct Hstep as (Hl & Hi & Hn & Hp & Ht).
  destruct (IH (ingest st f) Hl) as (Hl' & Hi' & Hn' & Hp' & Ht').
  cbv zeta in *. repeat split; congruence.
Qed.

Lemma parseFilesToTree_LaidOut files :
  let root := fst (parseFilesToTree files) in
  id root = "root" /\ name root = "Root" /\ path root = "" /\
  type root = folder /\
  LaidOut "" (children root).
Proof.
  cbv zeta. unfold parseFilesToTree.
  destruct (fold_ingest_LaidOut files (root, []) (LaidOut_nil _))
    as (Hl & Hi & Hn & Hp & Ht).
  cbn [fst root id name path type] in *.
  rewrite Hp in Hl. auto.
Qed.

Lemma parseFilesToTree_root_url files :
  url (fst (parseFilesToTree files)) = None.
Proof.
  unfold parseFilesToTree.
  assert (H : forall st, url (fst st) = None ->
              url (fst (fold_left ingest files st)) = None).
  { induction files as [|f fs IH]; intros st Hst; [exact Hst|].
    cbn [fold_left]. apply IH. unfold ingest.
    destruct (skipped f); [exact Hst|].
    destruct (walk_keeps_rest f (pathParts f) (fst st)) as (_ & Hu & _).
    destruct (walk f (pathParts f) (fst st)).
    cbn [fst] in *. congruence. }
  apply H. reflexivity.
Qed.

End IngestionLayout.

(** X1.  Entries that [parseFilesToTree] skips (a name that starts with a
    dot, a media type that does not start with [image/]) leave no trace:
    the tree and the flat list are the ones built from the other entries
    alone. *)
Theorem X1_skipped_entries_leave_no_trace :
  forall files : list File,
    Ingestion.parseFilesToTree files
    = Ingestion.parseFilesToTree (accepted files).
Proof.
  intros files. apply IngestionLayout.fold_ingest_accepted.
Qed.

(** X2.  The flat list that [parseFilesToTree] returns holds one node for
    each entry it does not skip, in the order of the input, carrying that
    entry; an entry given twice is there twice. *)
Theorem X2_allImages_are_the_accepted_entries :
  forall files : list File,
    map node_file (snd (Ingestion.parseFilesToTree files))
    = map Some (accepted files).
Proof.
  intros files. unfold Ingestion.parseFilesToTree.
  rewrite IngestionLayout.fold_ingest_files. reflexivity.
Qed.

(** X3.  The tree [parseFilesToTree] returns is laid out by paths: the
    root is the folder with id [root], name [Root] and the empty path;
    below a folder of path [p] every child has the id [p/name]; a folder
    child has the path [p/name], or [name] when [p] is empty, and neither
    file, URL nor flag; a file child is a leaf with the relative path of
    its entry as path, that entry as file, its URL, and the flag
    [false]. *)
Theorem X3_ingested_tree_is_laid_out_by_paths :
  forall files : list File,
    let root := fst (Ingestion.parseFilesToTree files) in
    id root = "root" /\ name root = "Root" /\ path root = "" /\
    type root = folder /\
    LaidOut "" (children root).
Proof.
  intros files. apply IngestionLayout.parseFilesToTree_LaidOut.
Qed.

(* ================================================================== *)
(** * Ingestion Builder: the tree and the flat list hold the same files *)
(* ================================================================== *)

Module IngestionAccumulator.
Import Ingestion IngestionFacts.

#[local] Arguments walk : simpl never.

Lemma filesBelow_app a b : filesBelow (a ++ b) = filesBelow a ++ filesBelow b.
Proof. unfold filesBelow. now rewrite flat_map_app, filter_app. Qed.

Lemma filesBelow_cons c cs : filesBelow (c :: cs) = fileNodes c ++ filesBelow cs.
Proof. unfold filesBelow, fileNodes. cbn [flat_map]. apply filter_app. Qed.

Lemma fileNodes_folder node :
  type node = folder -> fileNodes node = filesBelow (children node).
Proof.
  intros H. unfold fileNodes, filesBelow. rewrite IngestedFiles.nodes_eq.
  cbn [filter]. now rewrite H.
Qed.

(** A walk from a folder adds to the file nodes of the tree what it pushes
    on the flat list, and nothing else. *)
Lemma walk_fileNodes f parts : forall node,
  type node = folder ->
  Permutation (fileNodes (fst (walk f parts node)))
              (fileNodes node ++ snd (walk f parts node)).
Proof.
  induction parts as [|part rest IH]; intros node Hf.
  - cbn. now rewrite app_nil_r.
  - destruct (walk_keeps f (part :: rest) node) as (_ & _ & _ & Ht).
    cbv zeta in Ht. rewrite Hf in Ht.
    rewrite (fileNodes_folder _ Ht), (fileNodes_folder _ Hf).
    destruct rest as [|part' rest].
    + rewrite walk_file. cbn [fst snd push_child children].
      rewrite filesBelow_app, filesBelow_cons. reflexivity.
    + rewrite walk_folder.
      destruct (descend _ _ _) as [[cs pushed]|] eqn:Hd.
      * apply descend_Some in Hd
          as (before & c & after & Hcs & _ & Hc & -> & ->).
        cbn [fst snd set_children children]. rewrite Hcs.
        rewrite !filesBelow_app, !filesBelow_cons.
        apply IngestedFiles.isFolderNamed_folder in Hc.
        rewrite (IH c Hc), <- !app_assoc.
        apply Permutation_app_head, Permutation_app_head,
          Permutation_app_comm.
      * pose proof (IH (folderNode node part) eq_refl) as Hsub.
        destruct (walk f (part' :: rest) (folderNode node part))
          as [sub pushed].
        cbn [fst snd push_child children] in *.
        rewrite filesBelow_app, filesBelow_cons. cbn in Hsub.
        unfold filesBelow at 3. cbn. rewrite app_nil_r.
        apply Permutation_app_head. exact Hsub.
Qed.

Lemma fold_ingest_fileNodes files : forall st,
  type (fst st) = folder ->
  Permutation (fileNodes (fst st)) (snd st) ->
  Permutation (fileNodes (fst (fold_left ingest files st)))
              (snd (fold_left ingest files st)).
Proof.
  induction files as [|f files IH]; intros st Hf Hp; [exact Hp|].
  cbn [fold_left]. apply IH; [now apply IngestedFiles.ingest_folder|].
  unfold ingest. destruct (skipped f); [exact Hp|].
  pose proof (walk_fileNodes f (pathParts f) (fst st) Hf) as Hw.
  destruct (walk f (pathParts f) (fst st)) as [root' pushed].
  cbn [fst snd] in *. rewrite Hw. now apply Permutation_app_tail.
Qed.

(** In a tree laid out by paths the nodes that hold a URL are file
    nodes. *)
Lemma LaidOut_url parent cs :
  LaidOut parent cs ->
  forall n, In n (flat_map nodes cs) -> url n <> None -> type n = file.
Proof.
  induction 1 as [|parent c cs Ht Hi Hp Hf Hu Hd Hbelow IHbelow Hrest IHrest
                  |parent c cs f Ht Hi Hp Hc Hf Hu Hd Hrest IHrest];
    intros n Hin Hurl.
  - destruct Hin.
  - cbn [flat_map] in Hin. apply in_app_or in Hin as [Hin|Hin]; [|eauto].
    rewrite IngestedFiles.nodes_eq in Hin. destruct Hin as [<-|Hin].
    + congruence.
    + eauto.
  - cbn [flat_map] in Hin. apply in_app_or in Hin as [Hin|Hin]; [|eauto].
    rewrite IngestedFiles.nodes_eq, Hc in Hin. destruct Hin as [<-|[]].
    exact Ht.
Qed.

End IngestionAccumulator.

(** X4.  The file nodes of the tree that [parseFilesToTree] returns are
    the nodes of its flat list, each as often as the other has it; and
    every node of the tree that holds an object URL is in the flat list,
    so that revoking the URLs of the flat list, as the cleanup of [App]
    does, revokes every URL the tree holds. *)
Theorem X4_tree_and_flat_list_hold_the_same_files :
  forall files : list File,
    let root := fst (Ingestion.parseFilesToTree files) in
    let allImages := snd (Ingestion.parseFilesToTree files) in
    Permutation (fileNodes root) allImages /\
    (forall n, In n (nodes root) -> url n <> None -> In n allImages).
Proof.
  intros files. cbv zeta.
  assert (Hperm : Permutation
                    (fileNodes (fst (Ingestion.parseFilesToTree files)))
                    (snd (Ingestion.parseFilesToTree files))).
  { apply IngestionAccumulator.fold_ingest_fileNodes;
      [reflexivity | constructor]. }
  split; [exact Hperm|].
  intros n Hin Hurl.
  destruct (IngestionLayout.parseFilesToTree_LaidOut files)
    as (_ & _ & _ & Ht & Hl).
  cbv zeta in Ht, Hl.
  apply (Permutation_in _ Hperm). unfold fileNodes.
  apply filter_In. split; [exact Hin|].
  rewrite IngestedFiles.nodes_eq in Hin. destruct Hin as [<-|Hin].
  - exfalso. apply Hurl. apply IngestionLayout.parseFilesToTree_root_url.
  - rewrite (IngestionAccumulator.LaidOut_url _ _ Hl n Hin Hurl).
    reflexivity.
Qed.

(* ================================================================== *)
(** * The application shell: statistics, sidebar, gallery, lightbox *)
(* ================================================================== *)

Module AppFacts.
Import App.

Lemma countFolders_eq node folders :
  countFolders node folders =
  match type node with
  | folder =>
      fold_left (fun folders child => countFolders child folders)
                (children node) (folders + 1)%Z
  | file => folders
  end.
Proof. destruct node; reflexivity. Qed.

Lemma FolderTree_eq node :
  FolderTree node =
  match type node with
  | file => []
  | folder => node :: FolderTree_children (children node)
  end.
Proof. destruct node as [i n p t cs f u d]; destruct t; reflexivity. Qed.

Lemma foldersBelow_cons c cs :
  foldersBelow (c :: cs) = folderNodes c ++ foldersBelow cs.
Proof. unfold foldersBelow, folderNodes. cbn [flat_map]. apply filter_app. Qed.

(** In a tree laid out by paths [countFolders] counts the folder nodes,
    and [FolderTree] has a row for each of them. *)
Lemma LaidOut_folders parent cs :
  LaidOut parent cs ->
  (forall folders,
      fold_left (fun folders child => countFolders child folders) cs folders
      = (folders + Z.of_nat (List.length (foldersBelow cs)))%Z) /\
  FolderTree_children cs = foldersBelow cs.
Proof.
  induction 1 as [|parent c cs Ht Hi Hp Hf Hu Hd Hbelow [IHn IHrows]
                    Hrest [IHrn IHrrows]
                  |parent c cs f Ht Hi Hp Hc Hf Hu Hd Hrest [IHrn IHrrows]].
  - split; [intros folders; simpl; lia | reflexivity].
  - assert (Hnodes : folderNodes c = c :: foldersBelow (children c)).
    { unfold folderNodes, foldersBelow. rewrite IngestedFiles.nodes_eq.
      cbn [filter]. now rewrite Ht. }
    split.
    + intros folders. cbn [fold_left].
      rewrite countFolders_eq, Ht, IHn, IHrn, foldersBelow_cons, Hnodes.
      rewrite length_app. cbn [List.length]. lia.
    + cbn [FolderTree_children]. rewrite Ht. cbn [NodeType_eqb].
      rewrite FolderTree_eq, Ht, IHrows, IHrrows, foldersBelow_cons, Hnodes.
      reflexivity.
  - assert (Hnodes : folderNodes c = []).
    { unfold folderNodes. rewrite IngestedFiles.nodes_eq, Hc.
      cbn [flat_map filter]. now rewrite Ht. }
    split.
    + intros folders. cbn [fold_left].
      rewrite countFolders_eq, Ht, IHrn, foldersBelow_cons, Hnodes.
      reflexivity.
    + cbn [FolderTree_children]. rewrite Ht. cbn [NodeType_eqb].
      rewrite IHrrows, foldersBelow_cons, Hnodes. reflexivity.
Qed.

Lemma folderNodes_root files :
  let root := fst (Ingestion.parseFilesToTree files) in
  folderNodes root = root :: foldersBelow (children root) /\
  countFolders root 0 = Z.of_nat (List.length (folderNodes root)) /\
  FolderTree root = folderNodes root.
Proof.
  cbv zeta.
  destruct (IngestionLayout.parseFilesToTree_LaidOut files)
    as (_ & _ & _ & Ht & Hl).
  cbv zeta in Ht, Hl.
  destruct (LaidOut_folders _ _ Hl) as [Hn Hrows].
  assert (Hnodes : folderNodes (fst (Ingestion.parseFilesToTree files))
                   = fst (Ingestion.parseFilesToTree files)
                     :: foldersBelow
                          (children (fst (Ingestion.parseFilesToTree files)))).
  { unfold folderNodes, foldersBelow. rewrite IngestedFiles.nodes_eq.
    cbn [filter]. now rewrite Ht. }
  split; [exact Hnodes|]. split.
  - rewrite countFolders_eq, Ht, Hn, Hnodes. cbn [List.length]. lia.
  - rewrite FolderTree_eq, Ht, Hrows, Hnodes. reflexivity.
Qed.

Lemma totalBytes_fold files : forall size,
  fold_left (fun size f => (size + App.size f)%Z) files size
  = (size + totalBytes files)%Z.
Proof.
  induction files as [|f files IH]; intros size; cbn; [lia|].
  rewrite IH. unfold totalBytes. lia.
Qed.

Lemma totalBytes_split files :
  totalBytes files = (totalBytes (accepted files) + totalBytes (rejected files))%Z.
Proof.
  induction files as [|f files IH]; [reflexivity|].
  unfold accepted, rejected in *. cbn [filter totalBytes fold_right].
  fold (totalBytes files). rewrite IH.
  destruct (Ingestion.skipped f); cbn [negb totalBytes fold_right];
    unfold totalBytes; lia.
Qed.

End AppFacts.

(** X5.  After an upload of at least one entry the statistics of [App]
    are: as files, the entries that were not skipped; as folders, the
    folder nodes of the tree without the root; as size, the bytes of all
    entries of the upload, the skipped ones included. *)
Theorem X5_upload_statistics :
  forall (files : list File) (st : App.State),
    files <> [] ->
    let st' := App.handleUpload (Some files) st in
    let root := fst (Ingestion.parseFilesToTree files) in
    App.rootNode st' = Some root /\
    App.currentNode st' = Some root /\
    App.allImages st' = snd (Ingestion.parseFilesToTree files) /\
    Importer.totalFiles (App.stats st')
    = Z.of_nat (List.length (accepted files)) /\
    Importer.totalFolders (App.stats st')
    = (Z.of_nat (List.length (folderNodes root)) - 1)%Z /\
    Importer.totalSize (App.stats st')
    = (totalBytes (accepted files) + totalBytes (rejected files))%Z.
Proof.
  intros files st Hne. cbv zeta.
  destruct files as [|f files]; [congruence|].
  unfold App.handleUpload.
  destruct (AppFacts.folderNodes_root (f :: files)) as (_ & Hcount & _).
  cbv zeta in Hcount.
  pose proof (IngestionLayout.fold_ingest_files
                (f :: files) (Ingestion.root, [])) as Hacc.
  fold (Ingestion.parseFilesToTree (f :: files)) in Hacc.
  destruct (Ingestion.parseFilesToTree (f :: files)) as [root images].
  cbn [fst snd App.rootNode App.currentNode App.allImages App.stats
       Importer.totalFiles Importer.totalFolders Importer.totalSize] in *.
  repeat split.
  - apply (f_equal (@List.length _)) in Hacc.
    cbn [map app] in Hacc. rewrite !length_map in Hacc. now rewrite Hacc.
  - now rewrite Hcount.
  - rewrite AppFacts.totalBytes_fold, <- AppFacts.totalBytes_split. lia.
Qed.

Lemma X5_witness_upload_with_a_skipped_entry :
  let files := [Scenario.photos_a; Scenario.entry_notes] in
  let st' := App.handleUpload (Some files)
               (App.mkState None None [] App.HIERARCHY None
                            (Importer.mkGalleryStats 0 0 0)) in
  files <> [] /\
  Importer.totalFiles (App.stats st') = 1%Z /\
  Importer.totalFolders (App.stats st') = 1%Z /\
  Importer.totalSize (App.stats st') = 10%Z.
Proof.
  cbv zeta.
  assert (Hne : [Scenario.photos_a; Scenario.entry_notes] <> [])
    by discriminate.
  split; [exact Hne|].
  destruct (X5_upload_statistics
              [Scenario.photos_a; Scenario.entry_notes]
              (App.mkState None None [] App.HIERARCHY None
                           (Importer.mkGalleryStats 0 0 0)) Hne)
    as (_ & _ & _ & Hfiles & Hfolders & Hsize).
  cbv zeta in Hfiles, Hfolders, Hsize.
  rewrite Hfiles, Hfolders, Hsize. repeat split.
Defined.

(** X6.  For a tree built by [parseFilesToTree] the sidebar has one row
    for every folder node, the root first and the others in depth-first
    order, and the number of rows is what [countFolders] counts: the
    folder statistic of [App] plus one. *)
Theorem X6_sidebar_rows_are_the_folders :
  forall files : list File,
    let root := fst (Ingestion.parseFilesToTree files) in
    App.FolderTree root = folderNodes root /\
    Z.of_nat (List.length (App.FolderTree root)) = App.countFolders root 0.
Proof.
  intros files. cbv zeta.
  destruct (AppFacts.folderNodes_root files) as (_ & Hcount & Hrows).
  cbv zeta in Hcount, Hrows. rewrite Hrows, Hcount. auto.
Qed.

Module LightboxFacts.
Import App.

Lemma findIndex_Some wanted l idx :
  findIndex wanted l = Some idx ->
  idx < List.length l /\
  exists n, nth_error l idx = Some n /\ id n = wanted.
Proof.
  revert idx. induction l as [|n l IH]; intros idx H; [discriminate|].
  cbn [findIndex] in H. destruct (String.eqb (id n) wanted) eqn:E.
  - inversion H; subst. apply String.eqb_eq in E.
    split; [simpl; lia | exists n; auto].
  - destruct (findIndex wanted l) as [k|]; [|discriminate].
    inversion H; subst. destruct (IH k eq_refl) as (Hk & m & Hm & Hid).
    split; [simpl; lia | exists m; auto].
Qed.

(** With one node per id the index found is the index of the node. *)
Lemma findIndex_unique l : forall idx n,
  NoDup (map id l) -> nth_error l idx = Some n ->
  findIndex (id n) l = Some idx.
Proof.
  induction l as [|m l IH]; intros idx n Hnd Hn.
  - destruct idx; discriminate.
  - inversion Hnd as [|? ? Hnotin Hnd']; subst. destruct idx as [|idx].
    + inversion Hn; subst. cbn [findIndex]. now rewrite String.eqb_refl.
    + cbn [nth_error] in Hn. cbn [findIndex].
      destruct (String.eqb (id m) (id n)) eqn:E.
      * apply String.eqb_eq in E. exfalso. apply Hnotin. rewrite E.
        apply in_map. eapply nth_error_In; eauto.
      * now rewrite (IH idx n Hnd' Hn).
Qed.

Lemma shown_filter nodes n :
  In n (filter shown nodes) ->
  In n nodes /\ type n = file /\ Deserializer.orFalse (isDeleted n) = false.
Proof.
  intros H. apply filter_In in H as [Hin Hs]. unfold shown in Hs.
  apply andb_true_iff in Hs as [Ht Hd].
  split; [exact Hin|]. split.
  - destruct (type n); [reflexivity | discriminate].
  - now apply negb_true_iff in Hd.
Qed.

End LightboxFacts.

(** X7.  While the lightbox shows a node, [handleNextImage] and
    [handlePrevImage] always leave it showing a node: either the one it
    showed, or a node of the gallery that is a file and is not deleted;
    they never open a folder or a deleted image. *)
Theorem X7_lightbox_moves_to_shown_files_only :
  forall (galleryNodes : list FileNode) (current : FileNode),
    (exists next,
        App.handleNextImage galleryNodes (Some current) = Some next /\
        (next = current \/
         In next galleryNodes /\ type next = file /\
         Deserializer.orFalse (isDeleted next) = false)) /\
    (exists prev,
        App.handlePrevImage galleryNodes (Some current) = Some prev /\
        (prev = current \/
         In prev galleryNodes /\ type prev = file /\
         Deserializer.orFalse (isDeleted prev) = false)).
Proof.
  intros galleryNodes current.
  unfold App.handleNextImage, App.handlePrevImage. cbv zeta.
  destruct (App.findIndex (id current) (filter App.shown galleryNodes))
    as [idx|] eqn:Hidx; [|split; eauto].
  apply LightboxFacts.findIndex_Some in Hidx as (Hlt & _).
  split.
  - destruct (Z.ltb_spec (Z.of_nat idx)
                (Z.of_nat (List.length (filter App.shown galleryNodes)) - 1))
      as [Hin|Hout]; [|eauto].
    destruct (nth_error (filter App.shown galleryNodes) (idx + 1))
      as [next|] eqn:Hn.
    + exists next. split; [reflexivity|]. right.
      apply LightboxFacts.shown_filter. eapply nth_error_In; eauto.
    + apply nth_error_None in Hn. lia.
  - destruct (Z.gtb_spec (Z.of_nat idx) 0) as [Hin|Hout]; [|eauto].
    destruct (nth_error (filter App.shown galleryNodes) (idx - 1))
      as [prev|] eqn:Hn.
    + exists prev. split; [reflexivity|]. right.
      apply LightboxFacts.shown_filter. eapply nth_error_In; eauto.
    + apply nth_error_None in Hn. lia.
Qed.

(** X8.  When the shown files of the gallery have distinct ids and the
    lightbox shows the one at position [i] among them, [handleNextImage]
    moves it to the one at position [i + 1], and stays at the last;
    [handlePrevImage] moves it to the one at position [i - 1], and stays
    at the first; from any node but the last, stepping forward and then
    back returns to the node. *)
Theorem X8_lightbox_steps_through_shown_files :
  forall (galleryNodes : list FileNode) (i : nat) (current : FileNode),
    let currentList := filter App.shown galleryNodes in
    NoDup (map id currentList) ->
    nth_error currentList i = Some current ->
    App.handleNextImage galleryNodes (Some current)
    = Some (nth (i + 1) currentList current) /\
    App.handlePrevImage galleryNodes (Some current)
    = Some (nth (i - 1) currentList current) /\
    (i + 1 < List.length currentList ->
     App.handlePrevImage galleryNodes
       (App.handleNextImage galleryNodes (Some current)) = Some current).
Proof.
  intros galleryNodes i current. cbv zeta. intros Hnd Hi.
  set (l := filter App.shown galleryNodes) in *.
  assert (Hlen : i < List.length l)
    by (apply nth_error_Some; congruence).
  assert (Hnext : App.handleNextImage galleryNodes (Some current)
                  = Some (nth (i + 1) l current)).
  { unfold App.handleNextImage. cbv zeta. fold l.
    rewrite (LightboxFacts.findIndex_unique l i current Hnd Hi).
    destruct (Z.ltb_spec (Z.of_nat i) (Z.of_nat (List.length l) - 1)).
    - destruct (nth_error l (i + 1)) as [n|] eqn:Hn.
      + now rewrite (nth_error_nth _ _ _ Hn).
      + apply nth_error_None in Hn. lia.
    - rewrite nth_overflow by lia. reflexivity. }
  assert (Hprev : forall j n, nth_error l j = Some n ->
             App.handlePrevImage galleryNodes (Some n)
             = Some (nth (j - 1) l n)).
  { intros j n Hj. unfold App.handlePrevImage. cbv zeta. fold l.
    assert (Hj' : j < List.length l) by (apply nth_error_Some; congruence).
    rewrite (LightboxFacts.findIndex_unique l j n Hnd Hj).
    destruct (Z.gtb_spec (Z.of_nat j) 0).
    - destruct (nth_error l (j - 1)) as [m|] eqn:Hm.
      + now rewrite (nth_error_nth _ _ _ Hm).
      + apply nth_error_None in Hm. lia.
    - assert (j = 0) by lia. subst j. cbn [Nat.sub].
      now rewrite (nth_error_nth _ _ _ Hj). }
  split; [exact Hnext|]. split; [now apply Hprev|].
  intros Hin. rewrite Hnext.
  destruct (nth_error l (i + 1)) as [n|] eqn:Hn;
    [|apply nth_error_None in Hn; lia].
  rewrite (nth_error_nth _ _ _ Hn), (Hprev (i + 1) n Hn).
  replace (i + 1 - 1) with i by lia.
  now rewrite (nth_error_nth _ _ _ Hi).
Qed.

Lemma X8_witness_two_images :
  let galleryNodes :=
    snd (Ingestion.parseFilesToTree
           [Scenario.entry_A_x "x"; Scenario.entry_A_y "y"]) in
  let a := mkFileNode "/A" "A" "A" folder [] None None None in
  let x := Ingestion.fileNode a "x.png" (Scenario.entry_A_x "x") in
  let y := Ingestion.fileNode a "y.png" (Scenario.entry_A_y "y") in
  App.handleNextImage galleryNodes (Some x) = Some y /\
  App.handlePrevImage galleryNodes (Some x) = Some x /\
  App.handlePrevImage galleryNodes
    (App.handleNextImage galleryNodes (Some x)) = Some x.
Proof.
  cbv zeta.
  destruct (X8_lightbox_steps_through_shown_files
              (snd (Ingestion.parseFilesToTree
                      [Scenario.entry_A_x "x"; Scenario.entry_A_y "y"]))
              0
              (Ingestion.fileNode
                 (mkFileNode "/A" "A" "A" folder [] None None None)
                 "x.png" (Scenario.entry_A_x "x")))
    as (Hnext & Hprev & Hback).
  - vm_compute. repeat constructor; simpl; intuition discriminate.
  - reflexivity.
  - split; [exact Hnext|]. split; [exact Hprev|].
    apply Hback. vm_compute. lia.
Defined.

(** X9.  [handleToggleDelete] leaves a node with a flag that is [true] or
    [false], the negation of the state it had, and changes nothing else of
    the node: its [id], [name], [path], [type], children, file and URL are
    as before.  So the document written for the node afterwards always has
    the [isDeleted] member; toggling twice brings back the state every
    reader of the flag sees, and the very node when its flag was set, but
    not when the node had no flag, as the folders of the builder. *)
Theorem X9_toggle_delete :
  forall (B : Browser) (node : FileNode),
    let once := App.handleToggleDelete node in
    let twice := App.handleToggleDelete once in
    once = mkFileNode (id node) (name node) (path node) (type node)
                      (children node) (node_file node) (url node)
                      (Some (negb (Deserializer.orFalse (isDeleted node)))) /\
    Json.field (Json.JSON_stringify (snapshot B once)) "isDeleted"
    = Some (Json.JBool (negb (Deserializer.orFalse (isDeleted node)))) /\
    twice = mkFileNode (id node) (name node) (path node) (type node)
                       (children node) (node_file node) (url node)
                       (Some (Deserializer.orFalse (isDeleted node))) /\
    (isDeleted node <> None -> twice = node) /\
    (isDeleted node = None -> twice <> node).
Proof.
  intros B node. cbv zeta. destruct node as [i n p t cs f u d].
  split; [reflexivity|]. split; [|split; [|split]].
  - rewrite SnapshotFacts.field_isDeleted. reflexivity.
  - unfold App.handleToggleDelete.
    cbn [id name path type children node_file url isDeleted
         Deserializer.orFalse].
    now rewrite negb_involutive.
  - cbn [isDeleted]. intros Hd. destruct d as [b|]; [|congruence].
    unfold App.handleToggleDelete.
    cbn [id name path type children node_file url isDeleted
         Deserializer.orFalse].
    now rewrite negb_involutive.
  - cbn [isDeleted]. intros ->. discriminate.
Qed.

Lemma X9_witness_file_and_folder :
  let a := mkFileNode "/A" "A" "A" folder [] None None None in
  let x := Ingestion.fileNode a "x.png" (Scenario.entry_A_x "x") in
  App.handleToggleDelete (App.handleToggleDelete x) = x /\
  App.handleToggleDelete (App.handleToggleDelete a) <> a.
Proof.
  cbv zeta. split.
  - apply (proj1 (proj2 (proj2 (proj2
             (X9_toggle_delete Scenario.browser _))))).
    discriminate.
  - apply (proj2 (proj2 (proj2 (proj2
             (X9_toggle_delete Scenario.browser _))))).
    reflexivity.
Defined.

(* ================================================================== *)
(** * Image Transcoder: what scaling does to an image *)
(* ================================================================== *)

Module ScalingFacts.
Import JsNumber Transcoder TranscoderFacts.

(** What rounding the two sides on their own does to the proportions. *)
Lemma sides_in_proportion s w h :
  (0 < s)%Z -> dimension w -> dimension h ->
  (2 * Z.abs (Math_round (mul (inject_Z w) (scale s)) * h
              - Math_round (mul (inject_Z h) (scale s)) * w) <= w + h)%Z.
Proof.
  intros Hs Hw Hh.
  destruct (side_nearest s w Hs Hw) as [Hw1 Hw2].
  destruct (side_nearest s h Hs Hh) as [Hh1 Hh2].
  set (a := Math_round (mul (inject_Z w) (scale s))) in *.
  set (b := Math_round (mul (inject_Z h) (scale s))) in *.
  set (k := (1024 / inject_Z s)%Q) in *.
  destruct Hw as [Hw0 _]. destruct Hh as [Hh0 _].
  pose proof (inject_Z_nonneg w Hw0) as Hw'.
  pose proof (inject_Z_nonneg h Hh0) as Hh'.
  (* a = w k + e1 and b = h k + e2 with both errors at most a half *)
  assert (H1 : ((inject_Z a - inject_Z w * k) * inject_Z h
                <= (1 # 2) * inject_Z h)%Q)
    by (apply Qmult_le_compat_r; [lra | exact Hh']).
  assert (H2 : ((- (1 # 2)) * inject_Z h
                <= (inject_Z a - inject_Z w * k) * inject_Z h)%Q)
    by (apply Qmult_le_compat_r; [lra | exact Hh']).
  assert (H3 : ((inject_Z b - inject_Z h * k) * inject_Z w
                <= (1 # 2) * inject_Z w)%Q)
    by (apply Qmult_le_compat_r; [lra | exact Hw']).
  assert (H4 : ((- (1 # 2)) * inject_Z w
                <= (inject_Z b - inject_Z h * k) * inject_Z w)%Q)
    by (apply Qmult_le_compat_r; [lra | exact Hw']).
  assert (Hup : (inject_Z (2 * (a * h - b * w)) <= inject_Z (w + h))%Q).
  { rewrite inject_Z_mult, inject_Z_plus.
    unfold Zminus. rewrite inject_Z_plus, inject_Z_opp, !inject_Z_mult.
    change (inject_Z 2) with 2%Q. lra. }
  assert (Hlo : (inject_Z (- (w + h)) <= inject_Z (2 * (a * h - b * w)))%Q).
  { rewrite inject_Z_mult, inject_Z_opp, inject_Z_plus.
    unfold Zminus. rewrite inject_Z_plus, inject_Z_opp, !inject_Z_mult.
    change (inject_Z 2) with 2%Q. lra. }
  rewrite <- Zle_Qle in Hup, Hlo. lia.
Qed.

End ScalingFacts.

(** X10.  The transcoder never enlarges an image: for an image whose
    width and height are what a browser can report, each side of the
    canvas, as computed in double precision, is at most the side of the
    image, and an image whose sides are positive gets a canvas whose sides
    are positive. *)
Theorem X10_canvas_is_never_larger_than_the_image :
  forall w h : Z,
    dimension w -> dimension h ->
    (fst (Transcoder.canvasSize w h) <= w)%Z /\
    (snd (Transcoder.canvasSize w h) <= h)%Z /\
    ((0 < w)%Z -> (0 < h)%Z ->
     (0 < fst (Transcoder.canvasSize w h))%Z /\
     (0 < snd (Transcoder.canvasSize w h))%Z).
Proof.
  intros w h [Hw0 Hw] [Hh0 Hh].
  destruct (Z_le_gt_dec (Z.min w h) 1024) as [Hsmall|Hlarge].
  - rewrite (TranscoderFacts.canvasSize_small w h Hsmall). cbn [fst snd].
    repeat split; lia.
  - assert (Hl : (Transcoder.SHORT_EDGE_TARGET < Z.min w h)%Z)
      by (unfold Transcoder.SHORT_EDGE_TARGET; lia).
    pose proof (TranscoderFacts.canvasSize_short_edge w h Hl) as Hshort.
    rewrite (TranscoderFacts.canvasSize_large w h Hl) in *.
    cbn [fst snd] in *. unfold Transcoder.SHORT_EDGE_TARGET in Hshort.
    split; [apply TranscoderFacts.side_not_longer; lia|].
    split; [apply TranscoderFacts.side_not_longer; lia|].
    intros _ _. lia.
Qed.

Lemma X10_witness_large_photo :
  (fst (Transcoder.canvasSize 4000 3000) <= 4000)%Z /\
  (snd (Transcoder.canvasSize 4000 3000) <= 3000)%Z.
Proof.
  destruct (X10_canvas_is_never_larger_than_the_image 4000 3000)
    as (Hw & Hh & _);
    [unfold dimension; simpl; lia | unfold dimension; simpl; lia |].
  split; assumption.
Defined.

(** X11.  Scaling is done once: the canvas computed for an image that
    already has the size of a canvas is that size again, so an image that
    was exported is not reduced a second time when it is exported
    anew. *)
Theorem X11_canvas_size_is_idempotent :
  forall w h : Z,
    Transcoder.canvasSize (fst (Transcoder.canvasSize w h))
                          (snd (Transcoder.canvasSize w h))
    = Transcoder.canvasSize w h.
Proof.
  intros w h.
  destruct (Z_le_gt_dec (Z.min w h) 1024) as [Hsmall|Hlarge].
  - rewrite (TranscoderFacts.canvasSize_small w h Hsmall). cbn [fst snd].
    now apply TranscoderFacts.canvasSize_small.
  - assert (Hl : (Transcoder.SHORT_EDGE_TARGET < Z.min w h)%Z)
      by (unfold Transcoder.SHORT_EDGE_TARGET; lia).
    pose proof (TranscoderFacts.canvasSize_short_edge w h Hl) as Hshort.
    destruct (Transcoder.canvasSize w h) as [width height].
    cbn [fst snd] in *. apply TranscoderFacts.canvasSize_small.
    rewrite Hshort. reflexivity.
Qed.

(** X12.  Rounding the two sides on their own keeps the proportions of
    the image up to half a pixel per side, the rounding of the quotient
    and of the products to double precision included: for an image of [w]
    by [h] whose short edge is above 1024 and its canvas of [w'] by [h'],
    twice the distance between [w' * h] and [h' * w] is at most
    [w + h]. *)
Theorem X12_canvas_keeps_proportions :
  forall w h : Z,
    (1024 < Z.min w h)%Z -> dimension w -> dimension h ->
    let w' := fst (Transcoder.canvasSize w h) in
    let h' := snd (Transcoder.canvasSize w h) in
    (2 * Z.abs (w' * h - h' * w) <= w + h)%Z.
Proof.
  intros w h H Hw Hh. cbv zeta.
  assert (Hl : (Transcoder.SHORT_EDGE_TARGET < Z.min w h)%Z)
    by (unfold Transcoder.SHORT_EDGE_TARGET; lia).
  rewrite (TranscoderFacts.canvasSize_large w h Hl). cbn [fst snd].
  apply ScalingFacts.sides_in_proportion; [lia | exact Hw | exact Hh].
Qed.

Lemma X12_witness_large_photo :
  (2 * Z.abs (fst (Transcoder.canvasSize 139699 100352) * 100352
              - snd (Transcoder.canvasSize 139699 100352) * 139699)
   <= 139699 + 100352)%Z.
Proof.
  apply (X12_canvas_keeps_proportions 139699 100352);
    [simpl; lia | unfold dimension; simpl; lia | unfold dimension; simpl; lia].
Defined.

(* ================================================================== *)
(** * Snapshot Deserializer: what it restores and when it throws *)
(* ================================================================== *)

Module DeserializerFacts.
Import Deserializer.

Section Restoring.
Variable B : Browser.

Lemma children_restored cs :
  Forall (Restored_as B) cs ->
  forall restored pushed cs' pushed',
    deserializeChildren B cs restored pushed = Returns (cs', pushed') ->
    exists rs,
      cs' = restored ++ rs /\
      Forall2 Restores cs rs /\
      pushed' = pushed ++ filter viewable (flat_map nodes rs) /\
      Forall RestoredNode (flat_map nodes rs) /\
      Forall (Decodable B) cs.
Proof.
  induction 1 as [|c cs Hc _ IH]; intros restored pushed cs' pushed' H.
  - inversion H; subst. exists []. rewrite !app_nil_r.
    repeat split; constructor.
  - cbn [deserializeChildren] in H.
    destruct (deserializeTree B c) as [[r pc]|e] eqn:Hr; [|discriminate].
    cbn [Sync.bind] in H. fold (deserializeChildren B) in H.
    destruct (Hc r pc Hr) as (Hres & Hpc & Hnodes & Hdec).
    destruct (IH _ _ _ _ H) as (rs & -> & Hall & -> & Hrn & Hds).
    exists (r :: rs). rewrite <- !app_assoc. cbn [app flat_map].
    rewrite filter_app, Hpc.
    repeat split; try constructor; auto.
    apply Forall_app. auto.
Qed.

Lemma deserializeTree_restored s : Restored_as B s.
Proof.
  induction s as [i n p t cs th d IH] using SerializedNode_tree_ind.
  intros r pushed H.
  rewrite RoundTripFacts.deserializeTree_eq in H. cbv zeta in H.
  set (s := mkSerializedNode i n p t cs th d) in *.
  destruct (hasThumbnail s) as [data|] eqn:Hthumb.
  - destruct (base64ToBlob B data) as [blob|e] eqn:Hblob; [|discriminate].
    cbn [Sync.bind children] in H.
    destruct (deserializeChildren B (s_children s) [] [])
      as [[cs' pushed']|e] eqn:Hkids; [|discriminate].
    destruct (children_restored cs IH _ _ _ _ Hkids)
      as (rs & -> & Hall & -> & Hrn & Hds).
    cbn [Sync.bind app] in H. inversion H; subst r pushed. clear H.
    assert (Ht : t = file).
    { unfold hasThumbnail in Hthumb. subst s. cbn in Hthumb.
      destruct t; [reflexivity | discriminate]. }
    subst s. split; [|split; [|split]].
    + constructor; cbn; auto.
    + reflexivity.
    + rewrite IngestedFiles.nodes_eq. cbn [children set_children].
      constructor; [|exact Hrn]. left. cbn. split; [exact Ht|]. eauto.
    + constructor; [|exact Hds]. intros data' Hd'.
      rewrite Hthumb in Hd'. inversion Hd'; subst. eauto.
  - cbn [Sync.bind children] in H.
    destruct (deserializeChildren B (s_children s) [] [])
      as [[cs' pushed']|e] eqn:Hkids; [|discriminate].
    destruct (children_restored cs IH _ _ _ _ Hkids)
      as (rs & -> & Hall & -> & Hrn & Hds).
    cbn [Sync.bind app] in H. inversion H; subst r pushed. clear H.
    subst s. split; [|split; [|split]].
    + constructor; cbn; auto.
    + reflexivity.
    + rewrite IngestedFiles.nodes_eq. cbn [children set_children].
      constructor; [|exact Hrn]. right. cbn. auto.
    + constructor; [|exact Hds]. intros data' Hd'.
      rewrite Hthumb in Hd'. discriminate.
Qed.

Lemma children_provenance cs :
  Forall (fun c => forall r pushed,
              deserializeTree B c = Returns (r, pushed) ->
              RestoredFrom B c r) cs ->
  forall restored pushed cs' pushed',
    deserializeChildren B cs restored pushed = Returns (cs', pushed') ->
    exists rs, cs' = restored ++ rs /\ Forall2 (RestoredFrom B) cs rs.
Proof.
  induction 1 as [|c cs Hc _ IH]; intros restored pushed cs' pushed' H.
  - inversion H; subst. exists []. rewrite app_nil_r. split; constructor.
  - cbn [deserializeChildren] in H.
    destruct (deserializeTree B c) as [[r pc]|e] eqn:Hr; [|discriminate].
    cbn [Sync.bind] in H. fold (deserializeChildren B) in H.
    destruct (IH _ _ _ _ H) as (rs & -> & Hall).
    exists (r :: rs). rewrite <- app_assoc. split; [reflexivity|].
    constructor; [now apply (Hc r pc) | exact Hall].
Qed.

(** The file and the URL of every restored node are made of the blob of
    its own payload. *)
Lemma deserializeTree_provenance s : forall r pushed,
  deserializeTree B s = Returns (r, pushed) -> RestoredFrom B s r.
Proof.
  induction s as [i n p t cs th d IH] using SerializedNode_tree_ind.
  intros r pushed H.
  rewrite RoundTripFacts.deserializeTree_eq in H. cbv zeta in H.
  set (s := mkSerializedNode i n p t cs th d) in *.
  destruct (hasThumbnail s) as [data|] eqn:Hthumb.
  - destruct (base64ToBlob B data) as [blob|e] eqn:Hblob; [|discriminate].
    cbn [Sync.bind children] in H.
    destruct (deserializeChildren B (s_children s) [] [])
      as [[cs' pushed']|e] eqn:Hkids; [|discriminate].
    destruct (children_provenance cs IH _ _ _ _ Hkids) as (rs & -> & Hall).
    cbn [Sync.bind app] in H. inversion H; subst r pushed. clear H.
    apply (RestoredFrom_payload B s _ data blob);
      [exact Hthumb | exact Hblob | reflexivity | reflexivity | exact Hall].
  - cbn [Sync.bind children] in H.
    destruct (deserializeChildren B (s_children s) [] [])
      as [[cs' pushed']|e] eqn:Hkids; [|discriminate].
    destruct (children_provenance cs IH _ _ _ _ Hkids) as (rs & -> & Hall).
    cbn [Sync.bind app] in H. inversion H; subst r pushed. clear H.
    apply (RestoredFrom_plain B s);
      [exact Hthumb | reflexivity | reflexivity | exact Hall].
Qed.

(** The deserializer returns on every tree all of whose payloads decode. *)
Lemma Decodable_returns s :
  Decodable B s -> exists r pushed, deserializeTree B s = Returns (r, pushed).
Proof.
  induction s as [i n p t cs th d IH] using SerializedNode_tree_ind.
  intros Hdec. inversion Hdec as [? Hown Hkids]; subst.
  cbn [s_children] in Hkids.
  assert (Hloop : forall restored pushed,
             exists cs' pushed',
               deserializeChildren B cs restored pushed
               = Returns (cs', pushed')).
  { clear Hown Hdec. revert Hkids.
    induction IH as [|c cs Hc _ IHcs]; intros Hkids restored pushed.
    - eexists _, _. reflexivity.
    - inversion Hkids; subst.
      destruct (Hc ltac:(assumption)) as (r & pc & Hr).
      destruct (IHcs ltac:(assumption) (restored ++ [r]) (pushed ++ pc))
        as (cs' & pushed' & Hcs).
      exists cs', pushed'. cbn [deserializeChildren]. rewrite Hr.
      cbn [Sync.bind]. exact Hcs. }
  rewrite RoundTripFacts.deserializeTree_eq. cbv zeta.
  set (s := mkSerializedNode i n p t cs th d) in *.
  destruct (hasThumbnail s) as [data|] eqn:Hthumb.
  - destruct (Hown data eq_refl) as (blob & ->).
    cbn [Sync.bind children s_children]. subst s. cbn [s_children].
    destruct (Hloop [] []) as (cs' & pushed' & ->).
    cbn [Sync.bind]. eauto.
  - cbn [Sync.bind children s_children]. subst s. cbn [s_children].
    destruct (Hloop [] []) as (cs' & pushed' & ->).
    cbn [Sync.bind]. eauto.
Qed.

(** The files an export of the restored tree transcodes are as many as
    the nodes pushed on the accumulator. *)
Lemma exported_viewable l :
  Forall RestoredNode l ->
  List.length
    (flat_map (fun n => match transcodable n with Some f => [f] | None => [] end)
              l)
  = List.length (filter viewable l).
Proof.
  induction 1 as [|n l Hn _ IH]; [reflexivity|].
  cbn [flat_map filter]. rewrite length_app, IH.
  unfold transcodable, viewable.
  destruct Hn as [(Ht & blob & -> & ->) | (-> & ->)].
  - rewrite Ht. reflexivity.
  - destruct (type n); reflexivity.
Qed.

End Restoring.

(** Every node of a restored tree has a flag. *)
Lemma Restores_flagged s r :
  Restores s r -> Forall (fun n => isDeleted n <> None) (nodes r).
Proof.
  revert r. induction s as [i n p t cs th d IH] using SerializedNode_tree_ind.
  intros r H. inversion H as [? ? Hi Hn Hp Ht Hd Hkids]; subst.
  rewrite IngestedFiles.nodes_eq. constructor; [congruence|].
  cbn [s_children] in Hkids. clear -IH Hkids.
  revert IH. induction Hkids as [|c r' cs rs Hc _ IHk]; intros IH.
  - constructor.
  - inversion IH; subst. cbn [flat_map]. apply Forall_app. auto.
Qed.

(** Where the original has a flag at every node, the round trip gives the
    flags back as they were. *)
Lemma Mirrors_flagged a : forall b,
  Forall (fun n => isDeleted n <> None) (nodes a) ->
  Mirrors (fun a b => isDeleted b = Some (orFalse (isDeleted a))) a b ->
  Mirrors sameFlag a b.
Proof.
  induction a as [i n p t cs f u d IH] using FileNode_tree_ind.
  intros b Hflags Hm.
  inversion Hm as [? ? Hi Hn Hp Ht Hflag Hkids]; subst.
  rewrite IngestedFiles.nodes_eq in Hflags.
  inversion Hflags as [|? ? Hd Hbelow]; subst.
  cbn [children isDeleted] in *.
  constructor; auto.
  - unfold sameFlag. cbn [isDeleted]. rewrite Hflag.
    destruct d as [x|]; [reflexivity | congruence].
  - cbn [children]. clear -IH Hbelow Hkids.
    revert IH Hbelow. induction Hkids as [|c c' cs cs' Hc _ IHk];
      intros IH Hbelow; constructor.
    + inversion IH; subst. cbn [flat_map] in Hbelow.
      apply Forall_app in Hbelow as [Hc' _]. auto.
    + inversion IH; subst. cbn [flat_map] in Hbelow.
      apply Forall_app in Hbelow as [_ Hrest]. auto.
Qed.

End DeserializerFacts.

(** X13.  Whenever [deserializeTree] returns, the tree it returns has,
    node for node and with the children in the same order, the [id],
    [name], [path] and [type] of the serialized tree it was given, and as
    [isDeleted] the flag of the serialized node, [false] where that node
    has none. *)
Theorem X13_deserializer_restores_the_data :
  forall (B : Browser) (s : SerializedNode) (r : FileNode)
         (pushed : list FileNode),
    Deserializer.deserializeTree B s = Returns (r, pushed) ->
    Restores s r.
Proof.
  intros B s r pushed H.
  now destruct (DeserializerFacts.deserializeTree_restored B s r pushed H).
Qed.

Lemma X13_witness_exported_photo :
  exists r pushed,
    Deserializer.deserializeTree Scenario.browser Samples.exported_photo
    = Returns (r, pushed) /\
    Restores Samples.exported_photo r.
Proof.
  eexists _, _. split; [reflexivity|].
  eapply (X13_deserializer_restores_the_data Scenario.browser).
  reflexivity.
Defined.

(** X14.  The nodes [deserializeTree] pushes on the accumulator are the
    nodes of the restored tree that have a URL, in depth-first order.  A
    file node of the serialized tree with a non-empty payload is restored
    with the file made of the blob [base64ToBlob] returns for that very
    payload, named as the node, and with the URL of the same blob; every
    other node is restored with neither file nor URL.  So an export of the
    restored tree transcodes as many files as the accumulator has
    nodes. *)
Theorem X14_accumulator_holds_the_viewable_nodes :
  forall (B : Browser) (s : SerializedNode) (r : FileNode)
         (pushed : list FileNode),
    Deserializer.deserializeTree B s = Returns (r, pushed) ->
    pushed = filter viewable (nodes r) /\
    RestoredFrom B s r /\
    Forall RestoredNode (nodes r) /\
    List.length (exported r) = List.length pushed.
Proof.
  intros B s r pushed H.
  destruct (DeserializerFacts.deserializeTree_restored B s r pushed H)
    as (_ & Hp & Hn & _).
  split; [exact Hp|].
  split; [exact (DeserializerFacts.deserializeTree_provenance B s r pushed H)|].
  split; [exact Hn|].
  rewrite Hp. unfold exported. now apply DeserializerFacts.exported_viewable.
Qed.

Lemma X14_witness_exported_photo :
  exists r pushed,
    Deserializer.deserializeTree Scenario.browser Samples.exported_photo
    = Returns (r, pushed) /\
    pushed = filter viewable (nodes r) /\
    RestoredFrom Scenario.browser Samples.exported_photo r /\
    List.length pushed = 1.
Proof.
  eexists _, _. split; [reflexivity|].
  destruct (X14_accumulator_holds_the_viewable_nodes
              Scenario.browser Samples.exported_photo _ _ eq_refl)
    as (Hp & Hfrom & _ & _).
  split; [exact Hp|]. split; [exact Hfrom | reflexivity].
Defined.

(** X15.  [deserializeTree] is all or nothing: it returns a tree exactly
    when [base64ToBlob] returns on the payload of every file node that has
    a non-empty one, and throws as soon as it throws on one of them,
    wherever in the tree it is. *)
Theorem X15_deserializer_returns_iff_payloads_decode :
  forall (B : Browser) (s : SerializedNode),
    (exists r pushed, Deserializer.deserializeTree B s = Returns (r, pushed))
    <-> Decodable B s.
Proof.
  intros B s. split.
  - intros (r & pushed & H).
    now destruct (DeserializerFacts.deserializeTree_restored B s r pushed H)
      as (_ & _ & _ & Hd).
  - apply DeserializerFacts.Decodable_returns.
Qed.

Lemma X15_witness_exported_photo :
  Decodable Scenario.browser Samples.exported_photo.
Proof.
  apply (proj1 (X15_deserializer_returns_iff_payloads_decode
                  Scenario.browser Samples.exported_photo)).
  eexists _, _. reflexivity.
Defined.

(** X16.  A tree that was restored by [deserializeTree] survives a further
    round trip exactly: for a browser whose [atob] decodes the payloads
    its encoder writes, serializing the restored tree and deserializing
    the result returns a tree with the same [id], [name], [path], [type]
    and [isDeleted] at every node, folders included, and the same order of
    children. *)
Theorem X16_restored_tree_round_trips_exactly :
  forall (S : Type) (B : Browser) (onProgress : option (S -> S))
         (s : SerializedNode) (r : FileNode) (pushed : list FileNode)
         (w : Async.World S),
    DecodesOwnPayloads B ->
    Deserializer.deserializeTree B s = Returns (r, pushed) ->
    exists r' pushed',
      roundTrip B onProgress r w = Returns (r', pushed') /\
      Mirrors sameFlag r r'.
Proof.
  intros S B onProgress s r pushed w Hdec Hr.
  destruct (DeserializerFacts.deserializeTree_restored B s r pushed Hr)
    as (Hres & _).
  destruct (RoundTripFacts.deserialize_snapshot B Hdec r)
    as (r' & pushed' & Hr' & Hm).
  exists r', pushed'. split.
  - unfold roundTrip. rewrite SerializerFacts.serializeTree_returns.
    exact Hr'.
  - apply DeserializerFacts.Mirrors_flagged; [|exact Hm].
    eapply DeserializerFacts.Restores_flagged; eauto.
Qed.

Lemma X16_witness_exported_photo :
  exists r pushed r' pushed',
    Deserializer.deserializeTree Scenario.browser Samples.exported_photo
    = Returns (r, pushed) /\
    roundTrip Scenario.browser (Some Datatypes.S) r (Async.mkWorld [] 0)
    = Returns (r', pushed') /\
    Mirrors sameFlag r r'.
Proof.
  assert (Hdec : DecodesOwnPayloads Scenario.browser)
    by (intros src width height; vm_compute; discriminate).
  destruct (X16_restored_tree_round_trips_exactly
              nat Scenario.browser (Some Datatypes.S) Samples.exported_photo
              _ _ (Async.mkWorld [] 0) Hdec eq_refl)
    as (r' & pushed' & Hrt & Hm).
  eexists _, _, r', pushed'. split; [reflexivity|]. split; assumption.
Defined.

(* ================================================================== *)
(** * The export trigger: the progress shown *)
(* ================================================================== *)

Module ProgressBar.
Import ShareModal.

Lemma percentage_full n : (0 < n)%Z -> percentage n n = Some 100%Z.
Proof.
  intros Hn. unfold percentage.
  destruct (Z.eqb_spec n 0) as [E|_]; [lia|]. f_equal.
  pose proof (TranscoderFacts.inject_Z_pos n Hn) as Hq.
  assert (Hone : (JsNumber.div (inject_Z n) (inject_Z n) == 1)%Q).
  { unfold JsNumber.div.
    rewrite (DoubleFacts.fl_comp (inject_Z n / inject_Z n) (inject_Z 1))
      by (change (inject_Z 1) with 1%Q; field; lra).
    apply DoubleFacts.fl_integer. lia. }
  assert (Hall : (JsNumber.mul (JsNumber.div (inject_Z n) (inject_Z n)) 100
                  == inject_Z 100)%Q).
  { unfold JsNumber.mul.
    rewrite (DoubleFacts.fl_comp _ (inject_Z 100))
      by (rewrite Hone; reflexivity).
    apply DoubleFacts.fl_integer. lia. }
  rewrite (TranscoderFacts.Math_round_comp _ _ Hall).
  apply TranscoderFacts.Math_round_integer.
Qed.

(** On the way the percentage is what double precision makes of it: the
    quotient [23 / 40] times one hundred falls just below 57.5. *)
Lemma percentage_in_doubles : percentage 23 40 = Some 57%Z.
Proof. vm_compute. reflexivity. Qed.

(** After at least one call the percentage shown is that of the count. *)
Lemma progress_after totalFiles n st :
  progress (Nat.iter (S n) (onProgress totalFiles) st)
  = percentage (processedCount st + Z.of_nat (S n)) totalFiles.
Proof.
  rewrite Nat.iter_succ. unfold onProgress at 1. cbn [progress].
  rewrite ProgressFacts.onProgress_counts. f_equal. lia.
Qed.

(** An export whose [stats.files] is the number of files it transcodes
    ends ready, with every file counted and the bar at one hundred. *)
Lemma export_completes B root st :
  let totalFiles := Z.of_nat (List.length (exported root)) in
  let after := fst (handleGenerateSnapshot B (Some root) totalFiles st) in
  step after = ready /\
  processedCount after = totalFiles /\
  progress after = if (totalFiles =? 0)%Z then progress st else Some 100%Z.
Proof.
  cbv zeta.
  destruct (ExportFacts.handleGenerateSnapshot_ready
              B root (Z.of_nat (List.length (exported root))) st)
    as (Hstep & _ & _ & Hcount).
  cbv zeta in Hstep, Hcount. split; [exact Hstep|]. split; [exact Hcount|].
  unfold handleGenerateSnapshot.
  rewrite SerializerFacts.serializeTree_run.
  cbn [fst snd Async.caller Async.events progress called].
  destruct (List.length (exported root)) as [|n] eqn:Hn.
  - reflexivity.
  - rewrite progress_after. cbn [processedCount].
    rewrite Z.add_0_l. rewrite percentage_full by lia.
    destruct (Z.eqb_spec (Z.of_nat (S n)) 0); [lia | reflexivity].
Qed.

End ProgressBar.

(** X17.  An export started with the file statistic of [App] counts
    every file and, unless there is none, ends with the progress at one
    hundred percent: after an upload, where the statistic is the length of
    the flat list of [parseFilesToTree], and after an import, where it is
    the length of the accumulator of [deserializeTree]. *)
Theorem X17_export_progress_ends_at_one_hundred :
  (forall (B : Browser) (files : list File) (st : ShareModal.State),
      let root := fst (Ingestion.parseFilesToTree files) in
      let totalFiles :=
        Z.of_nat (List.length (snd (Ingestion.parseFilesToTree files))) in
      let after :=
        fst (ShareModal.handleGenerateSnapshot B (Some root) totalFiles st) in
      ShareModal.step after = ShareModal.ready /\
      ShareModal.processedCount after = totalFiles /\
      ShareModal.progress after
      = if (totalFiles =? 0)%Z then ShareModal.progress st else Some 100%Z) /\
  (forall (B : Browser) (s : SerializedNode) (r : FileNode)
          (pushed : list FileNode) (st : ShareModal.State),
      Deserializer.deserializeTree B s = Returns (r, pushed) ->
      let totalFiles := Z.of_nat (List.length pushed) in
      let after :=
        fst (ShareModal.handleGenerateSnapshot B (Some r) totalFiles st) in
      ShareModal.step after = ShareModal.ready /\
      ShareModal.processedCount after = totalFiles /\
      ShareModal.progress after
      = if (totalFiles =? 0)%Z then ShareModal.progress st else Some 100%Z).
Proof.
  split.
  - intros B files st. cbv zeta.
    assert (Hlen : List.length (snd (Ingestion.parseFilesToTree files))
                   = List.length
                       (exported (fst (Ingestion.parseFilesToTree files)))).
    { rewrite IngestedTrees.Ingested_exported
        by apply IngestedTrees.parseFilesToTree_Ingested.
      symmetry. apply Permutation_length.
      apply IngestionAccumulator.fold_ingest_fileNodes;
        [reflexivity | constructor]. }
    rewrite Hlen. apply ProgressBar.export_completes.
  - intros B s r pushed st H. cbv zeta.
    destruct (DeserializerFacts.deserializeTree_restored B s r pushed H)
      as (_ & Hp & Hn & _).
    assert (Hlen : List.length pushed = List.length (exported r)).
    { rewrite Hp. unfold exported.
      symmetry. now apply DeserializerFacts.exported_viewable. }
    rewrite Hlen. apply ProgressBar.export_completes.
Qed.

Lemma X17_witness_exported_photo :
  exists r pushed,
    Deserializer.deserializeTree Scenario.browser Samples.exported_photo
    = Returns (r, pushed) /\
    ShareModal.progress
      (fst (ShareModal.handleGenerateSnapshot
              Scenario.browser (Some r) (Z.of_nat (List.length pushed))
              Scenario.exporting))
    = Some 100%Z.
Proof.
  eexists _, _. split; [reflexivity|].
  destruct (proj2 X17_export_progress_ends_at_one_hundred
              Scenario.browser Samples.exported_photo _ _
              Scenario.exporting eq_refl) as (_ & _ & Hprogress).
  exact Hprogress.
Defined.

(* ================================================================== *)
(** * [base64ToBlob]: the payloads it takes apart *)
(* ================================================================== *)

Module PayloadFacts.
Import Deserializer.

Lemma split_whole s :
  allChars notComma s = true -> JsString.split "," s = [s].
Proof.
  induction s as [|c s IH]; [reflexivity|].
  cbn [allChars JsString.split]. intros H.
  apply andb_true_iff in H as [Hc Hs]. unfold notComma in Hc.
  apply negb_true_iff in Hc. rewrite Hc, (IH Hs). reflexivity.
Qed.

Lemma split_at_comma a b :
  allChars notComma a = true ->
  JsString.split "," (a ++ String "," b)%string = a :: JsString.split "," b.
Proof.
  induction a as [|c a IH]; intros H.
  - reflexivity.
  - cbn [allChars] in H. apply andb_true_iff in H as [Hc Ha].
    unfold notComma in Hc. apply negb_true_iff in Hc.
    cbn [String.append JsString.split]. rewrite Hc, (IH Ha). reflexivity.
Qed.

Lemma upToSemicolon_mime mime rest :
  allChars mimeChar mime = true ->
  upToSemicolon (mime ++ String ";" rest)%string = Some mime.
Proof.
  induction mime as [|c mime IH]; intros H; [reflexivity|].
  cbn [allChars] in H. apply andb_true_iff in H as [Hc Hm].
  unfold mimeChar in Hc. apply negb_true_iff in Hc.
  apply orb_false_iff in Hc as [Hc Hlt]. apply orb_false_iff in Hc as [Hsemi _].
  cbn [String.append upToSemicolon]. rewrite Hsemi, Hlt, (IH Hm). reflexivity.
Qed.

Lemma mimeChar_notComma mime :
  allChars mimeChar mime = true -> allChars notComma mime = true.
Proof.
  induction mime as [|c mime IH]; [reflexivity|].
  cbn [allChars]. intros H. apply andb_true_iff in H as [Hc Hm].
  rewrite (IH Hm), andb_true_r. unfold mimeChar in Hc. unfold notComma.
  apply negb_true_iff in Hc. apply orb_false_iff in Hc as [Hc _].
  apply orb_false_iff in Hc as [_ Hcomma]. now rewrite Hcomma.
Qed.

Lemma allChars_app p a b :
  allChars p (a ++ b)%string = allChars p a && allChars p b.
Proof.
  induction a as [|c a IH]; [reflexivity|].
  cbn [String.append allChars]. now rewrite IH, andb_assoc.
Qed.

Lemma append_assoc (a b c : string) :
  ((a ++ b) ++ c = a ++ (b ++ c))%string.
Proof.
  induction a as [|x a IH]; [reflexivity|].
  cbn [String.append]. now rewrite IH.
Qed.

(** The pieces of a data URL. *)
Lemma dataURL_pieces mime payload :
  allChars mimeChar mime = true ->
  allChars notComma payload = true ->
  JsString.split "," ("data:" ++ mime ++ ";base64," ++ payload)%string
  = [("data:" ++ mime ++ ";base64")%string; payload] /\
  matchMime ("data:" ++ mime ++ ";base64")%string = Some mime.
Proof.
  intros Hm Hp. split.
  - replace ("data:" ++ mime ++ ";base64," ++ payload)%string
      with (("data:" ++ mime ++ ";base64") ++ String "," payload)%string.
    + rewrite split_at_comma, (split_whole payload Hp); [reflexivity|].
      change ("data:" ++ mime ++ ";base64")%string
        with ("data:" ++ (mime ++ ";base64"))%string.
      rewrite allChars_app, allChars_app, (mimeChar_notComma mime Hm).
      reflexivity.
    + rewrite !append_assoc. reflexivity.
  - cbn [String.append matchMime Ascii.eqb Bool.eqb].
    change (mime ++ ";base64")%string
      with (mime ++ String ";" "base64")%string.
    now rewrite upToSemicolon_mime.
Qed.

(** The type of a blob is in the form the constructors keep: giving it
    to [new Blob] or [new File] again changes nothing. *)
Lemma toLowerCase_printable c :
  printable c = true ->
  printable (toLowerCase c) = true /\
  toLowerCase (toLowerCase c) = toLowerCase c.
Proof.
  destruct c as [[] [] [] [] [] [] [] []]; vm_compute; intuition congruence.
Qed.

Lemma Blob_type_idempotent type : Blob_type (Blob_type type) = Blob_type type.
Proof.
  unfold Blob_type. destruct (allChars printable type) eqn:Hp; [|reflexivity].
  assert (H : allChars printable (lowerCased type) = true /\
              lowerCased (lowerCased type) = lowerCased type).
  { induction type as [|c rest IH]; [split; reflexivity|].
    cbn [allChars] in Hp. apply andb_true_iff in Hp as [Hc Hrest].
    destruct (toLowerCase_printable c Hc) as [Hc1 Hc2].
    destruct (IH Hrest) as [IH1 IH2].
    cbn [lowerCased allChars]. now rewrite Hc1, Hc2, IH1, IH2. }
  destruct H as [-> ->]. reflexivity.
Qed.

End PayloadFacts.

(** X18.  [base64ToBlob] takes a data URL [data:<type>;base64,<payload>]
    apart into the blob of the decoded payload whose type is the media
    type of the header as [new Blob] keeps it (in lower case, or empty
    when it holds a character outside U+0020 to U+007E), whenever the type
    holds no semicolon, comma or line end and the payload no comma; it
    throws when [atob] rejects the payload. *)
Theorem X18_base64ToBlob_reads_data_urls :
  forall (B : Browser) (mime payload : string),
    allChars mimeChar mime = true ->
    allChars notComma payload = true ->
    Deserializer.base64ToBlob
      B ("data:" ++ mime ++ ";base64," ++ payload)%string
    = match atob B payload with
      | Some bytes => Returns (mkBlob bytes (Blob_type mime))
      | None => Throws InvalidCharacterError
      end.
Proof.
  intros B mime payload Hm Hp. unfold Deserializer.base64ToBlob.
  destruct (PayloadFacts.dataURL_pieces mime payload Hm Hp) as [-> Hmime].
  cbn [nth]. rewrite Hmime. reflexivity.
Qed.

Lemma X18_witness_jpeg :
  Deserializer.base64ToBlob Scenario.browser "data:IMAGE/JPEG;base64,QUJD"
  = Returns (mkBlob "ABC" "image/jpeg").
Proof.
  apply (X18_base64ToBlob_reads_data_urls Scenario.browser
           "IMAGE/JPEG" "QUJD"); reflexivity.
Defined.

(** X19.  A payload without a comma is not a data URL: [base64ToBlob]
    hands [atob] the text [undefined] in place of the missing second
    piece, so with an [atob] that rejects that text, as the browsers' does,
    it throws, and so does [deserializeTree] on every file node that holds
    such a payload, whatever else the node holds. *)
Theorem X19_payload_without_comma_is_refused :
  forall (B : Browser) (data : string),
    allChars notComma data = true ->
    atob B "undefined" = None ->
    Deserializer.base64ToBlob B data = Throws InvalidCharacterError /\
    (JsString.truthy data = true ->
     forall i n p cs d,
       Deserializer.deserializeTree
         B (mkSerializedNode i n p file cs (Some data) d)
       = Throws InvalidCharacterError).
Proof.
  intros B data Hc Hatob.
  assert (Hblob : Deserializer.base64ToBlob B data
                  = Throws InvalidCharacterError).
  { unfold Deserializer.base64ToBlob.
    rewrite (PayloadFacts.split_whole data Hc). cbn [nth].
    now rewrite Hatob. }
  split; [exact Hblob|].
  intros Ht i n p cs d. rewrite RoundTripFacts.deserializeTree_eq.
  cbv zeta. unfold Deserializer.hasThumbnail.
  cbn [s_type thumbnailData]. rewrite Ht, Hblob. reflexivity.
Qed.

Lemma X19_witness_plain_text :
  Deserializer.base64ToBlob Scenario.browser "not a data url"
  = Throws InvalidCharacterError /\
  Deserializer.deserializeTree
    Scenario.browser
    (mkSerializedNode "/x.png" "x.png" "" file [] (Some "not a data url")
                      None)
  = Throws InvalidCharacterError.
Proof.
  destruct (X19_payload_without_comma_is_refused
              Scenario.browser "not a data url") as [Hblob Hnode];
    [reflexivity | reflexivity |].
  split; [exact Hblob|]. apply Hnode. reflexivity.
Defined.

(** X20.  What the share modal writes can be read back: the document it
    offers for a tree has, at every node, the members [id], [name],
    [path], [type] and [children] of a serialized node, and for a browser
    whose [atob] decodes the payloads its encoder writes, importing a
    text that parses to that document raises no alert and installs a root
    that has the data of the original at every node, with as file
    statistic the length of the flat list installed. *)
Theorem X20_exported_document_is_imported :
  forall (B : Browser) (tree : FileNode) (totalFiles : Z)
         (modal : ShareModal.State) (json : string) (doc : Json.value)
         (st : Importer.AppState),
    DecodesOwnPayloads B ->
    ShareModal.downloadUrl
      (fst (ShareModal.handleGenerateSnapshot B (Some tree) totalFiles modal))
    = Some doc ->
    JSON_parse B json = Some doc ->
    let after := Importer.handleImport B json st in
    WellShaped doc /\
    Importer.alerts after = Importer.alerts st /\
    exists r pushed,
      Importer.rootNode after = Some (ImporterView.of_FileNode r) /\
      Importer.allImages after = map ImporterView.of_FileNode pushed /\
      Importer.totalFiles (Importer.stats after)
      = Z.of_nat (List.length pushed) /\
      Mirrors (fun a b => isDeleted b
                          = Some (Deserializer.orFalse (isDeleted a)))
              tree r.
Proof.
  intros B tree totalFiles modal json doc st Hdec Hdoc Hparse. cbv zeta.
  destruct (ExportFacts.handleGenerateSnapshot_ready B tree totalFiles modal)
    as (_ & Hwritten & _).
  cbv zeta in Hwritten. rewrite Hwritten in Hdoc. inversion Hdoc; subst doc.
  split; [apply TypedDocuments.stringify_WellShaped|].
  destruct (RoundTripFacts.deserialize_snapshot B Hdec tree)
    as (r & pushed & Hr & Hm).
  unfold Importer.handleImport.
  rewrite Hparse, TypedDocuments.deserializeTree_typed, Hr.
  cbn [ImporterView.lift ImporterView.of_result fst snd
       Importer.alerts Importer.rootNode Importer.allImages Importer.stats
       Importer.totalFiles].
  split; [reflexivity|]. exists r, pushed.
  rewrite length_map.
  split; [reflexivity|]. split; [reflexivity|]. split; [reflexivity|].
  exact Hm.
Qed.

Lemma X20_witness_two_photos :
  let after := Importer.handleImport Samples.reader "snapshot" importing in
  Importer.alerts after = [] /\
  exists r pushed,
    Importer.rootNode after = Some (ImporterView.of_FileNode r) /\
    Importer.allImages after = map ImporterView.of_FileNode pushed.
Proof.
  cbv zeta.
  assert (Hdec : DecodesOwnPayloads Samples.reader)
    by (intros src width height; vm_compute; discriminate).
  destruct (X20_exported_document_is_imported
              Samples.reader Samples.photos 2 Scenario.exporting "snapshot"
              (Json.JSON_stringify (snapshot Scenario.browser Samples.photos))
              importing Hdec eq_refl eq_refl)
    as (_ & Halerts & r & pushed & Hroot & Hall & _).
  split; [exact Halerts|]. exists r, pushed. split; assumption.
Defined.

(** X21.  A document whose [children] member is there, is not an array
    and is not falsy (a text, a number, [true], an object) is refused by
    the import as a whole: [deserializeTree] throws on it, and
    [handleImport] raises its alert and leaves the workspace as it
    was. *)
Theorem X21_children_that_are_no_array_are_refused :
  forall (B : Browser) (json : string) (members : list (string * Json.value))
         (v : Json.value) (st : Importer.AppState),
    JSON_parse B json = Some (Json.JObject members) ->
    Json.member "children" members = Some v ->
    Importer.truthy (Some v) = true ->
    (forall items, v <> Json.JArray items) ->
    (exists e, Importer.deserializeTree B (Json.JObject members) = Throws e) /\
    ImportRefused st (Importer.handleImport B json st).
Proof.
  intros B json members v st Hparse Hmember Htruthy Harray.
  assert (Hthrows : exists e,
             Importer.deserializeTree B (Json.JObject members) = Throws e).
  { rewrite ImporterFacts.deserializeTree_reads.
    cbn [Importer.get Sync.bind].
    match goal with
    | |- exists e, Sync.bind ?first _ = _ =>
        destruct first as [[restoredNode viewable]|e];
        [|exists e; reflexivity]
    end.
    cbn [Sync.bind]. rewrite Hmember. exists TypeError.
    unfold ImporterView.children_loop.
    destruct v as [|b|q|s|items|ms]; cbn [Importer.truthy] in *;
      try (rewrite Htruthy); try reflexivity.
    - discriminate Htruthy.
    - exfalso. now apply (Harray items). }
  split; [exact Hthrows|]. destruct Hthrows as [e He].
  eapply ImportFacts.handleImport_throws; eauto.
Qed.

Lemma X21_witness_children_as_text :
  ImportRefused importing
    (Importer.handleImport (Samples.reading Samples.children_as_text)
                           "snapshot" importing).
Proof.
  apply (proj2 (X21_children_that_are_no_array_are_refused
                  (Samples.reading Samples.children_as_text) "snapshot"
                  _ (Json.JString "none") importing eq_refl eq_refl eq_refl
                  ltac:(discriminate))).
Defined.
